(** * move-shot: screenshot listing, transcription and assembly

    A shallow embedding of the scripts of the repository:

    - [move-shot.js]  : the capture script (start-up validation and the
                        capture session);
    - [ocr.js]        : [numericalSort], [getScreenshotFiles],
                        [performOcrOnImage], [generateMarkdownFile];
    - [pdf.js]        : [generateSearchablePdf], saved once at the end,
                        and the import that keeps the script from running;
    - the incremental variant of [pdf.js], saved after every page.

    JavaScript strings are modelled as [string]; a character stands for a
    code unit below 256.  JavaScript numbers that arise here are results of
    [parseInt] and their differences: integer-valued doubles, the two
    infinities and NaN.  The file system, the inference service, the PNG
    decoder and the text encoder of the PDF library are external; their
    answers are fields of a [World]. *)

From Stdlib Require Import ZArith List String Ascii Bool Lia.
From Stdlib Require Import Sorting.Sorted Sorting.Permutation.
Import ListNotations.

Local Open Scope string_scope.
Local Open Scope Z_scope.

(* ================================================================== *)
(** ** JavaScript strings *)
(* ================================================================== *)

Module JsString.

(** The line feed, written [\n] in the source. *)
Definition LF : string := String (ascii_of_nat 10) EmptyString.

(** WhiteSpace and LineTerminator code units below 256: TAB, LF, VT, FF,
    CR, SP and NBSP.  [String.prototype.trim] and the regular expression
    class [\s] use the same set. *)
Definition isWhiteSpace (c : ascii) : bool :=
  match nat_of_ascii c with
  | 9%nat | 10%nat | 11%nat | 12%nat | 13%nat | 32%nat | 160%nat => true
  | _ => false
  end.

(** The regular expression class [\d]: the ten ASCII digits. *)
Definition isDigit (c : ascii) : bool :=
  let n := nat_of_ascii c in (48 <=? n)%nat && (n <=? 57)%nat.

Definition digitValue (c : ascii) : Z := Z.of_nat (nat_of_ascii c) - 48.

(** [toLowerCase] on one code unit below 256: the letters A-Z and the
    accented capitals 192-222, the multiplication sign 215 apart. *)
Definition lowerChar (c : ascii) : ascii :=
  let n := nat_of_ascii c in
  if ((65 <=? n)%nat && (n <=? 90)%nat)
     || ((192 <=? n)%nat && (n <=? 222)%nat && negb (n =? 215)%nat)
  then ascii_of_nat (n + 32)
  else c.

Fixpoint toLowerCase (s : string) : string :=
  match s with
  | EmptyString => EmptyString
  | String c r => String (lowerChar c) (toLowerCase r)
  end.

(** [s.startsWith(p)] *)
Fixpoint startsWith (p s : string) : bool :=
  match p, s with
  | EmptyString, _ => true
  | String a p', String b s' => Ascii.eqb a b && startsWith p' s'
  | String _ _, EmptyString => false
  end.

(** [s.endsWith(p)]: some suffix of [s] is [p]. *)
Fixpoint endsWith (s p : string) : bool :=
  String.eqb s p ||
  match s with
  | EmptyString => false
  | String _ r => endsWith r p
  end.

(** Drop the first [n] code units. *)
Fixpoint skip (n : nat) (s : string) : string :=
  match n, s with
  | O, _ => s
  | S n', String _ r => skip n' r
  | S _, EmptyString => EmptyString
  end.

Fixpoint all (f : ascii -> bool) (s : string) : bool :=
  match s with
  | EmptyString => true
  | String c r => f c && all f r
  end.

(** The longest prefix whose code units satisfy [f]. *)
Fixpoint takeWhile (f : ascii -> bool) (s : string) : string :=
  match s with
  | String c r => if f c then String c (takeWhile f r) else EmptyString
  | EmptyString => EmptyString
  end.

Fixpoint dropWhile (f : ascii -> bool) (s : string) : string :=
  match s with
  | String c r => if f c then dropWhile f r else s
  | EmptyString => EmptyString
  end.

(** [trimStart], [trimEnd] and [trim]. *)
Definition trimStart (s : string) : string := dropWhile isWhiteSpace s.

Fixpoint trimEnd (s : string) : string :=
  match s with
  | EmptyString => EmptyString
  | String c r => if all isWhiteSpace s then EmptyString else String c (trimEnd r)
  end.

Definition trim (s : string) : string := trimEnd (trimStart s).

(** A string is truthy when it is not empty. *)
Definition truthy (s : string) : bool :=
  match s with EmptyString => false | String _ _ => true end.

Definition beginsWithSpace (s : string) : bool :=
  match s with EmptyString => false | String c _ => isWhiteSpace c end.

Fixpoint endsWithSpace (s : string) : bool :=
  match s with
  | EmptyString => false
  | String c EmptyString => isWhiteSpace c
  | String _ r => endsWithSpace r
  end.

End JsString.

(* ================================================================== *)
(** ** JavaScript numbers *)
(* ================================================================== *)

Module JsNumber.

(** The numbers the scripts compute with: NaN, the infinities and
    integer-valued doubles.  The two zeros are one value here: both are
    falsy, neither is below zero, and they compare equal. *)
Inductive number : Type :=
| NaN
| Num (z : Z)
| PosInf
| NegInf.

(** Round a non-negative integer to the nearest double, ties to even;
    [None] is an overflow.  Below [2^53] every integer is a double. *)
Definition roundNat (n : Z) : option Z :=
  if n <=? 2 ^ 53 then Some n
  else
    let e := Z.log2 n - 52 in
    let q := Z.shiftr n e in
    let r := n - Z.shiftl q e in
    let half := 2 ^ (e - 1) in
    let q' := if (half <? r) || ((r =? half) && Z.odd q) then q + 1 else q in
    let v := Z.shiftl q' e in
    if v <? 2 ^ 1024 then Some v else None.

(** The Number value of a mathematical integer. *)
Definition ofInteger (z : Z) : number :=
  if 0 <=? z
  then match roundNat z with Some v => Num v | None => PosInf end
  else match roundNat (- z) with Some v => Num (- v) | None => NegInf end.

(** [a - b] *)
Definition sub (a b : number) : number :=
  match a, b with
  | NaN, _ | _, NaN => NaN
  | Num x, Num y => ofInteger (x - y)
  | PosInf, PosInf | NegInf, NegInf => NaN
  | PosInf, _ | _, NegInf => PosInf
  | NegInf, _ | _, PosInf => NegInf
  end.

(** [a < 0] and [a > 0]; both are false on NaN. *)
Definition ltZero (a : number) : bool :=
  match a with Num z => z <? 0 | NegInf => true | _ => false end.

Definition gtZero (a : number) : bool :=
  match a with Num z => 0 <? z | PosInf => true | _ => false end.

Definition isNaN (a : number) : bool :=
  match a with NaN => true | _ => false end.

(** ToBoolean: NaN and zero are falsy. *)
Definition truthy (a : number) : bool :=
  match a with NaN => false | Num z => negb (z =? 0) | _ => true end.

(** [a || d] on numbers. *)
Definition or (a d : number) : number := if truthy a then a else d.

(** The order of the extended number line, on non-NaN values. *)
Definition le (a b : number) : Prop :=
  match a, b with
  | NaN, _ | _, NaN => False
  | NegInf, _ | _, PosInf => True
  | Num x, Num y => x <= y
  | _, _ => False
  end.

Fixpoint digitsValue (acc : Z) (s : string) : Z :=
  match s with
  | EmptyString => acc
  | String c r => digitsValue (10 * acc + JsString.digitValue c) r
  end.

(** [parseInt(s, 10)]: skip leading white space, read an optional sign,
    then the longest run of decimal digits; NaN when there is none.
    (An engine may replace digits after the twentieth by zeros before
    rounding; this model rounds the exact integer.) *)
Definition parseInt (s : string) : number :=
  let t := JsString.trimStart s in
  let '(negative, body) :=
    match t with
    | String "-"%char r => (true, r)
    | String "+"%char r => (false, r)
    | _ => (false, t)
    end in
  let digits := JsString.takeWhile JsString.isDigit body in
  match digits with
  | EmptyString => NaN
  | _ =>
      let mathInt := digitsValue 0 digits in
      ofInteger (if negative then - mathInt else mathInt)
  end.

End JsNumber.

(* ================================================================== *)
(** ** Arrays *)
(* ================================================================== *)

Module JsArray.
Import JsNumber.

Section Sort.
Context {A : Type} (comparefn : A -> A -> number).

(** [x] is put in front of the elements that followed it in the
    array, after those that compare strictly below it: a comparator
    result that is not positive (negative, zero or NaN) leaves [x]
    first. *)
Fixpoint insert (x : A) (l : list A) : list A :=
  match l with
  | [] => [x]
  | y :: l' => if gtZero (comparefn x y) then y :: insert x l' else x :: l
  end.

(** [Array.prototype.sort(comparefn)]: a stable sort.  The engine is
    free in its algorithm; for a consistent comparator the result is the
    one permutation that is sorted and keeps equal elements in order. *)
Definition sort (l : list A) : list A := fold_right insert [] l.
End Sort.

End JsArray.

(* ================================================================== *)
(** ** Exceptions *)
(* ================================================================== *)

(** Everything raised is an Error object, so that the handlers can read
    [error.message] and [error.code].  What [fs] raises is a system error
    with a [code]; what the scripts raise themselves is
    [new Error(message)], which has no [code]. *)
Inductive js_error : Type :=
| SystemError (code : string)
| Error (message : string).

Definition error_code (e : js_error) : option string :=
  match e with SystemError c => Some c | Error _ => None end.

(** [error.code === c] *)
Definition codeIs (e : js_error) (c : string) : bool :=
  match error_code e with
  | Some c' => String.eqb c' c
  | None => false
  end.

Inductive completion (A : Type) : Type :=
| Normal (a : A)
| Throw (e : js_error).
Arguments Normal {A} a.
Arguments Throw {A} e.

(** Values computed against the world only. *)
Definition retC {A} (a : A) : completion A := Normal a.

Definition bindC {A B} (c : completion A) (k : A -> completion B) : completion B :=
  match c with
  | Normal a => k a
  | Throw e => Throw e
  end.

(** [try { c } catch (error) { handler }] *)
Definition try_catchC {A} (c : completion A) (handler : js_error -> completion A) : completion A :=
  match c with
  | Normal a => Normal a
  | Throw e => handler e
  end.

Declare Scope completion_scope.
Delimit Scope completion_scope with C.
Notation "x <- c ;; k" := (bindC c (fun x => k))
  (at level 61, c at next level, right associativity) : completion_scope.

(** Statements that also change a state [S].  A raised exception keeps
    the changes made before it, as in JavaScript. *)
Definition M (S A : Type) : Type := S -> completion A * S.

Definition ret {S A} (a : A) : M S A := fun s => (Normal a, s).

Definition bind {S A B} (c : M S A) (k : A -> M S B) : M S B :=
  fun s =>
    match c s with
    | (Normal a, s') => k a s'
    | (Throw e, s') => (Throw e, s')
    end.

Definition try_catch {S A} (c : M S A) (handler : js_error -> M S A) : M S A :=
  fun s =>
    match c s with
    | (Normal a, s') => (Normal a, s')
    | (Throw e, s') => handler e s'
    end.

(** [await] a computation that only consults the world. *)
Definition lift {S A} (c : completion A) : M S A := fun s => (c, s).

Definition get {S} : M S S := fun s => (Normal s, s).
Definition modify {S} (f : S -> S) : M S unit := fun s => (Normal tt, f s).

Declare Scope io_scope.
Delimit Scope io_scope with io.
Notation "x <- c ;; k" := (bind c (fun x => k))
  (at level 61, c at next level, right associativity) : io_scope.
Notation "c ;; k" := (bind c (fun _ => k))
  (at level 61, right associativity) : io_scope.

(** [for (const x of l) { body }] *)
Fixpoint for_of {S A} (l : list A) (body : A -> M S unit) : M S unit :=
  match l with
  | [] => ret tt
  | x :: r => (body x ;; for_of r body)%io
  end.

(* ================================================================== *)
(** ** The outside world *)
(* ================================================================== *)

Inductive fs_result (A : Type) : Type :=
| FsOk (a : A)
| FsError (code : string).
Arguments FsOk {A} a.
Arguments FsError {A} code.

Definition of_fs {A} (r : fs_result A) : completion A :=
  match r with
  | FsOk a => Normal a
  | FsError code => Throw (SystemError code)
  end.

(** The answer of [ollama.chat]; the script reads
    [response?.message?.content]. *)
Record ChatMessage : Type := { content : option string }.
Record ChatResponse : Type := { message : option ChatMessage }.

Record Dims : Type := { width : Z; height : Z }.

(** The screenshot directory is only read; what it holds, what the
    inference service answers, what the PNG decoder accepts and what the
    standard fonts of the PDF library can encode are answers of the world.
    The request to the service carries the fixed [transcriptionPrompt],
    the image (base64 encoded) and the timeout option; [ollama_chat] is
    given the model and the image.  [font_encodeText] raises when the text
    has a character for which the font has no code.  These answers do not
    change while a script runs.

    The [n]-th write to the file system fails when [fs_write_fails n].
    A write that fails may have changed the file all the same:
    [fs_write_reached n] is [None] when the file could not be opened, and
    [Some k] when it was opened and the first [k] units of the data
    reached it before the error: code units of a text, bytes of a
    document.  (A text is written in UTF-8; a write that breaks off
    inside the bytes of one character is counted as breaking off in front
    of it.) *)
Record World : Type := {
  dirname : string;
  env_OLLAMA_MODEL : option string;
  env_OLLAMA_VISION_MODEL : option string;
  fs_readdir : string -> fs_result (list string);
  fs_readFile : string -> fs_result string;
  ollama_chat : string -> string -> completion (option ChatResponse);
  png_decode : string -> completion Dims;
  font_encodeText : string -> completion unit;
  fs_write_fails : nat -> bool;
  fs_write_reached : nat -> option nat
}.

(** The files a script writes. *)
Record Disk (D : Type) : Type := {
  files : string -> option D;
  clock : nat
}.
Arguments files {D} d _.
Arguments clock {D} d.
Arguments Build_Disk {D} files clock.

Definition store {D} (path : string) (data : D) (f : string -> option D) : string -> option D :=
  fun p => if String.eqb p path then Some data else f p.

(** The first [n] code units of a string. *)
Fixpoint take (n : nat) (s : string) : string :=
  match n, s with
  | S n', String c r => String c (take n' r)
  | _, _ => EmptyString
  end.

(** Data of which a part can reach a file: [cut n data] is what the file
    received when the write broke off after [n] units. *)
Class Cut (D : Type) : Type := cut : nat -> D -> D.

#[global] Instance cut_string : Cut string := take.

(** One write attempt.  When it does not fail it replaces the file by
    [update] of what was there.  When it fails it raises, and the file is
    as it was if it could not be opened, and [broken k] of what was
    there if the write broke off after [k] units. *)
Definition fs_write {D} (w : World) (path : string) (update : option D -> D)
           (broken : nat -> option D -> D) : M (Disk D) unit :=
  fun d =>
    if fs_write_fails w (clock d) then
      (Throw (SystemError "EIO"),
       {| files := match fs_write_reached w (clock d) with
                   | Some k => store path (broken k (files d path)) (files d)
                   | None => files d
                   end;
          clock := S (clock d) |})
    else (Normal tt, {| files := store path (update (files d path)) (files d);
                        clock := S (clock d) |}).

(** [fs.writeFile(path, data)] creates or truncates the file when it
    opens it, and then writes. *)
Definition writeFile {D} {C : Cut D} (w : World) (path : string) (data : D)
  : M (Disk D) unit :=
  fs_write w path (fun _ => data) (fun k _ => cut k data).

(** [fs.appendFile(path, data)] creates or extends. *)
Definition appendFile (w : World) (path data : string) : M (Disk string) unit :=
  fs_write w path
    (fun old => match old with Some s => s ++ data | None => data end)
    (fun k old => match old with Some s => s ++ take k data | None => take k data end).

(** [path.join(a, b)] for a directory [a] and a plain name [b]. *)
Definition path_join (a b : string) : string := a ++ "/" ++ b.

(** [v || d] for a string [v] that may be undefined. *)
Definition orDefault (v : option string) (d : string) : string :=
  match v with
  | Some s => if JsString.truthy s then s else d
  | None => d
  end.

(* ================================================================== *)
(** ** ocr.js *)
(* ================================================================== *)

Module Ocr.
Import JsString JsNumber.

Definition screenshotsDir (w : World) : string := path_join (dirname w) "screenshots".
Definition markdownOutputFile (w : World) : string := path_join (dirname w) "ocr.md".
Definition defaultOllamaModel (w : World) : string :=
  orDefault (env_OLLAMA_MODEL w) "gemma3:12b-it-qat".

(** [a.match(/^(\d+)/)?.[1]]: the leading run of digits, [None] for
    [undefined] when there is no leading digit. *)
Definition leadingDigits (a : string) : option string :=
  match takeWhile isDigit a with
  | EmptyString => None
  | d => Some d
  end.

(** [parseInt(a.match(/^(\d+)/)?.[1] || '0', 10)] *)
Definition sortKey (a : string) : number :=
  parseInt (orDefault (leadingDigits a) "0").

Definition numericalSort (a b : string) : number :=
  let numA := sortKey a in
  let numB := sortKey b in
  sub numA numB.

Definition isPng (file : string) : bool := endsWith (toLowerCase file) ".png".

Definition EmptyError : js_error :=
  Error "No .png files found in the screenshots directory.".
Definition NotFoundError (w : World) : js_error :=
  Error ("Screenshots directory not found at " ++ screenshotsDir w).

Definition getScreenshotFiles (w : World) : completion (list string) :=
  try_catchC
    (allFiles <- of_fs (fs_readdir w (screenshotsDir w)) ;;
     let screenshotFiles := JsArray.sort numericalSort (filter isPng allFiles) in
     if (List.length screenshotFiles =? 0)%nat
     then Throw EmptyError
     else retC screenshotFiles)%C
    (fun error =>
       if codeIs error "ENOENT"
       then Throw (NotFoundError w)
       else Throw error).

Definition fence : string := "```".

(** [s.replace(/^```(markdown)?\s*/, '')]: every part of the pattern
    after the fence is optional and greedy. *)
Definition stripOpeningFence (s : string) : string :=
  if startsWith fence s then
    let r := skip 3 s in
    let r := if startsWith "markdown" r then skip 8 r else r in
    dropWhile isWhiteSpace r
  else s.

(** Whether [/```\s*$/] matches at the very start of [s]. *)
Definition closesHere (s : string) : bool :=
  startsWith fence s && all isWhiteSpace (skip 3 s).

(** [s.replace(/```\s*$/, '')]: the leftmost position where a fence is
    followed by white space only up to the end; what stands from there
    on is removed. *)
Fixpoint stripClosingFence (s : string) : string :=
  if closesHere s then EmptyString
  else match s with
       | EmptyString => EmptyString
       | String c r => String c (stripClosingFence r)
       end.

(** The "basic cleanup" of the model's answer. *)
Definition cleanup (content : string) : string :=
  let transcribedText := trim content in
  stripClosingFence (stripOpeningFence transcribedText).

(** [response?.message?.content] *)
Definition responseContent (response : option ChatResponse) : option string :=
  match response with
  | Some r => match message r with
              | Some m => content m
              | None => None
              end
  | None => None
  end.

Definition performOcrOnImage (w : World) (imageFilename model : string)
  : completion (option string) :=
  let fullImagePath := path_join (screenshotsDir w) imageFilename in
  try_catchC
    (imageBuffer <- of_fs (fs_readFile w fullImagePath) ;;
     response <- ollama_chat w model imageBuffer ;;
     match responseContent response with
     | Some c => if JsString.truthy c then retC (Some (cleanup c)) else retC None
     | None => retC None
     end)%C
    (fun imageError => retC None).

Definition ocrWarning (filename : string) : string :=
  LF ++ LF ++ "[OCR Warning/Error for " ++ filename ++ "]" ++ LF ++ LF.

Definition header : string := "# Transcription Results" ++ LF ++ LF.

(** The body of the loop of [generateMarkdownFile]. *)
Definition appendPage (w : World) (filename : string) : M (Disk string) unit :=
  (transcribedText <- lift (performOcrOnImage w filename (defaultOllamaModel w)) ;;
   let outputChunk :=
     match transcribedText with
     | Some t => t ++ LF ++ LF
     | None => ocrWarning filename
     end in
   appendFile w (markdownOutputFile w) outputChunk)%io.

(** The preview printed at the end reads the file back inside its own
    [try]; it changes nothing and is left out, with the console. *)
Definition generateMarkdownFile (w : World) : M (Disk string) unit :=
  match getScreenshotFiles w with
  | Throw error => ret tt
  | Normal screenshotFiles =>
      try_catch
        (writeFile w (markdownOutputFile w) header ;;
         for_of screenshotFiles (appendPage w))%io
        (fun error => ret tt)
  end.

End Ocr.

(* ================================================================== *)
(** ** The document library, as far as the scripts use it *)
(* ================================================================== *)

(** A document is the list of its pages, a page its size and the
    drawing operations on it.  [addPage], [drawImage] and [save] work on
    the document in memory and return normally; [drawText] encodes the
    text first and raises when the font cannot encode it; reading,
    decoding and writing go through the world and may raise. *)

Module PdfLib.
Local Open Scope list_scope.

(** Of the names the scripts import from [pdf-lib], the library exports
    these three.  It has no [PDFRenderingMode]. *)
Definition exports : list string := ["PDFDocument"; "StandardFonts"; "rgb"].

(** [import { names } from 'pdf-lib']: the module is linked before its
    first statement runs, and linking fails when a name is not exported. *)
Definition link (names : list string) : completion unit :=
  if forallb (fun name => existsb (String.eqb name) exports) names
  then Normal tt
  else Throw (Error "The requested module 'pdf-lib' does not provide the export").

Inductive StandardFonts : Type := Helvetica | TimesRoman.

(** The text rendering modes of PDF that matter here: in mode 0 the
    glyphs are filled, which is the mode in force when none is set; in
    mode 3 nothing is painted. *)
Definition Fill : Z := 0.
Definition Invisible : Z := 3.

Record PDFImage : Type := { imageBytes : string; imageDims : Dims }.

(** A drawing operation as it stands in the page; for text, with the
    rendering mode in which it is shown. *)
Inductive DrawOp : Type :=
| DrawImage (image : PDFImage) (x y w h : Z)
| DrawText (text : string) (x y : Z) (font : StandardFonts) (size : Z)
           (renderingMode : Z).

Record PDFPage : Type := { pageSize : Dims; contents : list DrawOp }.

Definition PDFDocument : Type := list PDFPage.

(** What a file of the document scripts holds: the bytes [save]
    returned for a document, all of them or only the first [n], which are
    no document. *)
Inductive PdfBytes : Type :=
| Whole (doc : PDFDocument)
| FirstBytes (n : nat) (doc : PDFDocument).

#[global] Instance cut_pdf : Cut PdfBytes :=
  fun n bytes =>
    match bytes with
    | Whole doc => FirstBytes n doc
    | FirstBytes m doc => FirstBytes (Nat.min n m) doc
    end.

(** [pdfImage.scale(factor)] *)
Definition scale (image : PDFImage) (factor : Z) : Dims :=
  {| width := width (imageDims image) * factor;
     height := height (imageDims image) * factor |}.

Definition isDrawText (op : DrawOp) : bool :=
  match op with DrawText _ _ _ _ _ _ => true | DrawImage _ _ _ _ _ => false end.

Definition isDrawImage (op : DrawOp) : bool := negb (isDrawText op).

(** The texts and the images drawn on a page. *)
Definition textLayer (p : PDFPage) : list DrawOp := filter isDrawText (contents p).
Definition images (p : PDFPage) : list DrawOp := filter isDrawImage (contents p).

Fixpoint modifyAt {A} (n : nat) (f : A -> A) (l : list A) : list A :=
  match l, n with
  | [], _ => []
  | x :: r, O => f x :: r
  | x :: r, S n' => x :: modifyAt n' f r
  end.

(** What a run of a document script holds: the document under
    construction, the counter [pagesAdded] and the disk. *)
Record PdfState : Type := {
  pdfDoc : PDFDocument;
  pagesAdded : Z;
  disk : Disk PdfBytes
}.

(** [PDFDocument.create()] and [let pagesAdded = 0]. *)
Definition create (d : Disk PdfBytes) : PdfState :=
  {| pdfDoc := []; pagesAdded := 0; disk := d |}.

(** [pdfDoc.embedPng(bytes)]; it raises when the bytes are no PNG. *)
Definition embedPng (w : World) (bytes : string) : M PdfState PDFImage :=
  lift (dims <- png_decode w bytes ;;
        retC {| imageBytes := bytes; imageDims := dims |})%C.

(** [pdfDoc.addPage([width, height])]: the new page is the last one; a
    page is handled through its index in the document. *)
Definition addPage (size : Dims) : M PdfState nat :=
  fun s =>
    (Normal (List.length (pdfDoc s)),
     {| pdfDoc := pdfDoc s ++ [{| pageSize := size; contents := [] |}];
        pagesAdded := pagesAdded s;
        disk := disk s |}).

Definition draw (page : nat) (op : DrawOp) : M PdfState unit :=
  modify (fun s =>
    {| pdfDoc := modifyAt page
                   (fun p => {| pageSize := pageSize p; contents := contents p ++ [op] |})
                   (pdfDoc s);
       pagesAdded := pagesAdded s;
       disk := disk s |}).

(** [page.drawImage(image, {x, y, width, height})] *)
Definition drawImage (page : nat) (image : PDFImage) (x y w h : Z) : M PdfState unit :=
  draw page (DrawImage image x y w h).

(** [page.drawText(text, {x, y, font, size, renderingMode})].  The
    library encodes the text for the font, which raises when the font
    lacks a character, and then shows it.  It reads [x], [y], [font] and
    [size] from the options; it has no option for the rendering mode, so
    that the property [renderingMode] of the scripts is never read and the
    text is shown in the mode in force, [Fill]. *)
Definition drawText (w : World) (page : nat) (text : string) (x y : Z)
           (font : StandardFonts) (size renderingMode : Z) : M PdfState unit :=
  (lift (font_encodeText w text) ;;
   draw page (DrawText text x y font size Fill))%io.

(** [pagesAdded++] *)
Definition incrPagesAdded : M PdfState unit :=
  modify (fun s => {| pdfDoc := pdfDoc s; pagesAdded := pagesAdded s + 1; disk := disk s |}).

(** [pdfDoc.save()]: the bytes of the document as it is now. *)
Definition save : M PdfState PdfBytes := fun s => (Normal (Whole (pdfDoc s)), s).

(** A file-system statement inside a document script. *)
Definition onDisk {A} (c : M (Disk PdfBytes) A) : M PdfState A :=
  fun s =>
    let '(r, d) := c (disk s) in
    (r, {| pdfDoc := pdfDoc s; pagesAdded := pagesAdded s; disk := d |}).

(** [ocrText && ocrText.trim().length > 0] *)
Definition hasText (ocrText : option string) : bool :=
  match ocrText with
  | Some t => JsString.truthy t && (0 <? String.length (JsString.trim t))%nat
  | None => false
  end.

End PdfLib.

(* ================================================================== *)
(** ** pdf.js: the document is saved once, after the loop *)
(* ================================================================== *)

Module Pdf.
Import PdfLib.

(** Line 1: the names the module asks [pdf-lib] for. *)
Definition imports : list string :=
  ["PDFDocument"; "StandardFonts"; "rgb"; "PDFRenderingMode"].

Definition screenshotsDir (w : World) : string := path_join (dirname w) "screenshots".
Definition pdfOutputFile (w : World) : string := path_join (dirname w) "out.pdf".
Definition ollamaModelForPdf (w : World) : string :=
  orDefault (env_OLLAMA_VISION_MODEL w) "llama3.2-vision".

(** The body of the loop, with its [try]/[catch]. *)
Definition processFile (w : World) (embeddedFont : StandardFonts) (filename : string)
  : M PdfState unit :=
  let fullImagePath := path_join (screenshotsDir w) filename in
  try_catch
    (ocrText <- lift (Ocr.performOcrOnImage w filename (ollamaModelForPdf w)) ;;
     imageBytes <- lift (of_fs (fs_readFile w fullImagePath)) ;;
     pdfImage <- embedPng w imageBytes ;;
     let imgDims := scale pdfImage 1 in
     page <- addPage imgDims ;;
     incrPagesAdded ;;
     drawImage page pdfImage 0 0 (width imgDims) (height imgDims) ;;
     match ocrText with
     | Some t =>
         if hasText ocrText
         then drawText w page t 5 5 embeddedFont 6 Invisible
         else ret tt
     | None => ret tt
     end)%io
    (fun error => ret tt).

(** The function [generateSearchablePdf] of the module, as it would run
    were the module linked.  [PDFRenderingMode.Invisible] is written as
    mode 3; [drawText] does not read the option, so that the value plays
    no part in what the function does. *)
Definition generateSearchablePdf (w : World) (d : Disk PdfBytes)
  : completion unit * PdfState :=
  match Ocr.getScreenshotFiles w with
  | Throw error => (Normal tt, create d)
  | Normal screenshotFiles =>
      (let embeddedFont := Helvetica in
       for_of screenshotFiles (processFile w embeddedFont) ;;
       s <- get ;;
       if pagesAdded s =? 0 then ret tt
       else
         try_catch
           (pdfBytes <- save ;;
            onDisk (writeFile w (pdfOutputFile w) pdfBytes))
           (fun saveError => ret tt))%io (create d)
  end.

(** Running the script: the module is linked, then its last line calls
    the function.  An import that does not link is raised before any
    statement of the module, and of the modules it imports, has run. *)
Definition script (w : World) (d : Disk PdfBytes) : completion unit * PdfState :=
  match link imports with
  | Normal _ => generateSearchablePdf w d
  | Throw e => (Throw e, create d)
  end.

End Pdf.

(* ================================================================== *)
(** ** The incremental variant: the document is saved after every page *)
(* ================================================================== *)

Module PdfIncremental.
Import PdfLib.

Definition screenshotsDir (w : World) : string := path_join (dirname w) "screenshots".
Definition pdfOutputFile (w : World) : string := path_join (dirname w) "out.pdf".
Definition ollamaModelForPdf (w : World) : string :=
  orDefault (env_OLLAMA_VISION_MODEL w) "llama3.2-vision".

Definition processFile (w : World) (embeddedFont : StandardFonts) (filename : string)
  : M PdfState unit :=
  let fullImagePath := path_join (screenshotsDir w) filename in
  try_catch
    (ocrText <- lift (Ocr.performOcrOnImage w filename (ollamaModelForPdf w)) ;;
     imageBytes <- lift (of_fs (fs_readFile w fullImagePath)) ;;
     pdfImage <- embedPng w imageBytes ;;
     let imgDims := scale pdfImage 1 in
     page <- addPage imgDims ;;
     incrPagesAdded ;;
     drawImage page pdfImage 0 0 (width imgDims) (height imgDims) ;;
     match ocrText with
     | Some t =>
         if hasText ocrText
         then drawText w page t 10 10 embeddedFont 8 3
         else ret tt
     | None => ret tt
     end ;;
     pdfBytes <- save ;;
     onDisk (writeFile w (pdfOutputFile w) pdfBytes))%io
    (fun error => ret tt).

(** The module takes the default export of [pdf-lib] and reads
    [PDFDocument], [StandardFonts] and [rgb] from it, which always links. *)
Definition generateSearchablePdf (w : World) (d : Disk PdfBytes)
  : completion unit * PdfState :=
  match Ocr.getScreenshotFiles w with
  | Throw error => (Normal tt, create d)
  | Normal screenshotFiles =>
      (let embeddedFont := TimesRoman in
       for_of screenshotFiles (processFile w embeddedFont))%io (create d)
  end.

End PdfIncremental.

(* ================================================================== *)
(** ** move-shot.js: configuration and input validation *)
(* ================================================================== *)

Module MoveShot.
Import JsNumber.

(** [process.env] *)
Record Env : Type := {
  TARGET_URL : option string;
  DELAY_MS : option string;
  OUTPUT_DIR : option string
}.

(** ToString of an environment variable: [undefined] reads "undefined". *)
Definition ToString (v : option string) : string :=
  match v with Some s => s | None => "undefined" end.

Definition targetUrl (env : Env) : option string := TARGET_URL env.

(** [parseInt(process.env.DELAY_MS, 10) || 1000] *)
Definition delayMs (env : Env) : number :=
  JsNumber.or (parseInt (ToString (DELAY_MS env))) (Num 1000).

Definition outputDir (env : Env) : string := orDefault (OUTPUT_DIR env) "./screenshots".

(** How the top of the script ends: [process.exit(code)], or the main
    function is reached, which creates the session directory and
    launches the browser. *)
Inductive startup : Type :=
| Exit (code : Z)
| Launch (url : string) (delay : number).

Definition inputValidation (env : Env) : startup :=
  match targetUrl env with
  | None => Exit 1
  | Some url =>
      if negb (JsString.truthy url) then Exit 1
      else if isNaN (delayMs env) || ltZero (delayMs env) then Exit 1
      else Launch url (delayMs env)
  end.

End MoveShot.

(* ================================================================== *)
(** ** Vocabulary of the statements *)
(* ================================================================== *)

Module Spec.
Import JsString JsNumber PdfLib.

(** The integer a file name starts with, 0 when it starts with none. *)
Definition leadingInteger (file : string) : Z :=
  digitsValue 0 (orDefault (Ocr.leadingDigits file) "0").

(** The keys of file names: a non-negative double or +Infinity. *)
Definition isKey (k : number) : Prop :=
  match k with Num z => 0 <= z | PosInf => True | _ => False end.

(** Ascending sort keys, as numbers. *)
Definition keyLe (a b : string) : Prop := le (Ocr.sortKey a) (Ocr.sortKey b).

(** Two file names have the same sort key. *)
Definition sameKey (a b : string) : bool :=
  match Ocr.sortKey a, Ocr.sortKey b with
  | Num x, Num y => x =? y
  | PosInf, PosInf => true
  | _, _ => false
  end.

(** Ascending leading integers. *)
Definition integerLe (a b : string) : Prop := leadingInteger a <= leadingInteger b.

(** No write to the file system fails. *)
Definition noWriteFails (w : World) : Prop := forall n, fs_write_fails w n = false.

(** What a page contributes to the text artifact. *)
Definition pageChunk (filename : string) (transcribedText : option string) : string :=
  match transcribedText with
  | Some t => t ++ LF ++ LF
  | None => Ocr.ocrWarning filename
  end.

Fixpoint concatAll (l : list string) : string :=
  match l with
  | [] => EmptyString
  | x :: r => x ++ concatAll r
  end.

(** The result of the Transcriber on a page, [None] also standing for
    an exception (which it never raises). *)
Definition transcription (w : World) (model filename : string) : option string :=
  match Ocr.performOcrOnImage w filename model with
  | Normal r => r
  | Throw _ => None
  end.

(** The chunk of a page in a run of the text assembler. *)
Definition chunkOf (w : World) (filename : string) : string :=
  pageChunk filename (transcription w (Ocr.defaultOllamaModel w) filename).

(** The image of a page as the document scripts obtain it: the file is
    read and the bytes are embedded; [None] when either step raises. *)
Definition sourceImage (w : World) (filename : string) : option PDFImage :=
  match fs_readFile w (path_join (Pdf.screenshotsDir w) filename) with
  | FsOk bytes =>
      match png_decode w bytes with
      | Normal dims => Some {| imageBytes := bytes; imageDims := dims |}
      | Throw _ => None
      end
  | FsError _ => None
  end.

Definition embeddable (w : World) (filename : string) : bool :=
  match sourceImage w filename with Some _ => true | None => false end.

(** Reading the image of a page, or embedding it, raises. *)
Definition imageFails (w : World) (filename : string) : Prop :=
  (exists code,
      fs_readFile w (path_join (Pdf.screenshotsDir w) filename) = FsError code) \/
  (exists bytes e,
      fs_readFile w (path_join (Pdf.screenshotsDir w) filename) = FsOk bytes /\
      png_decode w bytes = Throw e).

(** The page has the raster size of the image of [filename], and that
    image, drawn once over the whole page, is the only image on it. *)
Definition pageShows (w : World) (filename : string) (p : PDFPage) : Prop :=
  exists image,
    sourceImage w filename = Some image /\
    pageSize p = imageDims image /\
    images p =
      [DrawImage image 0 0 (width (imageDims image)) (height (imageDims image))].

(** The rendering mode in which an operation shows text. *)
Definition textMode (op : DrawOp) : option Z :=
  match op with
  | DrawText _ _ _ _ _ renderingMode => Some renderingMode
  | DrawImage _ _ _ _ _ => None
  end.

(** The font can encode a text: [drawText] does not raise for it. *)
Definition encodes (w : World) (text : string) : bool :=
  match font_encodeText w text with Normal _ => true | Throw _ => false end.

(** For a transcription [ocrText], [drawText] is not called or returns. *)
Definition drawable (w : World) (ocrText : option string) : bool :=
  match ocrText with
  | Some t => if hasText ocrText then encodes w t else true
  | None => true
  end.

(** The text layer a script draws for a transcription [ocrText]: the
    whole text, once, shown in the mode [Fill], when the text is not blank
    and the font can encode it; nothing otherwise. *)
Definition layerFor (w : World) (x y : Z) (font : StandardFonts) (size : Z)
           (ocrText : option string) : list DrawOp :=
  match ocrText with
  | Some t =>
      if hasText ocrText && encodes w t then [DrawText t x y font size Fill] else []
  | None => []
  end.

(** What the specification asks of the text layer of the page of
    [filename]: the whole text, invisible, at the fixed place and size,
    when the transcription is not blank; nothing when it is [null] or
    blank. *)
Definition layerOk (x y : Z) (font : StandardFonts) (size : Z)
           (w : World) (model filename : string) (p : PDFPage) : Prop :=
  match transcription w model filename with
  | Some t =>
      match trim t with
      | EmptyString => textLayer p = []
      | String _ _ => textLayer p = [DrawText t x y font size Invisible]
      end
  | None => textLayer p = []
  end.

(** The text layers of the two scripts. *)
Definition layerPdf (w : World) (f : string) : list DrawOp :=
  layerFor w 5 5 Helvetica 6 (transcription w (Pdf.ollamaModelForPdf w) f).

Definition layerIncremental (w : World) (f : string) : list DrawOp :=
  layerFor w 10 10 TimesRoman 8 (transcription w (PdfIncremental.ollamaModelForPdf w) f).

(** The page a script builds from an image and a text layer. *)
Definition pageOf (layer : list DrawOp) (image : PDFImage) : PDFPage :=
  {| pageSize := imageDims image;
     contents :=
       DrawImage image 0 0 (width (imageDims image)) (height (imageDims image))
       :: layer |}.

(** The pages of a listing: one for every image that can be embedded. *)
Definition pagesFor (layer : string -> list DrawOp) (w : World) (listing : list string)
  : list PDFPage :=
  flat_map (fun f => match sourceImage w f with
                     | Some image => [pageOf (layer f) image]
                     | None => []
                     end) listing.

(** A page of the incremental script that gets as far as its save:
    the image can be embedded and the text can be drawn. *)
Definition savable (w : World) (f : string) : bool :=
  embeddable w f
  && drawable w (transcription w (PdfIncremental.ollamaModelForPdf w) f).

(** The part of a list up to the last element that satisfies [p]. *)
Fixpoint uptoLast {A} (p : A -> bool) (l : list A) : list A :=
  match l with
  | [] => []
  | x :: r =>
      if p x then x :: uptoLast p r
      else match uptoLast p r with
           | [] => []
           | y :: r' => x :: y :: r'
           end
  end.

(** One turn of the loop of [pdf.js], as a function on the state. *)
Definition stepPdf (w : World) (font : StandardFonts) (f : string) (s : PdfState)
  : PdfState :=
  match sourceImage w f with
  | None => s
  | Some image =>
      {| pdfDoc := (pdfDoc s ++
                    [pageOf (layerFor w 5 5 font 6
                               (transcription w (Pdf.ollamaModelForPdf w) f))
                            image])%list;
         pagesAdded := pagesAdded s + 1;
         disk := disk s |}
  end.

(** One turn of the loop of the incremental script. *)
Definition stepIncremental (w : World) (font : StandardFonts) (f : string) (s : PdfState)
  : PdfState :=
  match sourceImage w f with
  | None => s
  | Some image =>
      let ocrText := transcription w (PdfIncremental.ollamaModelForPdf w) f in
      let doc := (pdfDoc s ++ [pageOf (layerFor w 10 10 font 8 ocrText) image])%list in
      {| pdfDoc := doc;
         pagesAdded := pagesAdded s + 1;
         disk := if drawable w ocrText
                 then snd (writeFile w (PdfIncremental.pdfOutputFile w) (Whole doc) (disk s))
                 else disk s |}
  end.

(** What a failed write left of the chunk of the page at place [j] of
    the listing, the write being the one at time [n]. *)
Definition residue (w : World) (chunk : string -> string) (listing : list string)
           (j n : nat) : string :=
  match nth_error listing j, fs_write_reached w n with
  | Some f, Some k => take k (chunk f)
  | _, _ => EmptyString
  end.

End Spec.

(* ================================================================== *)
(** ** Example worlds *)
(* ================================================================== *)

Module Examples.

(** A world around one directory listing: every file reads as its own
    name, every image decodes to 800 x 600, the service answers [chat]
    and no write fails. *)
Definition worldOf (listing : fs_result (list string))
           (chat : string -> completion (option ChatResponse)) : World :=
  {| dirname := "/app";
     env_OLLAMA_MODEL := None;
     env_OLLAMA_VISION_MODEL := None;
     fs_readdir := fun _ => listing;
     fs_readFile := fun path => FsOk path;
     ollama_chat := fun _ image => chat image;
     png_decode := fun _ => Normal {| width := 800; height := 600 |};
     font_encodeText := fun _ => Normal tt;
     fs_write_fails := fun _ => false;
     fs_write_reached := fun _ => None |}.

Definition answer (text : string) : completion (option ChatResponse) :=
  Normal (Some {| message := Some {| content := Some text |} |}).

Definition silent : string -> completion (option ChatResponse) :=
  fun _ => Normal None.

(** Two screenshots whose numbers differ only beyond 53 bits. *)
Definition bigListing : list string :=
  ["9007199254740993.png"; "9007199254740992.png"].

Definition bigWorld : World := worldOf (FsOk bigListing) silent.

(** The listing of the spec's ordering example. *)
Definition smallWorld : World := worldOf (FsOk ["2.png"; "10.png"; "1.png"]) silent.

Definition emptyDisk {D} : Disk D := {| files := fun _ => None; clock := 0 |}.

(** An empty directory, and none at all. *)
Definition emptyWorld : World := worldOf (FsOk ["notes.txt"]) silent.
Definition absentWorld : World := worldOf (FsError "ENOENT") silent.

(** The scenario of the specification: three pages, the service
    answers Hello for the first, fails on the second and answers World
    for the third. *)
Definition scenarioChat (image : string) : completion (option ChatResponse) :=
  if String.eqb image "/app/screenshots/1.png" then answer "Hello"
  else if String.eqb image "/app/screenshots/3.png" then answer "World"
  else Throw (Error "timeout").

Definition scenarioWorld : World :=
  worldOf (FsOk ["1.png"; "2.png"; "3.png"]) scenarioChat.

(** An answer wrapped in a markdown fence, and one with two fences. *)
Definition fencedAnswer : string :=
  "```markdown" ++ JsString.LF ++ "foo" ++ JsString.LF ++ "```".
Definition twoFences : string := "``````abc".

Definition fencedWorld : World :=
  worldOf (FsOk ["1.png"]) (fun _ => answer fencedAnswer).

(** The scenario again, with a second screenshot that is no PNG. *)
Definition corruptWorld : World :=
  {| dirname := "/app";
     env_OLLAMA_MODEL := None;
     env_OLLAMA_VISION_MODEL := None;
     fs_readdir := fun _ => FsOk ["1.png"; "2.png"; "3.png"];
     fs_readFile := fun path => FsOk path;
     ollama_chat := fun _ image => scenarioChat image;
     png_decode := fun bytes =>
       if String.eqb bytes "/app/screenshots/2.png"
       then Throw (Error "not a PNG")
       else Normal {| width := 800; height := 600 |};
     font_encodeText := fun _ => Normal tt;
     fs_write_fails := fun _ => false;
     fs_write_reached := fun _ => None |}.

(** Two pages; the text of the second has a character, the control
    character 7, for which the font has no code. *)
Definition belText : string := "Wor" ++ String (ascii_of_nat 7) "ld".

Definition belChat (image : string) : completion (option ChatResponse) :=
  if String.eqb image "/app/screenshots/1.png" then answer "Hello" else answer belText.

Definition belWorld : World :=
  {| dirname := "/app";
     env_OLLAMA_MODEL := None;
     env_OLLAMA_VISION_MODEL := None;
     fs_readdir := fun _ => FsOk ["1.png"; "2.png"];
     fs_readFile := fun path => FsOk path;
     ollama_chat := fun _ image => belChat image;
     png_decode := fun _ => Normal {| width := 800; height := 600 |};
     font_encodeText := fun text =>
       if JsString.all (fun c => negb (Ascii.eqb c (ascii_of_nat 7))) text
       then Normal tt
       else Throw (Error "WinAnsi cannot encode the character 0x0007");
     fs_write_fails := fun _ => false;
     fs_write_reached := fun _ => None |}.

(** A start-up configuration with a delay that is no number. *)
Definition badDelayEnv : MoveShot.Env :=
  {| MoveShot.TARGET_URL := Some "https://example.com/book";
     MoveShot.DELAY_MS := Some "abc";
     MoveShot.OUTPUT_DIR := None |}.

(** A disk on which the text artifact of an earlier run is left. *)
Definition usedDisk : Disk string :=
  {| files := fun _ => Some "old"; clock := 7 |}.

End Examples.

(* ================================================================== *)
(** ** More of the language: [includes], [+], numbers in templates *)
(* ================================================================== *)

Module JsMore.
Import JsString JsNumber.

(** [s.includes(p)]: [p] stands at some position of [s]. *)
Fixpoint includes (s p : string) : bool :=
  startsWith p s ||
  match s with
  | EmptyString => false
  | String _ r => includes r p
  end.

(** [a + b] on numbers. *)
Definition add (a b : number) : number :=
  match a, b with
  | NaN, _ | _, NaN => NaN
  | Num x, Num y => ofInteger (x + y)
  | PosInf, NegInf | NegInf, PosInf => NaN
  | PosInf, _ | _, PosInf => PosInf
  | NegInf, _ | _, NegInf => NegInf
  end.

Definition digitChar (d : Z) : ascii := ascii_of_nat (48 + Z.to_nat d).

(** The decimal digits of [n], the last one first, put in front of
    [acc]; [fuel] bounds the number of digits. *)
Fixpoint decimal (fuel : nat) (n : Z) (acc : string) : string :=
  match fuel with
  | O => acc
  | S f =>
      let acc' := String (digitChar (n mod 10)) acc in
      if n <? 10 then acc' else decimal f (n / 10) acc'
  end.

(** A number inside a template literal.  An integer below 10^21 in
    absolute value prints its decimal digits (from 10^21 on the language
    switches to the exponent form, which is not modelled). *)
Definition toString (a : number) : string :=
  match a with
  | NaN => "NaN"
  | PosInf => "Infinity"
  | NegInf => "-Infinity"
  | Num z => if z <? 0 then "-" ++ decimal 21 (- z) "" else decimal 21 z ""
  end.

End JsMore.

(* ================================================================== *)
(** ** ocr.js: the time-out of the HTTP parser *)
(* ================================================================== *)

Module OcrTimeout.
Import JsString JsNumber JsMore.

Definition TIMEOUT_MINUTES : Z := 30.
Definition TIMEOUT_MS : Z := TIMEOUT_MINUTES * 60 * 1000.

Definition flag : string := "--http-parser-timeout".

(** The first statement of [ocr.js], as a function from the old value
    of [process.env.NODE_OPTIONS] to the new one. *)
Definition setNodeOptions (NODE_OPTIONS : option string) : option string :=
  let unset :=
    match NODE_OPTIONS with
    | Some s => negb (JsString.truthy s)
    | None => true
    end in
  let lacksFlag :=
    match NODE_OPTIONS with
    | Some s => negb (includes s flag)
    | None => true
    end in
  if unset || lacksFlag
  then Some (orDefault NODE_OPTIONS "" ++ " --http-parser-timeout="
             ++ toString (Num TIMEOUT_MS))
  else NODE_OPTIONS.

End OcrTimeout.

(* ================================================================== *)
(** ** move-shot.js: the capture session *)
(* ================================================================== *)

Module Capture.
Import JsString JsNumber JsMore.

(** What can happen while the script waits: the interrupt signal, the
    browser's [disconnected] event, and the page being closed.  [SIGINT]
    is the delivery of the signal to the listener of line 35, the one the
    script registers for it; a listener that a library registers for the
    same signal on its own is outside this model. *)
Inductive signal : Type := SIGINT | Disconnected | PageClosed.

(** One awaited call of the browser: the signals that arrive while it is
    pending, and the exception it ends with, if any. *)
Record Await : Type := { arrivals : list signal; raised : option js_error }.

(** The flags of the script, the browser as the script sees it, and what
    the session has done: the clicks, the names of the screenshots written
    to the output directory, in order, and whether the browser was closed
    by the script. *)
Record Session : Type := {
  keepRunning : bool;
  shuttingDown : bool;
  launched : bool;
  connected : bool;
  pageClosed : bool;
  clicks : list (Z * Z);
  shots : list string;
  exitCode : option Z;
  closed : bool
}.

Definition start : Session :=
  {| keepRunning := true; shuttingDown := false; launched := false;
     connected := false; pageClosed := false; clicks := []; shots := [];
     exitCode := None; closed := false |}.

(** The handler of SIGINT. *)
Definition onSigint (s : Session) : Session :=
  if shuttingDown s then s
  else {| keepRunning := false; shuttingDown := true; launched := launched s;
          connected := connected s; pageClosed := pageClosed s;
          clicks := clicks s; shots := shots s; exitCode := exitCode s;
          closed := closed s |}.

(** The browser is gone; the handler of [disconnected] is registered
    once the browser is launched. *)
Definition onDisconnected (s : Session) : Session :=
  {| keepRunning := if launched s then false else keepRunning s;
     shuttingDown := if launched s then true else shuttingDown s;
     launched := launched s;
     connected := false; pageClosed := pageClosed s;
     clicks := clicks s; shots := shots s; exitCode := exitCode s;
     closed := closed s |}.

Definition onPageClosed (s : Session) : Session :=
  {| keepRunning := keepRunning s; shuttingDown := shuttingDown s;
     launched := launched s; connected := connected s; pageClosed := true;
     clicks := clicks s; shots := shots s; exitCode := exitCode s;
     closed := closed s |}.

Definition deliver (s : Session) (sig : signal) : Session :=
  match sig with
  | SIGINT => onSigint s
  | Disconnected => onDisconnected s
  | PageClosed => onPageClosed s
  end.

(** [await new Promise(resolve => setTimeout(resolve, ms))] *)
Definition sleep (arr : list signal) : M Session unit :=
  fun s => (Normal tt, fold_left deliver arr s).

(** [await call]: the handlers run, then the call returns or raises. *)
Definition await (a : Await) : M Session unit :=
  fun s =>
    let s' := fold_left deliver (arrivals a) s in
    match raised a with
    | Some e => (Throw e, s')
    | None => (Normal tt, s')
    end.

Definition setLaunched : M Session unit :=
  modify (fun s =>
    {| keepRunning := keepRunning s; shuttingDown := shuttingDown s;
       launched := true; connected := true; pageClosed := pageClosed s;
       clicks := clicks s; shots := shots s; exitCode := exitCode s;
       closed := closed s |}).

Definition addClick (xy : Z * Z) : M Session unit :=
  modify (fun s =>
    {| keepRunning := keepRunning s; shuttingDown := shuttingDown s;
       launched := launched s; connected := connected s; pageClosed := pageClosed s;
       clicks := (clicks s ++ [xy])%list; shots := shots s; exitCode := exitCode s;
       closed := closed s |}).

Definition addShot (name : string) : M Session unit :=
  modify (fun s =>
    {| keepRunning := keepRunning s; shuttingDown := shuttingDown s;
       launched := launched s; connected := connected s; pageClosed := pageClosed s;
       clicks := clicks s; shots := (shots s ++ [name])%list; exitCode := exitCode s;
       closed := closed s |}).

(** [process.exitCode = 1] *)
Definition setExitCode (c : Z) (s : Session) : Session :=
  {| keepRunning := keepRunning s; shuttingDown := shuttingDown s;
     launched := launched s; connected := connected s; pageClosed := pageClosed s;
     clicks := clicks s; shots := shots s; exitCode := Some c;
     closed := closed s |}.

(** [await browser.close()]: the browser goes, which the handler of
    [disconnected] sees. *)
Definition closeBrowser (s : Session) : Session :=
  let s' := onDisconnected s in
  {| keepRunning := keepRunning s'; shuttingDown := shuttingDown s';
     launched := launched s'; connected := false; pageClosed := true;
     clicks := clicks s'; shots := shots s'; exitCode := exitCode s';
     closed := true |}.

(** One turn of the loop, as the world schedules it. *)
Record Turn : Type := {
  move : Await;
  preClick : list signal;
  click : Await;
  delay : list signal;
  shot : Await
}.

(** What happens before the loop. *)
Record Setup : Type := {
  sessionDir : option js_error;
  launch : Await;
  newPage : Await;
  evaluateOnNewDocument : Await;
  goto : Await;
  mouseMoves : list (Z * Z);
  question : Await;
  outputDirCheck : option js_error
}.

(** [fs.existsSync] and [fs.mkdirSync]: they return or raise at once. *)
Definition sync (failure : option js_error) : M Session unit :=
  fun s =>
    match failure with
    | Some e => (Throw e, s)
    | None => (Normal tt, s)
    end.

(** What the page evaluates for the position: [window.currentMouseX]
    and [window.currentMouseY], set to 0 when the document is created and
    to the place of every [mousemove] after that. *)
Definition mousePosition (moves : list (Z * Z)) : Z * Z := last moves (0, 0).

(** [askQuestion]: after ENTER the position is read from the page,
    unless the page is closed by then. *)
Definition askQuestion (st : Setup) : M Session (Z * Z) :=
  fun s =>
    let s' := fold_left deliver (arrivals (question st)) s in
    if negb (pageClosed s') then
      match raised (question st) with
      | Some evalError => (Throw evalError, s')
      | None => (Normal (mousePosition (mouseMoves st)), s')
      end
    else
      (Throw (Error "Browser page closed or context lost before final confirmation."),
       s').

(** The name of the [i]-th screenshot in the output directory. *)
Definition screenshotName (i : number) : string := toString i ++ ".png".

(** The loop [for (let i = 1; keepRunning; i++)] along a schedule of
    turns.  It answers [true] when the loop has ended and [false] when the
    schedule is used up with the loop still running. *)
Fixpoint captureLoop (capturedXY : Z * Z) (i : number) (turns : list Turn)
  : M Session bool :=
  (s <- get ;;
   if negb (keepRunning s) then ret true
   else if negb (keepRunning s) || pageClosed s then ret true
   else
     match turns with
     | [] => ret false
     | t :: rest =>
         await (move t) ;;
         sleep (preClick t) ;;
         await (click t) ;;
         addClick capturedXY ;;
         sleep (delay t) ;;
         let screenshotName := screenshotName i in
         s <- get ;;
         if negb (keepRunning s) || pageClosed s then ret true
         else
           await (shot t) ;;
           addShot screenshotName ;;
           captureLoop capturedXY (add i (Num 1)) rest
     end)%io.

(** [error.message] *)
Definition messageOf (e : js_error) : string :=
  match e with
  | Error m => m
  | SystemError c => c
  end.

(** The [catch] block of the main function. *)
Definition onError (error : js_error) : M Session unit :=
  fun s =>
    let m := messageOf error in
    if negb (shuttingDown s)
       && negb (includes m "Target closed"
                || (includes m "Protocol error" && includes m "disconnected"))
    then (Normal tt, setExitCode 1 s)
    else if negb (shuttingDown s) then (Normal tt, setExitCode 1 s)
    else (Normal tt, s).

(** The [try] block of the main function. *)
Definition body (st : Setup) (turns : list Turn) : M Session bool :=
  (sync (sessionDir st) ;;
   await (launch st) ;;
   setLaunched ;;
   await (newPage st) ;;
   await (evaluateOnNewDocument st) ;;
   await (goto st) ;;
   confirmedCoords <- askQuestion st ;;
   sync (outputDirCheck st) ;;
   captureLoop confirmedCoords (Num 1) turns)%io.

(** How a run is left: the process has exited with a status, or the
    schedule is used up and the loop goes on. *)
Inductive ending : Type :=
| Exited (status : Z)
| Running.

(** [process.exit(process.exitCode || 0)] *)
Definition exitStatus (s : Session) : Z :=
  match exitCode s with
  | Some c => c
  | None => 0
  end.

(** The main function: [try], [catch] and [finally]. *)
Definition main (st : Setup) (turns : list Turn) : ending * Session :=
  match try_catch (body st turns) (fun error => (onError error ;; ret true)%io) start with
  | (Normal false, s) => (Running, s)
  | (_, s) =>
      let s' := if launched s && connected s then closeBrowser s else s in
      (Exited (exitStatus s'), s')
  end.

End Capture.

(* ================================================================== *)
(** ** Vocabulary of the statements on the capture session *)
(* ================================================================== *)

Module CaptureSpec.
Import JsString JsNumber JsMore Capture.
Local Open Scope list_scope.

(** The names of the first [n] screenshots: 1.png, 2.png, ... *)
Definition shotNames (n : nat) : list string :=
  map (fun k => screenshotName (Num (Z.of_nat k))) (seq 1 n).

Definition isSigint (sig : signal) : bool :=
  match sig with SIGINT => true | _ => false end.

Definition isDisconnected (sig : signal) : bool :=
  match sig with Disconnected => true | _ => false end.

(** A call during which nothing arrives and which returns. *)
Definition calm (a : Await) : bool :=
  match arrivals a, raised a with
  | [], None => true
  | _, _ => false
  end.

Definition noSignal (arr : list signal) : bool :=
  match arr with [] => true | _ => false end.

Definition calmTurn (t : Turn) : bool :=
  calm (move t) && noSignal (preClick t) && calm (click t)
  && noSignal (delay t) && calm (shot t).

Definition noFailure (f : option js_error) : bool :=
  match f with None => true | Some _ => false end.

Definition calmSetup (st : Setup) : bool :=
  noFailure (sessionDir st) && calm (launch st) && calm (newPage st)
  && calm (evaluateOnNewDocument st) && calm (goto st) && calm (question st)
  && noFailure (outputDirCheck st).

(** The signals of a turn that arrive before its screenshot is taken,
    and all of them. *)
Definition beforeShot (t : Turn) : list signal :=
  arrivals (move t) ++ preClick t ++ arrivals (click t) ++ delay t.

Definition signalsOf (t : Turn) : list signal :=
  beforeShot t ++ arrivals (shot t).

(** Once the shutdown has begun the loop flag is down. *)
Definition flagsOk (s : Session) : Prop :=
  shuttingDown s = true -> keepRunning s = false.

End CaptureSpec.

Module MoreExamples.
Import Capture.

Definition calmAwait : Await := {| arrivals := []; raised := None |}.

Definition calmTurn : Turn :=
  {| move := calmAwait; preClick := []; click := calmAwait; delay := [];
     shot := calmAwait |}.

(** The interrupt arrives while the script waits after the click. *)
Definition interruptedTurn : Turn :=
  {| move := calmAwait; preClick := []; click := calmAwait; delay := [SIGINT];
     shot := calmAwait |}.

(** The browser goes away while the mouse is moved, and the call fails. *)
Definition goneTurn : Turn :=
  {| move := {| arrivals := [Disconnected];
                raised := Some (Error "Protocol error: Connection closed.") |};
     preClick := []; click := calmAwait; delay := []; shot := calmAwait |}.

(** The user moves the mouse twice and confirms. *)
Definition calmSetup : Setup :=
  {| sessionDir := None; launch := calmAwait; newPage := calmAwait;
     evaluateOnNewDocument := calmAwait; goto := calmAwait;
     mouseMoves := [(10, 20); (640, 360)];
     question := calmAwait; outputDirCheck := None |}.

(** Five turns, then the interrupt in the sixth, then turns that are
    never reached. *)
Definition fiveThenInterrupt : list Turn :=
  [calmTurn; calmTurn; calmTurn; calmTurn; calmTurn; interruptedTurn; calmTurn].

(** The navigation fails with a message of the kind the [catch] block
    looks for. *)
Definition failedSetup : Setup :=
  {| sessionDir := None; launch := calmAwait; newPage := calmAwait;
     evaluateOnNewDocument := calmAwait;
     goto := {| arrivals := []; raised := Some (Error "Target closed") |};
     mouseMoves := [];
     question := calmAwait; outputDirCheck := None |}.

(** A world in which the second and every later write fails, each
    after three units of its data have reached the file. *)
Definition fullDiskWorld : World :=
  {| dirname := "/app";
     env_OLLAMA_MODEL := None;
     env_OLLAMA_VISION_MODEL := None;
     fs_readdir := fun _ => FsOk ["1.png"; "2.png"; "3.png"];
     fs_readFile := fun path => FsOk path;
     ollama_chat := fun _ image => Examples.scenarioChat image;
     png_decode := fun _ => Normal {| width := 800; height := 600 |};
     font_encodeText := fun _ => Normal tt;
     fs_write_fails := fun n => Nat.leb 2 n;
     fs_write_reached := fun _ => Some 3%nat |}.

(** A directory that lists three screenshots of a capture session, not
    in order, among other files. *)
Definition captureWorld : World :=
  Examples.worldOf (FsOk ["3.png"; "notes.txt"; "1.png"; "2.png"]) Examples.silent.

(** A directory that cannot be read. *)
Definition lockedWorld : World := Examples.worldOf (FsError "EACCES") Examples.silent.

(** The service answers every page with blanks and a line feed. *)
Definition blankWorld : World :=
  Examples.worldOf (FsOk ["1.png"])
    (fun _ => Examples.answer ("  " ++ JsString.LF)%string).

End MoreExamples.

(* ================================================================== *)
(** ** Further vocabulary *)
(* ================================================================== *)

Module MoreSpec.
Import JsString PdfLib.

(** No backtick occurs in a text. *)
Definition noBacktick (s : string) : bool :=
  all (fun c => negb (Ascii.eqb c "`"%char)) s.

(** The service answers the page [f] with white space only, and not
    with nothing, whatever the model. *)
Definition answersBlank (w : World) (f : string) : Prop :=
  exists image,
    fs_readFile w (path_join (Ocr.screenshotsDir w) f) = FsOk image /\
    forall model, exists response c,
      ollama_chat w model image = Normal response /\
      Ocr.responseContent response = Some c /\
      c <> EmptyString /\
      all isWhiteSpace c = true.

End MoreSpec.

(* ================================================================== *)
(** ** Strings and numbers: basic facts *)
(* ================================================================== *)

Section NumberFacts.
Import JsString JsNumber Spec.

Lemma roundNat_small n : n <= 2 ^ 53 -> roundNat n = Some n.
Proof.
  intros H. unfold roundNat.
  destruct (Z.leb_spec n (2 ^ 53)); [reflexivity | lia].
Qed.

(** Rounding never turns a positive integer into zero or below. *)
Lemma roundNat_pos n v : 0 < n -> roundNat n = Some v -> 0 < v.
Proof.
  intros Hn. unfold roundNat.
  destruct (Z.leb_spec n (2 ^ 53)) as [Hle | Hgt].
  - intros [= <-]. exact Hn.
  - cbv zeta.
    set (e := Z.log2 n - 52).
    set (q := Z.shiftr n e).
    match goal with |- context [Z.shiftl ?x e <? _] => set (q' := x) end.
    destruct (Z.ltb_spec (Z.shiftl q' e) (2 ^ 1024)); [ | discriminate].
    intros [= <-].
    assert (He : 0 <= e).
    { subst e. assert (53 <= Z.log2 n); [ | lia].
      apply Z.log2_le_pow2; lia. }
    assert (Hq : 0 < q).
    { subst q. rewrite Z.shiftr_div_pow2 by exact He.
      apply Z.div_str_pos. split; [apply Z.pow_pos_nonneg; lia | ].
      apply Z.le_trans with (2 ^ Z.log2 n).
      - apply Z.pow_le_mono_r; subst e; lia.
      - apply Z.log2_spec. lia. }
    assert (Hq' : 0 < q') by (subst q'; destruct (_ || _); lia).
    rewrite Z.shiftl_mul_pow2 by exact He.
    apply Z.mul_pos_pos; [exact Hq' | apply Z.pow_pos_nonneg; lia].
Qed.

Lemma roundNat_zero : roundNat 0 = Some 0.
Proof. reflexivity. Qed.

(** The sign of a difference survives rounding. *)
Lemma gtZero_ofInteger d : gtZero (ofInteger d) = (0 <? d).
Proof.
  unfold ofInteger.
  destruct (Z.leb_spec 0 d) as [Hd | Hd].
  - destruct (Z.eq_dec d 0) as [-> | Hnz]; [reflexivity | ].
    destruct (roundNat d) as [v | ] eqn:Hr; simpl.
    + apply roundNat_pos in Hr; [ | lia].
      destruct (Z.ltb_spec 0 v), (Z.ltb_spec 0 d); try reflexivity; lia.
    + destruct (Z.ltb_spec 0 d); [reflexivity | lia].
  - destruct (roundNat (- d)) as [v | ] eqn:Hr; simpl.
    + apply roundNat_pos in Hr; [ | lia].
      destruct (Z.ltb_spec 0 (- v)), (Z.ltb_spec 0 d); try reflexivity; lia.
    + destruct (Z.ltb_spec 0 d); [lia | reflexivity].
Qed.

Lemma ofInteger_small z : 0 <= z <= 2 ^ 53 -> ofInteger z = Num z.
Proof.
  intros [H0 H1]. unfold ofInteger.
  destruct (Z.leb_spec 0 z); [ | lia].
  now rewrite roundNat_small.
Qed.

Lemma ofInteger_isKey z : 0 <= z -> isKey (ofInteger z).
Proof.
  intros Hz. unfold ofInteger.
  destruct (Z.leb_spec 0 z); [ | lia].
  destruct (roundNat z) as [v | ] eqn:Hr; simpl; [ | exact I].
  destruct (Z.eq_dec z 0) as [-> | Hnz].
  - rewrite roundNat_zero in Hr. injection Hr as <-. lia.
  - apply roundNat_pos in Hr; lia.
Qed.

Lemma le_trans a b c : le a b -> le b c -> le a c.
Proof. destruct a, b, c; simpl; try tauto; lia. Qed.

Lemma le_total_keys a b : isKey a -> isKey b -> le a b \/ le b a.
Proof. destruct a, b; simpl; try tauto; lia. Qed.

Lemma sub_gtZero_keys a b :
  isKey a -> isKey b ->
  if gtZero (sub a b) then le b a /\ ~ le a b else le a b.
Proof.
  destruct a as [ | x | | ], b as [ | y | | ]; simpl; try tauto.
  intros Hx Hy. rewrite gtZero_ofInteger.
  destruct (Z.ltb_spec 0 (x - y)); lia.
Qed.

End NumberFacts.

Section StringFacts.
Import JsString JsNumber Spec.

Lemma takeWhile_all f s : all f (takeWhile f s) = true.
Proof.
  induction s as [ | c r IH]; simpl; [reflexivity | ].
  destruct (f c) eqn:Hc; simpl; [ | reflexivity].
  now rewrite Hc.
Qed.

Lemma takeWhile_of_all f s : all f s = true -> takeWhile f s = s.
Proof.
  induction s as [ | c r IH]; simpl; [reflexivity | ].
  destruct (f c); simpl; [ | discriminate].
  intros H. now rewrite IH.
Qed.

Lemma digit_not_space c : isDigit c = true -> isWhiteSpace c = false.
Proof.
  destruct c as [[] [] [] [] [] [] [] []]; vm_compute; congruence.
Qed.

Lemma digit_not_sign c :
  isDigit c = true -> c <> "-"%char /\ c <> "+"%char.
Proof.
  destruct c as [[] [] [] [] [] [] [] []]; vm_compute; intros H;
    (discriminate H || (split; discriminate)).
Qed.

Lemma digitValue_nonneg c : isDigit c = true -> 0 <= digitValue c.
Proof.
  unfold isDigit, digitValue. intros H.
  apply andb_prop in H as [H _]. apply Nat.leb_le in H. lia.
Qed.

Lemma digitsValue_nonneg s acc :
  all isDigit s = true -> 0 <= acc -> 0 <= digitsValue acc s.
Proof.
  revert acc. induction s as [ | c r IH]; cbn [digitsValue all];
    intros acc H Hacc; [exact Hacc | ].
  apply andb_prop in H as [Hc Hr].
  apply IH; [exact Hr | ].
  pose proof (digitValue_nonneg c Hc). lia.
Qed.

(** [parseInt] on a run of digits reads all of it. *)
Lemma parseInt_digits d :
  d <> EmptyString -> all isDigit d = true ->
  parseInt d = ofInteger (digitsValue 0 d).
Proof.
  intros Hne Hall. destruct d as [ | c r]; [congruence | ].
  simpl in Hall. apply andb_prop in Hall as [Hc Hr].
  pose proof (digit_not_space c Hc) as Hsp.
  destruct (digit_not_sign c Hc) as [Hm Hp].
  unfold parseInt, trimStart. simpl dropWhile. rewrite Hsp.
  assert (Hbody : (match String c r with
                   | String "-"%char r0 => (true, r0)
                   | String "+"%char r0 => (false, r0)
                   | _ => (false, String c r)
                   end) = (false, String c r)).
  { destruct c as [[] [] [] [] [] [] [] []]; try reflexivity; congruence. }
  rewrite Hbody.
  rewrite takeWhile_of_all by (simpl; now rewrite Hc, Hr).
  reflexivity.
Qed.

Lemma orDefault_leadingDigits file :
  let d := orDefault (Ocr.leadingDigits file) "0" in
  d <> EmptyString /\ all isDigit d = true.
Proof.
  unfold Ocr.leadingDigits.
  pose proof (takeWhile_all isDigit file) as Hall.
  destruct (takeWhile isDigit file) as [ | c r]; simpl.
  - split; [discriminate | reflexivity].
  - split; [discriminate | exact Hall].
Qed.

(** The sort key is the leading integer, as a number. *)
Lemma sortKey_ofInteger file : Ocr.sortKey file = ofInteger (leadingInteger file).
Proof.
  destruct (orDefault_leadingDigits file) as [Hne Hall].
  unfold Ocr.sortKey, leadingInteger. now apply parseInt_digits.
Qed.

Lemma leadingInteger_nonneg file : 0 <= leadingInteger file.
Proof.
  destruct (orDefault_leadingDigits file) as [_ Hall].
  unfold leadingInteger. apply digitsValue_nonneg; [exact Hall | lia].
Qed.

Lemma sortKey_isKey file : isKey (Ocr.sortKey file).
Proof.
  rewrite sortKey_ofInteger. apply ofInteger_isKey, leadingInteger_nonneg.
Qed.

Lemma sortKey_small file :
  leadingInteger file <= 2 ^ 53 -> Ocr.sortKey file = Num (leadingInteger file).
Proof.
  intros H. rewrite sortKey_ofInteger. apply ofInteger_small.
  split; [apply leadingInteger_nonneg | exact H].
Qed.

Lemma sortKey_no_digits file :
  Ocr.leadingDigits file = None -> Ocr.sortKey file = Num 0.
Proof. intros H. unfold Ocr.sortKey. rewrite H. reflexivity. Qed.

Lemma string_app_assoc (a b c : string) : (a ++ b) ++ c = a ++ (b ++ c).
Proof. induction a as [ | x a IH]; simpl; [reflexivity | now rewrite IH]. Qed.

Lemma string_app_empty (a : string) : a ++ EmptyString = a.
Proof. induction a as [ | x a IH]; simpl; [reflexivity | now rewrite IH]. Qed.

End StringFacts.

(* ================================================================== *)
(** ** Sorting *)
(* ================================================================== *)

Section SortFacts.
Import JsNumber.
Context {A : Type} (comparefn : A -> A -> number) (R : A -> A -> Prop).

(** The comparator agrees with a total preorder [R]. *)
Hypothesis R_trans : forall a b c, R a b -> R b c -> R a c.
Hypothesis comparefn_R :
  forall a b, if gtZero (comparefn a b) then R b a else R a b.

Lemma insert_perm x l : Permutation (JsArray.insert comparefn x l) (x :: l).
Proof.
  induction l as [ | y l IH]; simpl; [reflexivity | ].
  destruct (gtZero (comparefn x y)); [ | reflexivity].
  rewrite IH. apply perm_swap.
Qed.

Lemma sort_perm l : Permutation (JsArray.sort comparefn l) l.
Proof.
  induction l as [ | x l IH]; simpl; [reflexivity | ].
  rewrite insert_perm. now constructor.
Qed.

Lemma insert_sorted x l :
  StronglySorted R l -> StronglySorted R (JsArray.insert comparefn x l).
Proof.
  induction 1 as [ | y l Hl IH Hy]; simpl.
  - repeat constructor.
  - pose proof (comparefn_R x y) as Hxy.
    destruct (gtZero (comparefn x y)).
    + constructor; [exact IH | ].
      eapply Permutation_Forall; [symmetry; apply insert_perm | ].
      constructor; assumption.
    + constructor; [constructor; assumption | ].
      constructor; [exact Hxy | ].
      eapply Forall_impl; [ | exact Hy].
      intros z Hz. eapply R_trans; eassumption.
Qed.

Lemma sort_sorted l : StronglySorted R (JsArray.sort comparefn l).
Proof.
  induction l as [ | x l IH]; simpl; [constructor | ].
  now apply insert_sorted.
Qed.

(** Stability: elements that the comparator never orders strictly keep
    their relative order. *)
Lemma insert_stable (p : A -> bool) x l :
  (forall y, gtZero (comparefn x y) = true -> p x = true -> p y = true -> False) ->
  filter p (JsArray.insert comparefn x l) = filter p (x :: l).
Proof.
  intros Hp. induction l as [ | y l IH]; [reflexivity | ].
  cbn [JsArray.insert].
  destruct (gtZero (comparefn x y)) eqn:Hxy; [ | reflexivity].
  specialize (Hp y Hxy).
  cbn [filter] in *. rewrite IH.
  destruct (p x), (p y); try reflexivity.
  exfalso. apply Hp; reflexivity.
Qed.

Lemma sort_stable (p : A -> bool) l :
  (forall x y, gtZero (comparefn x y) = true -> p x = true -> p y = true -> False) ->
  filter p (JsArray.sort comparefn l) = filter p l.
Proof.
  intros Hp. induction l as [ | x l IH]; [reflexivity | ].
  cbn [JsArray.sort fold_right]. fold (JsArray.sort comparefn l).
  rewrite insert_stable by (intros y; apply Hp).
  cbn [filter]. now rewrite IH.
Qed.

End SortFacts.

Lemma StronglySorted_weaken {A} (R R' : A -> A -> Prop) (l : list A) :
  (forall a b, In a l -> In b l -> R a b -> R' a b) ->
  StronglySorted R l -> StronglySorted R' l.
Proof.
  intros H Hs. induction Hs as [ | x l Hl IH Hx]; constructor.
  - apply IH. intros a b Ha Hb. apply H; now right.
  - rewrite Forall_forall in *. intros y Hy.
    apply H; [now left | now right | now apply Hx].
Qed.

(* ================================================================== *)
(** ** Listing the screenshots *)
(* ================================================================== *)

Section Listing.
Import JsString JsNumber Spec.

Lemma numericalSort_keyLe a b :
  if gtZero (Ocr.numericalSort a b) then keyLe b a else keyLe a b.
Proof.
  unfold Ocr.numericalSort, keyLe.
  pose proof (sub_gtZero_keys _ _ (sortKey_isKey a) (sortKey_isKey b)) as H.
  destruct (gtZero _); tauto.
Qed.

Lemma keyLe_trans a b c : keyLe a b -> keyLe b c -> keyLe a c.
Proof. unfold keyLe. apply le_trans. Qed.

Lemma sort_length l :
  List.length (JsArray.sort Ocr.numericalSort l) = List.length l.
Proof. apply Permutation_length, sort_perm. Qed.

(** [getScreenshotFiles] by cases on what [readdir] answers. *)
Lemma getScreenshotFiles_cases w :
  Ocr.getScreenshotFiles w =
  match fs_readdir w (Ocr.screenshotsDir w) with
  | FsOk allFiles =>
      match filter Ocr.isPng allFiles with
      | [] => Throw Ocr.EmptyError
      | _ :: _ => Normal (JsArray.sort Ocr.numericalSort (filter Ocr.isPng allFiles))
      end
  | FsError code =>
      if String.eqb code "ENOENT" then Throw (Ocr.NotFoundError w)
      else Throw (SystemError code)
  end.
Proof.
  unfold Ocr.getScreenshotFiles.
  destruct (fs_readdir w (Ocr.screenshotsDir w)) as [allFiles | code]; cbn [of_fs bindC].
  - rewrite sort_length.
    destruct (filter Ocr.isPng allFiles); reflexivity.
  - unfold try_catchC, codeIs. cbn [error_code].
    destruct (String.eqb code "ENOENT"); reflexivity.
Qed.

Lemma sorted_listing l :
  StronglySorted keyLe (JsArray.sort Ocr.numericalSort l).
Proof.
  apply sort_sorted; [exact keyLe_trans | exact numericalSort_keyLe].
Qed.

Lemma keyLe_integerLe a b :
  leadingInteger a <= 2 ^ 53 -> leadingInteger b <= 2 ^ 53 ->
  keyLe a b -> integerLe a b.
Proof.
  intros Ha Hb. unfold keyLe, integerLe.
  rewrite (sortKey_small a Ha), (sortKey_small b Hb). simpl. tauto.
Qed.

Lemma numericalSort_sameKey f x y :
  gtZero (Ocr.numericalSort x y) = true ->
  sameKey f x = true -> sameKey f y = true -> False.
Proof.
  unfold Ocr.numericalSort, sameKey.
  destruct (Ocr.sortKey f) as [ | k | | ], (Ocr.sortKey x) as [ | a | | ],
    (Ocr.sortKey y) as [ | b | | ]; cbn; try discriminate.
  intros H Ha Hb. apply Z.eqb_eq in Ha, Hb. subst a b.
  rewrite gtZero_ofInteger in H. apply Z.ltb_lt in H. lia.
Qed.

Lemma stable_listing f l :
  filter (sameKey f) (JsArray.sort Ocr.numericalSort l) = filter (sameKey f) l.
Proof. apply sort_stable. intros x y. apply numericalSort_sameKey. Qed.

Lemma sameKey_refl f : sameKey f f = true.
Proof.
  unfold sameKey. pose proof (sortKey_isKey f) as H.
  destruct (Ocr.sortKey f); cbn in *; try contradiction; [apply Z.eqb_refl | reflexivity].
Qed.

Lemma keyLe_antisym a b : keyLe a b -> keyLe b a -> sameKey a b = true.
Proof.
  unfold keyLe, sameKey.
  pose proof (sortKey_isKey a) as Ha. pose proof (sortKey_isKey b) as Hb.
  destruct (Ocr.sortKey a), (Ocr.sortKey b); cbn in *; try contradiction; try reflexivity.
  intros H1 H2. apply Z.eqb_eq. lia.
Qed.

(** Whatever algorithm the engine uses, a sorted and stable permutation
    of the array is the list computed here. *)
Lemma stable_sorted_unique l1 : forall l2,
  Permutation l1 l2 ->
  StronglySorted keyLe l1 -> StronglySorted keyLe l2 ->
  (forall f, filter (sameKey f) l1 = filter (sameKey f) l2) ->
  l1 = l2.
Proof.
  induction l1 as [ | x l1 IH]; intros l2 Hperm Hs1 Hs2 Hst.
  - now apply Permutation_nil in Hperm.
  - destruct l2 as [ | y l2]; [now apply Permutation_sym, Permutation_nil in Hperm | ].
    inversion Hs1 as [ | ? ? Hs1' Hx]; subst.
    inversion Hs2 as [ | ? ? Hs2' Hy]; subst.
    rewrite Forall_forall in Hx, Hy.
    assert (Hxy : sameKey x y = true).
    { assert (Hin1 : In y (x :: l1))
        by (eapply Permutation_in; [symmetry; exact Hperm | now left]).
      assert (Hin2 : In x (y :: l2))
        by (eapply Permutation_in; [exact Hperm | now left]).
      destruct Hin1 as [-> | Hin1]; [apply sameKey_refl | ].
      destruct Hin2 as [-> | Hin2]; [apply sameKey_refl | ].
      apply keyLe_antisym; [now apply Hx | now apply Hy]. }
    assert (Heq : x = y).
    { specialize (Hst x). cbn [filter] in Hst.
      rewrite sameKey_refl, Hxy in Hst. now injection Hst. }
    subst y. f_equal. apply IH; try assumption.
    + eapply Permutation_cons_inv, Hperm.
    + intros f. specialize (Hst f). cbn [filter] in Hst.
      destruct (sameKey f x); [now injection Hst | exact Hst].
Qed.

(** C1 (as amended): a directory that can be read and holds N >= 1
    [.png] entries is listed as exactly those N entries, in ascending
    order of their sort keys: the leading integer of the file name, 0
    when there is none, converted to a number.  Up to 2^53 the key is
    the integer itself, so that the listing ascends by leading integer,
    whatever the lexical order of the names.  Entries with the same key
    keep the order the directory gave them. *)
Theorem listPages_sorted_by_key w allFiles :
  fs_readdir w (Ocr.screenshotsDir w) = FsOk allFiles ->
  filter Ocr.isPng allFiles <> [] ->
  exists l,
    Ocr.getScreenshotFiles w = Normal l /\
    Permutation l (filter Ocr.isPng allFiles) /\
    List.length l = List.length (filter Ocr.isPng allFiles) /\
    StronglySorted keyLe l /\
    (Forall (fun f => leadingInteger f <= 2 ^ 53) l -> StronglySorted integerLe l) /\
    (forall f, filter (sameKey f) l = filter (sameKey f) (filter Ocr.isPng allFiles)) /\
    (forall f, Ocr.leadingDigits f = None -> Ocr.sortKey f = Num 0).
Proof.
  intros Hdir Hne.
  exists (JsArray.sort Ocr.numericalSort (filter Ocr.isPng allFiles)).
  split; [ | split; [ | split; [ | split; [ | split; [ | split]]]]].
  - rewrite getScreenshotFiles_cases, Hdir.
    destruct (filter Ocr.isPng allFiles); [congruence | reflexivity].
  - apply sort_perm.
  - apply sort_length.
  - apply sorted_listing.
  - intros Hsmall.
    apply StronglySorted_weaken with (R := keyLe); [ | apply sorted_listing].
    rewrite Forall_forall in Hsmall.
    intros a b Ha Hb. apply keyLe_integerLe; now apply Hsmall.
  - intros f. apply stable_listing.
  - exact sortKey_no_digits.
Qed.

(** The ordering example of the specification. *)
Example listPages_numeric_order :
  Ocr.getScreenshotFiles Examples.smallWorld = Normal ["1.png"; "2.png"; "10.png"].
Proof. vm_compute. reflexivity. Qed.

Lemma listPages_sorted_by_key_witness :
  exists l,
    Ocr.getScreenshotFiles Examples.smallWorld = Normal l /\
    Permutation l ["2.png"; "10.png"; "1.png"] /\
    List.length l = 3%nat /\
    StronglySorted keyLe l /\
    (Forall (fun f => leadingInteger f <= 2 ^ 53) l -> StronglySorted integerLe l) /\
    (forall f, filter (sameKey f) l = filter (sameKey f) ["2.png"; "10.png"; "1.png"]) /\
    (forall f, Ocr.leadingDigits f = None -> Ocr.sortKey f = Num 0).
Proof.
  apply (listPages_sorted_by_key Examples.smallWorld ["2.png"; "10.png"; "1.png"]).
  - reflexivity.
  - vm_compute. discriminate.
Defined.

(** C1 as stated fails beyond 53 bits: 9007199254740993 and
    9007199254740992 have the same key, the comparator answers 0 and the
    stable sort leaves the larger integer first. *)
Lemma listPages_big_prefixes_unsorted :
  Ocr.getScreenshotFiles Examples.bigWorld = Normal Examples.bigListing /\
  List.length Examples.bigListing = 2%nat /\
  ~ StronglySorted integerLe Examples.bigListing.
Proof.
  split; [vm_compute; reflexivity | split; [reflexivity | ]].
  intros H. inversion H as [ | a l _ Hall]; subst.
  inversion Hall as [ | b l' Hab _]; subst.
  apply Hab. vm_compute. reflexivity.
Qed.

(** C5: the listing fails with the NotFound error exactly when the
    directory is absent ([readdir] answers ENOENT), with the Empty error
    exactly when the directory is read and holds no [.png] entry, and a
    listing is returned exactly in the remaining case of a directory
    that is read and holds one. *)
Theorem listPages_failures w :
  (Ocr.getScreenshotFiles w = Throw (Ocr.NotFoundError w) <->
   fs_readdir w (Ocr.screenshotsDir w) = FsError "ENOENT") /\
  (Ocr.getScreenshotFiles w = Throw Ocr.EmptyError <->
   exists allFiles,
     fs_readdir w (Ocr.screenshotsDir w) = FsOk allFiles /\
     filter Ocr.isPng allFiles = []) /\
  ((exists l, Ocr.getScreenshotFiles w = Normal l) <->
   exists allFiles,
     fs_readdir w (Ocr.screenshotsDir w) = FsOk allFiles /\
     filter Ocr.isPng allFiles <> []).
Proof.
  rewrite getScreenshotFiles_cases.
  destruct (fs_readdir w (Ocr.screenshotsDir w)) as [allFiles | code].
  - destruct (filter Ocr.isPng allFiles) as [ | f q] eqn:Hq.
    + split; [ | split].
      * split; [ | discriminate].
        unfold Ocr.EmptyError, Ocr.NotFoundError. intros H. discriminate H.
      * split; [ | reflexivity]. intros _. exists allFiles. now split.
      * split; [intros [l H]; discriminate H | ].
        intros (l & [= <-] & Hne). now rewrite Hq in Hne.
    + split; [ | split].
      * split; discriminate.
      * split; [discriminate | ].
        intros (l & [= <-] & He). rewrite Hq in He. discriminate He.
      * split; [ | intros _; eexists; reflexivity].
        intros _. exists allFiles. split; [reflexivity | ]. rewrite Hq. discriminate.
  - destruct (String.eqb_spec code "ENOENT") as [-> | Hcode].
    + split; [ | split].
      * split; reflexivity.
      * split; [ | intros (l & H & _); discriminate H].
        unfold Ocr.EmptyError, Ocr.NotFoundError. intros H. discriminate H.
      * split; [intros [l H]; discriminate H | intros (l & H & _); discriminate H].
    + split; [ | split].
      * split; [discriminate | ]. intros [= H]. congruence.
      * split; [discriminate | intros (l & H & _); discriminate H].
      * split; [intros [l H]; discriminate H | intros (l & H & _); discriminate H].
Qed.

End Listing.

(* ================================================================== *)
(** ** The Transcriber *)
(* ================================================================== *)

Section Transcriber.
Import JsString Spec.

Lemma performOcrOnImage_cases w imageFilename model :
  Ocr.performOcrOnImage w imageFilename model =
  match fs_readFile w (path_join (Ocr.screenshotsDir w) imageFilename) with
  | FsError _ => Normal None
  | FsOk imageBuffer =>
      match ollama_chat w model imageBuffer with
      | Throw _ => Normal None
      | Normal response =>
          match Ocr.responseContent response with
          | Some c => if truthy c then Normal (Some (Ocr.cleanup c)) else Normal None
          | None => Normal None
          end
      end
  end.
Proof.
  unfold Ocr.performOcrOnImage.
  destruct (fs_readFile w _) as [imageBuffer | code]; cbn; [ | reflexivity].
  destruct (ollama_chat w model imageBuffer) as [response | e]; cbn; [ | reflexivity].
  destruct (Ocr.responseContent response) as [c | ]; [ | reflexivity].
  destruct (truthy c); reflexivity.
Qed.

Lemma performOcrOnImage_returns w imageFilename model :
  Ocr.performOcrOnImage w imageFilename model =
  Normal (transcription w model imageFilename).
Proof.
  unfold transcription. rewrite performOcrOnImage_cases.
  destruct (fs_readFile w _); [ | reflexivity].
  destruct (ollama_chat w model _); [ | reflexivity].
  destruct (Ocr.responseContent _) as [c | ]; [ | reflexivity].
  destruct (truthy c); reflexivity.
Qed.

(** C2: the Transcriber always returns: [null] when the image cannot be
    read, when the service raises, and when the answer has no content;
    the cleaned text otherwise.  No exception reaches the caller. *)
Theorem transcriber_never_raises w imageFilename model :
  let path := path_join (Ocr.screenshotsDir w) imageFilename in
  (exists r, Ocr.performOcrOnImage w imageFilename model = Normal r) /\
  (forall code,
      fs_readFile w path = FsError code ->
      Ocr.performOcrOnImage w imageFilename model = Normal None) /\
  (forall image e,
      fs_readFile w path = FsOk image ->
      ollama_chat w model image = Throw e ->
      Ocr.performOcrOnImage w imageFilename model = Normal None) /\
  (forall image response,
      fs_readFile w path = FsOk image ->
      ollama_chat w model image = Normal response ->
      match Ocr.responseContent response with
      | None | Some EmptyString =>
          Ocr.performOcrOnImage w imageFilename model = Normal None
      | Some c =>
          Ocr.performOcrOnImage w imageFilename model = Normal (Some (Ocr.cleanup c))
      end).
Proof.
  intros path. subst path.
  split; [ | split; [ | split]].
  - eexists. apply performOcrOnImage_returns.
  - intros code H. now rewrite performOcrOnImage_cases, H.
  - intros image e H1 H2. now rewrite performOcrOnImage_cases, H1, H2.
  - intros image response H1 H2.
    rewrite performOcrOnImage_cases, H1, H2.
    destruct (Ocr.responseContent response) as [[ | c r] | ]; reflexivity.
Qed.

(** *** The cleanup of the answer *)

Lemma trimStart_no_leading_space s : beginsWithSpace (trimStart s) = false.
Proof.
  unfold trimStart.
  induction s as [ | c r IH]; simpl; [reflexivity | ].
  destruct (isWhiteSpace c) eqn:Hc; [exact IH | simpl; exact Hc].
Qed.

Lemma trimEnd_keeps_start s :
  beginsWithSpace s = false -> beginsWithSpace (trimEnd s) = false.
Proof.
  destruct s as [ | c r]; [reflexivity | ].
  intros H. cbn [trimEnd]. destruct (all isWhiteSpace (String c r)); [reflexivity | exact H].
Qed.

Lemma trimEnd_empty s : trimEnd s = EmptyString -> all isWhiteSpace s = true.
Proof.
  destruct s as [ | c r]; [reflexivity | ].
  cbn [trimEnd]. destruct (all isWhiteSpace (String c r)); [reflexivity | discriminate].
Qed.

Lemma trimEnd_no_trailing_space s : endsWithSpace (trimEnd s) = false.
Proof.
  induction s as [ | c r IH]; [reflexivity | ].
  cbn [trimEnd]. destruct (all isWhiteSpace (String c r)) eqn:Hall; [reflexivity | ].
  cbn [endsWithSpace].
  destruct (trimEnd r) as [ | c' r'] eqn:Hr; [ | exact IH].
  apply trimEnd_empty in Hr. cbn [all] in Hall. rewrite Hr, andb_true_r in Hall.
  exact Hall.
Qed.

Lemma tail_no_trailing_space c r :
  endsWithSpace (String c r) = false -> endsWithSpace r = false.
Proof. destruct r; [reflexivity | simpl; tauto]. Qed.

Lemma skip_no_trailing_space n s :
  endsWithSpace s = false -> endsWithSpace (skip n s) = false.
Proof.
  revert s. induction n as [ | n IH]; intros s H; [exact H | ].
  destruct s as [ | c r]; [reflexivity | ].
  cbn [skip]. apply IH. eapply tail_no_trailing_space, H.
Qed.

Lemma dropWhile_no_trailing_space f s :
  endsWithSpace s = false -> endsWithSpace (dropWhile f s) = false.
Proof.
  induction s as [ | c r IH]; intros H; [reflexivity | ].
  cbn [dropWhile]. destruct (f c); [ | exact H].
  apply IH. eapply tail_no_trailing_space, H.
Qed.

Lemma stripOpeningFence_no_leading_space s :
  beginsWithSpace s = false -> beginsWithSpace (Ocr.stripOpeningFence s) = false.
Proof.
  intros H. unfold Ocr.stripOpeningFence.
  destruct (startsWith Ocr.fence s); [ | exact H].
  apply trimStart_no_leading_space.
Qed.

Lemma stripOpeningFence_no_trailing_space s :
  endsWithSpace s = false -> endsWithSpace (Ocr.stripOpeningFence s) = false.
Proof.
  intros H. unfold Ocr.stripOpeningFence.
  destruct (startsWith Ocr.fence s); [ | exact H].
  apply dropWhile_no_trailing_space.
  destruct (startsWith "markdown" (skip 3 s));
    repeat apply skip_no_trailing_space; exact H.
Qed.

Lemma stripClosingFence_no_leading_space s :
  beginsWithSpace s = false -> beginsWithSpace (Ocr.stripClosingFence s) = false.
Proof.
  destruct s as [ | c r]; intros H; cbn [Ocr.stripClosingFence].
  - destruct (Ocr.closesHere EmptyString); reflexivity.
  - destruct (Ocr.closesHere (String c r)); [reflexivity | exact H].
Qed.

(** What is left after the closing fence is removed is a prefix. *)
Lemma stripClosingFence_prefix s :
  exists rest, s = Ocr.stripClosingFence s ++ rest.
Proof.
  induction s as [ | c r [rest IH]].
  - exists EmptyString. reflexivity.
  - cbn [Ocr.stripClosingFence].
    destruct (Ocr.closesHere (String c r)).
    + exists (String c r). reflexivity.
    + exists rest. cbn [append]. now rewrite <- IH.
Qed.

Lemma startsWith_app p s rest :
  startsWith p s = true -> startsWith p (s ++ rest) = true.
Proof.
  revert s. induction p as [ | a p IH]; intros s H; [reflexivity | ].
  destruct s as [ | b s]; [discriminate | ].
  cbn [startsWith append] in *.
  apply andb_prop in H as [H1 H2]. now rewrite H1, IH.
Qed.

Lemma stripClosingFence_no_new_fence s :
  startsWith Ocr.fence s = false ->
  startsWith Ocr.fence (Ocr.stripClosingFence s) = false.
Proof.
  intros H. destruct (startsWith Ocr.fence (Ocr.stripClosingFence s)) eqn:Hs; [ | reflexivity].
  destruct (stripClosingFence_prefix s) as [rest Hrest].
  apply (startsWith_app _ _ rest) in Hs. rewrite <- Hrest in Hs. congruence.
Qed.

Lemma trim_shape s :
  beginsWithSpace (trim s) = false /\ endsWithSpace (trim s) = false.
Proof.
  unfold trim. split.
  - apply trimEnd_keeps_start, trimStart_no_leading_space.
  - apply trimEnd_no_trailing_space.
Qed.

Lemma all_space_ends s :
  all isWhiteSpace s = true -> s <> EmptyString -> endsWithSpace s = true.
Proof.
  induction s as [ | c s IH]; [congruence | ].
  cbn [all]. intros H _. apply andb_prop in H as [Hc Hs].
  destruct s as [ | d s]; [exact Hc | ].
  cbn [endsWithSpace]. apply IH; [exact Hs | discriminate].
Qed.

Lemma endsWithSpace_app a b :
  b <> EmptyString -> endsWithSpace (a ++ b)%string = endsWithSpace b.
Proof.
  intros Hb. induction a as [ | c a IH]; [reflexivity | ].
  cbn [append endsWithSpace].
  destruct (a ++ b)%string eqn:E; [ | exact IH].
  destruct a; [cbn in E; congruence | discriminate E].
Qed.

(** A string that starts with [p] is [p] and the rest. *)
Lemma startsWith_split p : forall s,
  startsWith p s = true -> s = p ++ skip (String.length p) s.
Proof.
  induction p as [ | a p IH]; intros s H; [reflexivity | ].
  destruct s as [ | b s]; [discriminate | ].
  cbn [startsWith] in H. apply andb_prop in H as [H1 H2].
  apply Ascii.eqb_eq in H1. subst b.
  cbn [String.length skip append]. f_equal. now apply IH.
Qed.

Lemma takeWhile_dropWhile f s : s = takeWhile f s ++ dropWhile f s.
Proof.
  induction s as [ | c s IH]; [reflexivity | ].
  cbn [takeWhile dropWhile]. destruct (f c); [ | reflexivity].
  cbn [append]. now rewrite <- IH.
Qed.

(** What the first replacement removes: nothing from a text that does
    not begin with a fence; otherwise the fence, the word markdown when
    it follows, and all the white space after that. *)
Lemma stripOpeningFence_parts s :
  (startsWith Ocr.fence s = false /\ Ocr.stripOpeningFence s = s) \/
  (exists tag ws,
      s = Ocr.fence ++ tag ++ ws ++ Ocr.stripOpeningFence s /\
      (tag = EmptyString \/ tag = "markdown") /\
      all isWhiteSpace ws = true /\
      (tag = EmptyString ->
       startsWith "markdown" (ws ++ Ocr.stripOpeningFence s) = false)).
Proof.
  unfold Ocr.stripOpeningFence.
  destruct (startsWith Ocr.fence s) eqn:Hf; [right | left; now split].
  pose proof (startsWith_split _ _ Hf) as Hs.
  change (String.length Ocr.fence) with 3%nat in Hs.
  set (r := skip 3 s) in *.
  destruct (startsWith "markdown" r) eqn:Hm; cbv zeta.
  - pose proof (startsWith_split _ _ Hm) as Hr.
    change (String.length "markdown") with 8%nat in Hr.
    exists "markdown", (takeWhile isWhiteSpace (skip 8 r)).
    rewrite <- takeWhile_dropWhile, <- Hr.
    split; [exact Hs | split; [now right | split; [apply takeWhile_all | discriminate]]].
  - exists EmptyString, (takeWhile isWhiteSpace r).
    rewrite <- takeWhile_dropWhile. cbn [append].
    split; [exact Hs | split; [now left | split; [apply takeWhile_all | ]]].
    intros _. exact Hm.
Qed.

(** What the second replacement removes from a text that does not end
    with white space: the fence the text ends with, or nothing when it
    does not end with a fence. *)
Lemma stripClosingFence_parts s :
  endsWithSpace s = false ->
  (Ocr.stripClosingFence s = s /\ endsWith s Ocr.fence = false) \/
  s = Ocr.stripClosingFence s ++ Ocr.fence.
Proof.
  induction s as [ | c r IH]; intros He.
  - left. split; reflexivity.
  - cbn [Ocr.stripClosingFence].
    destruct (Ocr.closesHere (String c r)) eqn:Hc.
    + right. unfold Ocr.closesHere in Hc. apply andb_prop in Hc as [Hf Ha].
      pose proof (startsWith_split _ _ Hf) as Hs.
      change (String.length Ocr.fence) with 3%nat in Hs.
      destruct (skip 3 (String c r)) as [ | a x] eqn:Hx.
      * rewrite Hs. reflexivity.
      * exfalso. rewrite Hs, endsWithSpace_app in He by discriminate.
        rewrite all_space_ends in He; [discriminate | exact Ha | discriminate].
    + destruct (IH (tail_no_trailing_space _ _ He)) as [[H1 H2] | H].
      * left. split; [now rewrite H1 | ].
        cbn [endsWith]. rewrite H2, orb_false_r.
        destruct (String.eqb_spec (String c r) Ocr.fence) as [E | E]; [ | reflexivity].
        rewrite E in Hc. discriminate Hc.
      * right. cbn [append]. now rewrite <- H.
Qed.

(** C7 (as amended): the text returned for a service answer is the
    trimmed content without its opening code fence, when it begins with
    one (the marker, the word markdown when it follows, and all the white
    space after that), and without its closing code fence, when what is
    left ends with one.  It never begins with white space.  It ends with
    white space only in front of a closing fence that was removed, and it
    begins with a fence marker only behind an opening fence that was
    removed; it does not end with a fence marker when no closing fence
    was removed. *)
Theorem cleanup_shape content :
  let result := Ocr.cleanup content in
  exists pre post,
    trim content = pre ++ result ++ post /\
    ((pre = EmptyString /\ startsWith Ocr.fence result = false) \/
     (exists tag ws,
         pre = Ocr.fence ++ tag ++ ws /\
         (tag = EmptyString \/ tag = "markdown") /\
         all isWhiteSpace ws = true /\
         (tag = EmptyString -> startsWith "markdown" (ws ++ result ++ post) = false))) /\
    ((post = EmptyString /\ endsWith result Ocr.fence = false) \/ post = Ocr.fence) /\
    beginsWithSpace result = false /\
    (post = EmptyString -> endsWithSpace result = false).
Proof.
  cbv zeta. unfold Ocr.cleanup.
  destruct (trim_shape content) as [Hb He].
  set (trimmed := trim content) in *.
  pose proof (stripOpeningFence_no_leading_space trimmed Hb) as Hob.
  pose proof (stripOpeningFence_no_trailing_space trimmed He) as Hoe.
  set (opened := Ocr.stripOpeningFence trimmed) in *.
  pose proof (stripClosingFence_no_leading_space opened Hob) as Hrb.
  assert (Closing : exists post,
             opened = Ocr.stripClosingFence opened ++ post /\
             ((post = EmptyString /\ endsWith (Ocr.stripClosingFence opened) Ocr.fence = false)
              \/ post = Ocr.fence) /\
             (post = EmptyString -> endsWithSpace (Ocr.stripClosingFence opened) = false)).
  { destruct (stripClosingFence_parts opened Hoe) as [[H1 H2] | H].
    - exists EmptyString. rewrite H1, string_app_empty.
      split; [reflexivity | split; [now left | now intros _]].
    - exists Ocr.fence. split; [exact H | split; [now right | discriminate]]. }
  destruct Closing as (post & Hpost & Hfence & Hspace).
  destruct (stripOpeningFence_parts trimmed) as [[Hf Hs] | (tag & ws & Hs & Htag & Hws & Hmd)];
    fold opened in Hs.
  - exists EmptyString, post. cbn [append].
    split; [rewrite <- Hpost; symmetry; exact Hs | split; [ | auto]].
    left. split; [reflexivity | ].
    apply stripClosingFence_no_new_fence. rewrite Hs. exact Hf.
  - fold opened in Hmd. exists (Ocr.fence ++ tag ++ ws), post.
    split; [ | split; [ | auto]].
    + rewrite !string_app_assoc, <- Hpost. exact Hs.
    + right. exists tag, ws.
      split; [reflexivity | split; [exact Htag | split; [exact Hws | ]]].
      now rewrite <- Hpost.
Qed.

End Transcriber.

Section TranscriberExamples.
Import JsString Spec.

Lemma transcriber_never_raises_witness :
  Ocr.performOcrOnImage Examples.scenarioWorld "2.png" "m" = Normal None /\
  Ocr.performOcrOnImage Examples.scenarioWorld "1.png" "m" = Normal (Some "Hello").
Proof.
  split.
  - destruct (transcriber_never_raises Examples.scenarioWorld "2.png" "m")
      as (_ & _ & H & _).
    apply (H "/app/screenshots/2.png" (Error "timeout")); reflexivity.
  - destruct (transcriber_never_raises Examples.scenarioWorld "1.png" "m")
      as (_ & _ & _ & H).
    apply (H "/app/screenshots/1.png"
             (Some {| message := Some {| content := Some "Hello" |} |}));
      reflexivity.
Defined.

Lemma cleanup_shape_witness :
  exists pre post,
    trim Examples.fencedAnswer = pre ++ ("foo" ++ LF) ++ post /\
    pre <> EmptyString /\ post = Ocr.fence.
Proof.
  destruct (cleanup_shape Examples.fencedAnswer)
    as (pre & post & H & Hpre & [[-> Hpost] | ->] & _).
  - exfalso. apply (f_equal endsWithSpace) in H.
    rewrite endsWithSpace_app in H by (vm_compute; discriminate).
    vm_compute in H. discriminate H.
  - destruct Hpre as [[-> _] | (tag & ws & -> & _)].
    + vm_compute in H. discriminate H.
    + exists (Ocr.fence ++ tag ++ ws), Ocr.fence.
      split; [exact H | split; [discriminate | reflexivity]].
Defined.

(** C7 as stated fails on a fenced answer: the line feed in front of
    the closing fence is left at the end of the returned text; and on an
    answer that begins with two fences, the second one stays. *)
Lemma cleanup_keeps_trailing_space :
  Ocr.performOcrOnImage Examples.fencedWorld "1.png" "m" = Normal (Some ("foo" ++ LF)) /\
  endsWithSpace ("foo" ++ LF) = true /\
  Ocr.cleanup Examples.twoFences = "```abc".
Proof. repeat split; vm_compute; reflexivity. Qed.

Lemma listPages_failures_witness :
  Ocr.getScreenshotFiles Examples.absentWorld = Throw (Ocr.NotFoundError Examples.absentWorld) /\
  Ocr.getScreenshotFiles Examples.emptyWorld = Throw Ocr.EmptyError.
Proof.
  split.
  - apply (proj1 (listPages_failures Examples.absentWorld)). reflexivity.
  - apply (proj1 (proj2 (listPages_failures Examples.emptyWorld))).
    exists ["notes.txt"]. split; reflexivity.
Defined.

End TranscriberExamples.

(* ================================================================== *)
(** ** The text assembler *)
(* ================================================================== *)

Section TextAssembler.
Import JsString Spec.

Lemma store_same {D} path (data : D) f : store path data f path = Some data.
Proof. unfold store. now rewrite String.eqb_refl. Qed.

(** One write that does not fail. *)
Lemma fs_write_ok {D} w path (update : option D -> D) broken d :
  fs_write_fails w (clock d) = false ->
  fst (fs_write w path update broken d) = Normal tt /\
  files (snd (fs_write w path update broken d)) path = Some (update (files d path)).
Proof.
  intros H. unfold fs_write. rewrite H. cbn [fst snd files].
  split; [reflexivity | apply store_same].
Qed.

Lemma appendPage_ok w filename d cur :
  noWriteFails w ->
  files d (Ocr.markdownOutputFile w) = Some cur ->
  fst (Ocr.appendPage w filename d) = Normal tt /\
  files (snd (Ocr.appendPage w filename d)) (Ocr.markdownOutputFile w) =
    Some (cur ++ chunkOf w filename).
Proof.
  intros Hw Hcur. unfold Ocr.appendPage, bind, lift.
  rewrite performOcrOnImage_returns. unfold appendFile.
  match goal with |- context [fs_write w ?p ?u ?b d] =>
    destruct (fs_write_ok w p u b d (Hw _)) as [H1 H2] end.
  split; [exact H1 | ].
  rewrite H2, Hcur. reflexivity.
Qed.

(** The loop appends one chunk per page, in order. *)
Lemma textLoop_appends w listing :
  noWriteFails w ->
  forall d cur,
    files d (Ocr.markdownOutputFile w) = Some cur ->
    fst (for_of listing (Ocr.appendPage w) d) = Normal tt /\
    files (snd (for_of listing (Ocr.appendPage w) d)) (Ocr.markdownOutputFile w) =
      Some (cur ++ concatAll (map (chunkOf w) listing)).
Proof.
  intros Hw. induction listing as [ | f listing IH]; intros d cur Hcur.
  - cbn. split; [reflexivity | ]. now rewrite Hcur, string_app_empty.
  - cbn [for_of]. unfold bind.
    destruct (appendPage_ok w f d cur Hw Hcur) as [H1 H2].
    destruct (Ocr.appendPage w f d) as [r d'].
    cbn [fst snd] in H1, H2. subst r. cbv beta iota.
    destruct (IH d' _ H2) as [IH1 IH2].
    split; [exact IH1 | ].
    rewrite IH2. cbn [map concatAll]. now rewrite string_app_assoc.
Qed.

Lemma generateMarkdownFile_content w d listing :
  Ocr.getScreenshotFiles w = Normal listing ->
  noWriteFails w ->
  fst (Ocr.generateMarkdownFile w d) = Normal tt /\
  files (snd (Ocr.generateMarkdownFile w d)) (Ocr.markdownOutputFile w) =
    Some (Ocr.header ++ concatAll (map (chunkOf w) listing)).
Proof.
  intros Hl Hw. unfold Ocr.generateMarkdownFile. rewrite Hl.
  unfold try_catch, bind, writeFile.
  destruct (fs_write_ok w (Ocr.markdownOutputFile w) (fun _ => Ocr.header)
              (fun k _ => cut k Ocr.header) d (Hw _))
    as [H1 H2].
  destruct (fs_write w _ _ _ d) as [r d0].
  cbn [fst snd] in H1, H2. subst r. cbv beta iota.
  destruct (textLoop_appends w listing Hw d0 _ H2) as [L1 L2].
  destruct (for_of listing (Ocr.appendPage w) d0) as [r d1].
  cbn [fst snd] in L1, L2 |- *. subst r. cbn [fst snd].
  split; [reflexivity | exact L2].
Qed.

Lemma ocrWarning_names_file filename :
  exists pre post, Ocr.ocrWarning filename = pre ++ filename ++ post.
Proof.
  exists (LF ++ LF ++ "[OCR Warning/Error for "), ("]" ++ LF ++ LF).
  reflexivity.
Qed.

(** C3: with the listing in hand and no failing write, the text
    artifact is the header followed by one chunk per page, in listing
    order: the text and a blank line for a page that was transcribed, a
    marker that names the file for a page on which the Transcriber
    returned [null]; the run goes on to the end.  For the pages 1.png,
    2.png, 3.png with the results Hello, [null], World the artifact reads
    Hello, blank line, the marker of 2.png, World, blank line. *)
Theorem text_assembly w d listing :
  Ocr.getScreenshotFiles w = Normal listing ->
  noWriteFails w ->
  let ocr := transcription w (Ocr.defaultOllamaModel w) in
  let artifact := files (snd (Ocr.generateMarkdownFile w d)) (Ocr.markdownOutputFile w) in
  fst (Ocr.generateMarkdownFile w d) = Normal tt /\
  artifact =
    Some (Ocr.header ++ concatAll (map (fun f => pageChunk f (ocr f)) listing)) /\
  (forall f t, pageChunk f (Some t) = t ++ LF ++ LF) /\
  (forall f, pageChunk f None = Ocr.ocrWarning f /\
             exists pre post, Ocr.ocrWarning f = pre ++ f ++ post) /\
  (listing = ["1.png"; "2.png"; "3.png"] ->
   ocr "1.png" = Some "Hello" -> ocr "2.png" = None -> ocr "3.png" = Some "World" ->
   artifact =
     Some (Ocr.header ++ ("Hello" ++ LF ++ LF) ++ Ocr.ocrWarning "2.png"
           ++ ("World" ++ LF ++ LF))).
Proof.
  intros Hl Hw ocr artifact.
  destruct (generateMarkdownFile_content w d listing Hl Hw) as [H1 H2].
  split; [exact H1 | split; [exact H2 | split; [reflexivity | split]]].
  - intros f. split; [reflexivity | apply ocrWarning_names_file].
  - intros -> O1 O2 O3. subst artifact. rewrite H2.
    unfold chunkOf. cbn [map concatAll]. fold ocr. rewrite O1, O2, O3.
    cbn [pageChunk]. now rewrite string_app_empty.
Qed.

Lemma text_assembly_witness :
  files (snd (Ocr.generateMarkdownFile Examples.scenarioWorld Examples.usedDisk))
        (Ocr.markdownOutputFile Examples.scenarioWorld) =
  Some (Ocr.header ++ ("Hello" ++ LF ++ LF) ++ Ocr.ocrWarning "2.png"
        ++ ("World" ++ LF ++ LF)).
Proof.
  destruct (text_assembly Examples.scenarioWorld Examples.usedDisk
              ["1.png"; "2.png"; "3.png"]) as (_ & _ & _ & _ & H).
  - reflexivity.
  - intros n. reflexivity.
  - apply H; reflexivity.
Defined.

(** C9: two runs of the text assembler over the same listing, with a
    Transcriber that gives the same result for every listed page, leave
    the same bytes in the text artifact, whatever was on the disk before
    either run; so does a second run on the disk the first one left. *)
Theorem text_assembly_repeatable w1 w2 d1 d2 listing :
  Ocr.getScreenshotFiles w1 = Normal listing ->
  Ocr.getScreenshotFiles w2 = Normal listing ->
  (forall f, In f listing ->
             transcription w1 (Ocr.defaultOllamaModel w1) f =
             transcription w2 (Ocr.defaultOllamaModel w2) f) ->
  noWriteFails w1 -> noWriteFails w2 ->
  (exists bytes,
      files (snd (Ocr.generateMarkdownFile w1 d1)) (Ocr.markdownOutputFile w1) = Some bytes /\
      files (snd (Ocr.generateMarkdownFile w2 d2)) (Ocr.markdownOutputFile w2) = Some bytes) /\
  files (snd (Ocr.generateMarkdownFile w1 (snd (Ocr.generateMarkdownFile w1 d1))))
        (Ocr.markdownOutputFile w1) =
  files (snd (Ocr.generateMarkdownFile w1 d1)) (Ocr.markdownOutputFile w1).
Proof.
  intros Hl1 Hl2 Hsame Hw1 Hw2.
  destruct (generateMarkdownFile_content w1 d1 listing Hl1 Hw1) as [_ H1].
  destruct (generateMarkdownFile_content w2 d2 listing Hl2 Hw2) as [_ H2].
  destruct (generateMarkdownFile_content w1 (snd (Ocr.generateMarkdownFile w1 d1))
              listing Hl1 Hw1) as [_ H3].
  split; [ | now rewrite H3, H1].
  eexists. split; [exact H1 | ].
  rewrite H2. do 3 f_equal.
  apply map_ext_in. intros f Hf. unfold chunkOf. now rewrite Hsame.
Qed.

Lemma text_assembly_repeatable_witness :
  files (snd (Ocr.generateMarkdownFile Examples.scenarioWorld
                (snd (Ocr.generateMarkdownFile Examples.scenarioWorld Examples.usedDisk))))
        (Ocr.markdownOutputFile Examples.scenarioWorld) =
  files (snd (Ocr.generateMarkdownFile Examples.scenarioWorld Examples.usedDisk))
        (Ocr.markdownOutputFile Examples.scenarioWorld).
Proof.
  apply (text_assembly_repeatable Examples.scenarioWorld Examples.scenarioWorld
           Examples.usedDisk Examples.emptyDisk ["1.png"; "2.png"; "3.png"]).
  - reflexivity.
  - reflexivity.
  - intros f _. reflexivity.
  - intros n. reflexivity.
  - intros n. reflexivity.
Defined.

End TextAssembler.

(* ================================================================== *)
(** ** The document assembler *)
(* ================================================================== *)

Section DocumentAssembler.
Import JsString PdfLib Spec.
Local Open Scope list_scope.

Lemma for_of_steps {S A} (body : A -> M S unit) (step : A -> S -> S) :
  (forall x s, body x s = (Normal tt, step x s)) ->
  forall l s, for_of l body s = (Normal tt, fold_left (fun s x => step x s) l s).
Proof.
  intros Hbody. induction l as [ | x l IH]; intros s; [reflexivity | ].
  cbn [for_of fold_left]. unfold bind. now rewrite Hbody, IH.
Qed.

Lemma modifyAt_last {A} (f : A -> A) (l : list A) (p : A) :
  modifyAt (List.length l) f (l ++ [p]) = l ++ [f p].
Proof. induction l as [ | x l IH]; simpl; [reflexivity | now rewrite IH]. Qed.

Lemma dims_eta (d : Dims) : {| width := width d * 1; height := height d * 1 |} = d.
Proof. destruct d as [a b]. cbn [width height]. now rewrite !Z.mul_1_r. Qed.

(** The drawing statements of a turn, run from the state right after
    [addPage]: the page gets its image and its text layer; what the
    statements return is what encoding the text returns. *)
Lemma drawn_page w x y font size mode (ocrText : option string) image s :
  let imgDims := scale image 1 in
  (drawImage (List.length (pdfDoc s)) image 0 0 (width imgDims) (height imgDims) ;;
   match ocrText with
   | Some t =>
       if hasText ocrText
       then drawText w (List.length (pdfDoc s)) t x y font size mode
       else ret tt
   | None => ret tt
   end)%io
    {| pdfDoc := pdfDoc s ++ [{| pageSize := imgDims; contents := [] |}];
       pagesAdded := pagesAdded s + 1;
       disk := disk s |} =
  ((if drawable w ocrText then Normal tt
    else match ocrText with
         | Some t => font_encodeText w t
         | None => Normal tt
         end),
   {| pdfDoc := pdfDoc s ++ [pageOf (layerFor w x y font size ocrText) image];
      pagesAdded := pagesAdded s + 1;
      disk := disk s |}).
Proof.
  intros imgDims. subst imgDims. unfold scale. rewrite dims_eta.
  unfold bind at 1. unfold drawImage, draw, modify.
  cbn [pdfDoc pagesAdded disk]. rewrite modifyAt_last. cbn [pageSize contents app].
  unfold drawable, layerFor, pageOf, encodes.
  destruct ocrText as [t | ]; [ | reflexivity].
  destruct (hasText (Some t)); cbn [andb]; [ | reflexivity].
  unfold drawText, bind, lift.
  destruct (font_encodeText w t) as [[] | e]; [ | reflexivity].
  unfold draw, modify. cbn [pdfDoc pagesAdded disk]. rewrite modifyAt_last.
  reflexivity.
Qed.

Lemma Pdf_processFile_step w font f s :
  Pdf.processFile w font f s = (Normal tt, stepPdf w font f s).
Proof.
  unfold Pdf.processFile, stepPdf, sourceImage, try_catch.
  unfold bind at 1. unfold lift at 1. rewrite performOcrOnImage_returns.
  unfold bind at 1. unfold lift at 1.
  destruct (fs_readFile w _) as [bytes | code]; cbn [of_fs]; [ | reflexivity].
  unfold bind at 1. unfold embedPng, lift, bindC.
  destruct (png_decode w bytes) as [dims | e]; [ | reflexivity].
  cbn [retC]. unfold bind at 1. unfold addPage at 1.
  unfold bind at 1. unfold incrPagesAdded, modify. cbn [pdfDoc pagesAdded disk].
  set (image := {| imageBytes := bytes; imageDims := dims |}).
  pose proof (drawn_page w 5 5 font 6 Invisible
                (transcription w (Pdf.ollamaModelForPdf w) f) image s) as H.
  cbv zeta in H. rewrite H.
  destruct (drawable w _); [reflexivity | ].
  destruct (transcription w (Pdf.ollamaModelForPdf w) f) as [t | ]; [ | reflexivity].
  destruct (font_encodeText w t) as [[] | e]; reflexivity.
Qed.

Lemma bind_bind {S A B C} (a : M S A) (b : A -> M S B) (k : B -> M S C) s :
  bind a (fun x => bind (b x) k) s = bind (bind a b) k s.
Proof.
  unfold bind. destruct (a s) as [[x | e] s']; reflexivity.
Qed.

(** [drawText] is called and raises. *)
Lemma not_drawable w ocrText :
  drawable w ocrText = false ->
  exists t e, ocrText = Some t /\ font_encodeText w t = Throw e.
Proof.
  unfold drawable, encodes. destruct ocrText as [t | ]; [ | discriminate].
  destruct (hasText (Some t)); [ | discriminate].
  destruct (font_encodeText w t) as [u | e] eqn:He; [discriminate | ].
  intros _. exists t, e. now split.
Qed.

Lemma Incremental_processFile_step w font f s :
  PdfIncremental.processFile w font f s = (Normal tt, stepIncremental w font f s).
Proof.
  unfold PdfIncremental.processFile, stepIncremental, sourceImage, try_catch.
  unfold bind at 1. unfold lift at 1. rewrite performOcrOnImage_returns.
  unfold bind at 1. unfold lift at 1.
  destruct (fs_readFile w _) as [bytes | code]; cbn [of_fs]; [ | reflexivity].
  unfold bind at 1. unfold embedPng, lift, bindC.
  destruct (png_decode w bytes) as [dims | e]; [ | reflexivity].
  cbn [retC]. unfold bind at 1. unfold addPage at 1.
  unfold bind at 1. unfold incrPagesAdded, modify. cbn [pdfDoc pagesAdded disk].
  set (image := {| imageBytes := bytes; imageDims := dims |}).
  pose proof (drawn_page w 10 10 font 8 3
                (transcription w (PdfIncremental.ollamaModelForPdf w) f) image s) as H.
  cbv zeta in H. rewrite bind_bind. unfold bind at 1. rewrite H. cbv zeta.
  destruct (drawable w _) eqn:Hd.
  - unfold bind, save, onDisk. cbn [pdfDoc pagesAdded disk].
    match goal with |- context [@writeFile ?D ?C w ?p ?doc (disk s)] =>
      destruct (@writeFile D C w p doc (disk s)) as [[[] | e] d'] end; reflexivity.
  - destruct (not_drawable w _ Hd) as (t & e & -> & ->). reflexivity.
Qed.

(** *** The loops *)

Lemma pagesFor_cons layer w f listing :
  pagesFor layer w (f :: listing) =
  match sourceImage w f with
  | Some image => pageOf (layer f) image :: pagesFor layer w listing
  | None => pagesFor layer w listing
  end.
Proof. unfold pagesFor. cbn [flat_map]. destruct (sourceImage w f); reflexivity. Qed.

Lemma pagesFor_app layer w l1 l2 :
  pagesFor layer w (l1 ++ l2) = pagesFor layer w l1 ++ pagesFor layer w l2.
Proof. unfold pagesFor. apply flat_map_app. Qed.

Lemma Pdf_loop w listing : forall s,
  let s' := fold_left (fun s f => stepPdf w Helvetica f s) listing s in
  pdfDoc s' = pdfDoc s ++ pagesFor (layerPdf w) w listing /\
  pagesAdded s' = pagesAdded s + Z.of_nat (List.length (pagesFor (layerPdf w) w listing)) /\
  disk s' = disk s.
Proof.
  induction listing as [ | f listing IH]; intros s; cbn [fold_left].
  - cbn. rewrite app_nil_r. repeat split. lia.
  - specialize (IH (stepPdf w Helvetica f s)). cbv zeta in IH.
    destruct IH as (I1 & I2 & I3). cbv zeta.
    rewrite I1, I2, I3, pagesFor_cons. unfold stepPdf.
    destruct (sourceImage w f) as [image | ]; [ | now repeat split].
    cbn [pdfDoc pagesAdded disk]. rewrite <- app_assoc. cbn [app List.length].
    repeat split. fold (layerPdf w f). lia.
Qed.

Lemma uptoLast_cons {A} (p : A -> bool) x l :
  uptoLast p (x :: l) =
  if p x then x :: uptoLast p l
  else match uptoLast p l with
       | [] => []
       | _ :: _ => x :: uptoLast p l
       end.
Proof. cbn [uptoLast]. destruct (p x), (uptoLast p l); reflexivity. Qed.

(** The part up to the last element that satisfies [p] is a prefix, and
    all of the list when the last element satisfies [p]. *)
Lemma uptoLast_prefix {A} (p : A -> bool) l : exists later, l = uptoLast p l ++ later.
Proof.
  induction l as [ | x l [later IH]]; [now exists [] | ].
  rewrite uptoLast_cons.
  destruct (p x); [exists later; cbn [app]; now rewrite <- IH | ].
  destruct (uptoLast p l) as [ | y r]; [now exists (x :: l) | ].
  exists later. cbn [app] in *. now rewrite <- IH.
Qed.

Lemma uptoLast_all {A} (p : A -> bool) l :
  Forall (fun x => p x = true) l -> uptoLast p l = l.
Proof.
  induction 1 as [ | x l Hx _ IH]; [reflexivity | ].
  rewrite uptoLast_cons, Hx, IH. reflexivity.
Qed.

Lemma savable_step w f :
  sourceImage w f <> None ->
  savable w f = drawable w (transcription w (PdfIncremental.ollamaModelForPdf w) f).
Proof.
  unfold savable, embeddable. destruct (sourceImage w f); [reflexivity | congruence].
Qed.

(** What the loop of the incremental script leaves: the pages of the
    listing in memory; on the disk, without a failing write, the document
    as it stood after the last page that got as far as its save. *)
Lemma Incremental_loop w listing : forall s,
  let s' := fold_left (fun s f => stepIncremental w TimesRoman f s) listing s in
  let pages := pagesFor (layerIncremental w) w listing in
  let saved := uptoLast (savable w) listing in
  pdfDoc s' = pdfDoc s ++ pages /\
  pagesAdded s' = pagesAdded s + Z.of_nat (List.length pages) /\
  (saved = [] -> disk s' = disk s) /\
  (noWriteFails w -> saved <> [] ->
   files (disk s') (PdfIncremental.pdfOutputFile w) =
     Some (Whole (pdfDoc s ++ pagesFor (layerIncremental w) w saved))).
Proof.
  induction listing as [ | f listing IH]; intros s; cbn [fold_left].
  - cbn. rewrite app_nil_r. repeat split; [lia | congruence].
  - specialize (IH (stepIncremental w TimesRoman f s)). cbv zeta in IH.
    destruct IH as (I1 & I2 & I3 & I4). cbv zeta.
    rewrite I1, I2, pagesFor_cons, uptoLast_cons.
    set (s1 := stepIncremental w TimesRoman f s) in *.
    destruct (sourceImage w f) as [image | ] eqn:Hs.
    + assert (D1 : pdfDoc s1 = pdfDoc s ++ [pageOf (layerIncremental w f) image])
        by (subst s1; unfold stepIncremental; now rewrite Hs).
      assert (D2 : pagesAdded s1 = pagesAdded s + 1)
        by (subst s1; unfold stepIncremental; now rewrite Hs).
      assert (Hsv : savable w f =
                    drawable w (transcription w (PdfIncremental.ollamaModelForPdf w) f))
        by (apply savable_step; congruence).
      assert (P : forall l, pdfDoc s1 ++ pagesFor (layerIncremental w) w l =
                            pdfDoc s ++ pagesFor (layerIncremental w) w (f :: l))
        by (intros l; now rewrite D1, pagesFor_cons, Hs, <- app_assoc).
      rewrite D1, D2, <- app_assoc. cbn [app List.length].
      split; [reflexivity | split; [lia | ]].
      destruct (savable w f) eqn:Hf.
      * assert (D3 : noWriteFails w ->
                     files (disk s1) (PdfIncremental.pdfOutputFile w) =
                       Some (Whole (pdfDoc s1))).
        { intros Hw. subst s1. unfold stepIncremental. rewrite Hs. cbv zeta.
          rewrite <- Hsv. cbn [disk pdfDoc].
          apply (fs_write_ok w (PdfIncremental.pdfOutputFile w) (fun _ => _) _ (disk s)),
            Hw. }
        split; [discriminate | ]. intros Hw _.
        destruct (uptoLast (savable w) listing) as [ | y r] eqn:Hu.
        -- rewrite (I3 eq_refl), (D3 Hw), <- (P []).
           unfold pagesFor at 1. cbn [flat_map]. now rewrite app_nil_r.
        -- rewrite I4 by (exact Hw || discriminate). now rewrite P.
      * assert (D4 : disk s1 = disk s)
          by (subst s1; unfold stepIncremental; rewrite Hs; cbv zeta; now rewrite <- Hsv).
        destruct (uptoLast (savable w) listing) as [ | y r] eqn:Hu.
        -- split; [intros _; now rewrite (I3 eq_refl) | congruence].
        -- split; [discriminate | ]. intros Hw _.
           rewrite I4 by (exact Hw || discriminate). now rewrite P.
    + assert (D : s1 = s) by (subst s1; unfold stepIncremental; now rewrite Hs).
      assert (Hf : savable w f = false)
        by (unfold savable, embeddable; now rewrite Hs).
      rewrite D in *. rewrite Hf.
      split; [reflexivity | split; [reflexivity | ]].
      destruct (uptoLast (savable w) listing) as [ | y r] eqn:Hu.
      * split; [exact I3 | congruence].
      * split; [discriminate | ]. intros Hw _.
        rewrite I4 by (exact Hw || discriminate).
        now rewrite (pagesFor_cons _ _ f), Hs.
Qed.

Lemma Pdf_run w d listing :
  Ocr.getScreenshotFiles w = Normal listing ->
  fst (Pdf.generateSearchablePdf w d) = Normal tt /\
  pdfDoc (snd (Pdf.generateSearchablePdf w d)) = pagesFor (layerPdf w) w listing.
Proof.
  intros Hl. unfold Pdf.generateSearchablePdf. rewrite Hl. cbv zeta.
  unfold bind.
  rewrite (for_of_steps _ _ (Pdf_processFile_step w Helvetica)).
  destruct (Pdf_loop w listing (create d)) as (L1 & L2 & L3).
  cbv zeta in L1, L2, L3.
  set (s1 := fold_left _ listing (create d)) in *.
  cbn [create pdfDoc pagesAdded disk app] in L1, L2, L3.
  unfold bind, get.
  destruct (pagesAdded s1 =? 0); [now split | ].
  unfold try_catch, bind, save, onDisk.
  match goal with |- context [@writeFile ?D ?C w ?p ?doc (disk s1)] =>
    destruct (@writeFile D C w p doc (disk s1)) as [[[] | e] d'] end;
    now split.
Qed.

Lemma Incremental_run w d listing :
  Ocr.getScreenshotFiles w = Normal listing ->
  let s := snd (PdfIncremental.generateSearchablePdf w d) in
  let saved := uptoLast (savable w) listing in
  fst (PdfIncremental.generateSearchablePdf w d) = Normal tt /\
  pdfDoc s = pagesFor (layerIncremental w) w listing /\
  (saved = [] -> disk s = d) /\
  (noWriteFails w -> saved <> [] ->
   files (disk s) (PdfIncremental.pdfOutputFile w) =
     Some (Whole (pagesFor (layerIncremental w) w saved))).
Proof.
  intros Hl. unfold PdfIncremental.generateSearchablePdf. rewrite Hl. cbv zeta.
  rewrite (for_of_steps _ _ (Incremental_processFile_step w TimesRoman)).
  destruct (Incremental_loop w listing (create d)) as (L1 & _ & L3 & L4).
  cbv zeta in L1, L3, L4. cbn [fst snd].
  repeat split; assumption.
Qed.

(** *** Pages and listed files *)

Lemma pagesFor_Forall2 (P : string -> PDFPage -> Prop) layer w listing :
  (forall f image, sourceImage w f = Some image -> P f (pageOf (layer f) image)) ->
  Forall2 P (filter (embeddable w) listing) (pagesFor layer w listing).
Proof.
  intros HP. induction listing as [ | f listing IH]; [constructor | ].
  rewrite pagesFor_cons. cbn [filter]. unfold embeddable at 1.
  destruct (sourceImage w f) as [image | ] eqn:Hs; [ | exact IH].
  constructor; [now apply HP | exact IH].
Qed.

Lemma pagesFor_length layer w listing :
  List.length (pagesFor layer w listing) = List.length (filter (embeddable w) listing).
Proof.
  symmetry. eapply Forall2_length.
  apply (pagesFor_Forall2 (fun _ _ => True)). trivial.
Qed.

Lemma layerFor_only_text w x y font size ocrText :
  filter isDrawImage (layerFor w x y font size ocrText) = [] /\
  filter isDrawText (layerFor w x y font size ocrText) = layerFor w x y font size ocrText.
Proof.
  unfold layerFor. destruct ocrText as [t | ]; [ | split; reflexivity].
  destruct (hasText (Some t) && encodes w t); split; reflexivity.
Qed.

Lemma pageOf_shows w' x y font size ocrText w f image :
  sourceImage w f = Some image ->
  pageShows w f (pageOf (layerFor w' x y font size ocrText) image).
Proof.
  intros Hs. exists image. split; [exact Hs | split; [reflexivity | ]].
  unfold images, pageOf. cbn [contents filter isDrawImage isDrawText negb].
  now rewrite (proj1 (layerFor_only_text w' x y font size ocrText)).
Qed.

Lemma Forall2_In_l {A B} (P : A -> B -> Prop) l l' x :
  Forall2 P l l' -> In x l -> exists y, In y l' /\ P x y.
Proof.
  induction 1 as [ | a b l l' Hab _ IH]; intros Hin; [contradiction | ].
  destruct Hin as [-> | Hin].
  - exists b. split; [now left | exact Hab].
  - destruct (IH Hin) as (y & Hy & Hxy). exists y. split; [now right | exact Hxy].
Qed.

Lemma filter_all_length {A} (p : A -> bool) l :
  Forall (fun x => p x = true) l -> List.length (filter p l) = List.length l.
Proof.
  induction 1 as [ | x l Hx _ IH]; [reflexivity | ].
  cbn [filter]. rewrite Hx. cbn [List.length]. now rewrite IH.
Qed.

Lemma filter_some_length {A} (p : A -> bool) l x :
  In x l -> p x = false -> (List.length (filter p l) < List.length l)%nat.
Proof.
  intros Hin Hx. induction l as [ | y l IH]; [contradiction | ].
  cbn [filter List.length].
  pose proof (filter_length_le p l) as Hle.
  destruct Hin as [-> | Hin].
  - rewrite Hx. lia.
  - specialize (IH Hin). destruct (p y); cbn [List.length]; lia.
Qed.

Lemma imageFails_sourceImage w f : imageFails w f -> sourceImage w f = None.
Proof.
  unfold sourceImage.
  intros [[code H] | (bytes & e & H1 & H2)]; [now rewrite H | now rewrite H1, H2].
Qed.

Lemma listing_nonempty w listing :
  Ocr.getScreenshotFiles w = Normal listing -> listing <> [].
Proof.
  rewrite getScreenshotFiles_cases.
  destruct (fs_readdir w (Ocr.screenshotsDir w)) as [allFiles | code].
  - destruct (filter Ocr.isPng allFiles) as [ | x l] eqn:Hf; [discriminate | ].
    intros H. injection H as <-. intros Hnil.
    apply (f_equal (@List.length string)) in Hnil.
    change (JsArray.insert Ocr.numericalSort x (JsArray.sort Ocr.numericalSort l))
      with (JsArray.sort Ocr.numericalSort (x :: l)) in Hnil.
    rewrite sort_length in Hnil. discriminate Hnil.
  - destruct (String.eqb code "ENOENT"); discriminate.
Qed.

Lemma savable_embeddable w l :
  Forall (fun f => savable w f = true) l -> Forall (fun f => embeddable w f = true) l.
Proof.
  apply Forall_impl. intros f H. unfold savable in H. now apply andb_prop in H as [H _].
Qed.

(** C4 (as amended), for the incremental script.  When the listing
    fails (also for N = 0) the script stops and writes nothing.
    Otherwise the document it builds has one page for every listed image
    that can be read and embedded, in listing order, of the raster size of
    its image and showing that image, whatever the Transcriber returned
    for it; it has N pages when all N images can be embedded.  The file
    is written after every page whose image was embedded and whose text
    layer, if it has one, could be drawn: without a failing write it holds
    the pages of the listing up to the last such page, nothing is written
    when there is no such page, and it holds all N pages when every page
    is of that kind.  A page on which the Transcriber returned [null] is
    of that kind as soon as its image can be embedded. *)
Theorem document_pages w d :
  let final := snd (PdfIncremental.generateSearchablePdf w d) in
  let artifact := files (disk final) (PdfIncremental.pdfOutputFile w) in
  match Ocr.getScreenshotFiles w with
  | Throw _ => final = create d
  | Normal listing =>
      let embedded := filter (embeddable w) listing in
      let saved := uptoLast (savable w) listing in
      Forall2 (pageShows w) embedded (pdfDoc final) /\
      (forall f, In f listing -> embeddable w f = true ->
                 exists p, In p (pdfDoc final) /\ pageShows w f p) /\
      (Forall (fun f => embeddable w f = true) listing ->
       List.length (pdfDoc final) = List.length listing) /\
      (saved = [] -> disk final = d) /\
      (noWriteFails w -> saved <> [] ->
       exists doc later,
         artifact = Some (Whole doc) /\
         pdfDoc final = doc ++ later /\
         Forall2 (pageShows w) (filter (embeddable w) saved) doc) /\
      (noWriteFails w -> Forall (fun f => savable w f = true) listing ->
       artifact = Some (Whole (pdfDoc final)) /\
       List.length (pdfDoc final) = List.length listing) /\
      (forall f, transcription w (PdfIncremental.ollamaModelForPdf w) f = None ->
                 savable w f = embeddable w f)
  end.
Proof.
  intros final artifact.
  destruct (Ocr.getScreenshotFiles w) as [listing | e] eqn:Hl.
  2:{ subst final. unfold PdfIncremental.generateSearchablePdf. now rewrite Hl. }
  destruct (Incremental_run w d listing Hl) as (_ & Q1 & Q2 & Q3).
  cbv zeta in Q1, Q2, Q3. fold final in Q1, Q2, Q3. fold artifact in Q3.
  intros embedded saved. fold saved in Q2, Q3.
  assert (F : Forall2 (pageShows w) embedded (pdfDoc final)).
  { rewrite Q1. apply pagesFor_Forall2. intros f image. apply pageOf_shows. }
  split; [exact F | split; [ | split; [ | split; [exact Q2 | split; [ | split]]]]].
  - intros f Hin Hf.
    assert (Hemb : In f embedded) by (apply filter_In; now split).
    eapply Forall2_In_l; eassumption.
  - intros Hall. rewrite Q1, pagesFor_length. now apply filter_all_length.
  - intros Hw Hne.
    destruct (uptoLast_prefix (savable w) listing) as [later Hlater]. fold saved in Hlater.
    exists (pagesFor (layerIncremental w) w saved), (pagesFor (layerIncremental w) w later).
    split; [now apply Q3 | split].
    + now rewrite Q1, <- pagesFor_app, <- Hlater.
    + apply pagesFor_Forall2. intros f image. apply pageOf_shows.
  - intros Hw Hall.
    assert (Hs : saved = listing) by now apply uptoLast_all.
    split.
    + rewrite Q3, Hs, Q1; [reflexivity | exact Hw | ].
      rewrite Hs. now apply (listing_nonempty w).
    + rewrite Q1, pagesFor_length. now apply filter_all_length, savable_embeddable.
  - intros f Hf. unfold savable. rewrite Hf. apply andb_true_r.
Qed.

(** C4 as stated fails in two ways.  A listed file that is no PNG gets
    no page: of three listed images the document, in memory and in the
    file, has two pages.  And a page whose text cannot be drawn is not
    followed by a save: of two listed images, both added to the document,
    the file holds the first page only. *)
Lemma document_misses_pages :
  Ocr.getScreenshotFiles Examples.corruptWorld = Normal ["1.png"; "2.png"; "3.png"] /\
  (exists doc,
      files (disk (snd (PdfIncremental.generateSearchablePdf
                          Examples.corruptWorld Examples.emptyDisk)))
            (PdfIncremental.pdfOutputFile Examples.corruptWorld) = Some (Whole doc) /\
      pdfDoc (snd (PdfIncremental.generateSearchablePdf
                     Examples.corruptWorld Examples.emptyDisk)) = doc /\
      List.length doc = 2%nat) /\
  Ocr.getScreenshotFiles Examples.belWorld = Normal ["1.png"; "2.png"] /\
  List.length (pdfDoc (snd (PdfIncremental.generateSearchablePdf
                              Examples.belWorld Examples.emptyDisk))) = 2%nat /\
  (exists doc,
      files (disk (snd (PdfIncremental.generateSearchablePdf
                          Examples.belWorld Examples.emptyDisk)))
            (PdfIncremental.pdfOutputFile Examples.belWorld) = Some (Whole doc) /\
      List.length doc = 1%nat).
Proof.
  split; [vm_compute; reflexivity | split; [ | split; [vm_compute; reflexivity | split]]].
  - eexists. split; [vm_compute; reflexivity | split; vm_compute; reflexivity].
  - vm_compute; reflexivity.
  - eexists. split; vm_compute; reflexivity.
Qed.

Lemma document_pages_witness :
  List.length (pdfDoc (snd (PdfIncremental.generateSearchablePdf
                              Examples.scenarioWorld Examples.emptyDisk))) = 3%nat /\
  files (disk (snd (PdfIncremental.generateSearchablePdf
                      Examples.scenarioWorld Examples.emptyDisk)))
        (PdfIncremental.pdfOutputFile Examples.scenarioWorld) =
  Some (Whole (pdfDoc (snd (PdfIncremental.generateSearchablePdf
                              Examples.scenarioWorld Examples.emptyDisk)))).
Proof.
  pose proof (document_pages Examples.scenarioWorld Examples.emptyDisk) as H.
  cbv zeta in H.
  change (Ocr.getScreenshotFiles Examples.scenarioWorld)
    with (@Normal (list string) ["1.png"; "2.png"; "3.png"]) in H.
  cbv beta iota in H.
  destruct H as (_ & _ & Hn & _ & _ & Hs & _).
  split.
  - apply Hn. repeat constructor.
  - apply Hs; [intros n; reflexivity | repeat constructor].
Defined.

(** What the incremental script puts into the text layer of its pages:
    for a transcription that is not blank and that the font can encode,
    the whole text once, at (10, 10) in size 8; nothing otherwise. *)
Lemma Incremental_layers w d listing :
  Ocr.getScreenshotFiles w = Normal listing ->
  Forall2 (fun f p => textLayer p = layerIncremental w f)
          (filter (embeddable w) listing)
          (pdfDoc (snd (PdfIncremental.generateSearchablePdf w d))).
Proof.
  intros Hl. destruct (Incremental_run w d listing Hl) as (_ & Q1 & _).
  cbv zeta in Q1. rewrite Q1.
  apply pagesFor_Forall2. intros f image _.
  unfold textLayer, pageOf. cbn [contents filter isDrawText].
  apply layerFor_only_text.
Qed.

Lemma layerFor_mode w x y font size ocrText op :
  In op (layerFor w x y font size ocrText) -> textMode op = Some Fill.
Proof.
  unfold layerFor. destruct ocrText as [t | ]; [ | contradiction].
  destruct (hasText (Some t) && encodes w t); [ | contradiction].
  intros [<- | []]. reflexivity.
Qed.

Lemma pagesFor_modes w x y font size model listing p op :
  In p (pagesFor (fun f => layerFor w x y font size (transcription w model f)) w listing) ->
  In op (contents p) -> textMode op <> Some Invisible.
Proof.
  unfold pagesFor. rewrite in_flat_map. intros (f & _ & Hp) Hop.
  destruct (sourceImage w f) as [image | ]; [ | contradiction].
  destruct Hp as [<- | []]. cbn [pageOf contents] in Hop.
  destruct Hop as [<- | Hop]; [discriminate | ].
  rewrite (layerFor_mode _ _ _ _ _ _ _ Hop). discriminate.
Qed.

(** C6: the text layer is not invisible.  The scripts ask for
    invisibility through a property [renderingMode] of the options of
    [drawText], which the library does not have: no operation of any page
    of any run is in the invisible mode.  In the scenario of the
    specification the texts Hello and World are shown in the mode [Fill]
    on top of the images of the first and the third page, which is not
    what the specification asks for the first page.  A text that the font
    cannot encode gets no layer at all, although it is not blank.  And
    [pdf.js] asks the library for a name it does not export: the script
    is not linked, adds no page and writes no file. *)
Theorem text_layer_is_painted :
  let run := PdfIncremental.generateSearchablePdf Examples.scenarioWorld Examples.emptyDisk in
  let model := PdfIncremental.ollamaModelForPdf Examples.scenarioWorld in
  (forall w d p op,
      In p (pdfDoc (snd (PdfIncremental.generateSearchablePdf w d))) ->
      In op (contents p) -> textMode op <> Some Invisible) /\
  map textLayer (pdfDoc (snd run)) =
    [[DrawText "Hello" 10 10 TimesRoman 8 Fill]; [];
     [DrawText "World" 10 10 TimesRoman 8 Fill]] /\
  (forall p, nth_error (pdfDoc (snd run)) 0 = Some p ->
             ~ layerOk 10 10 TimesRoman 8 Examples.scenarioWorld model "1.png" p) /\
  (transcription Examples.belWorld (PdfIncremental.ollamaModelForPdf Examples.belWorld)
     "2.png" = Some Examples.belText /\
   map textLayer (pdfDoc (snd (PdfIncremental.generateSearchablePdf
                                 Examples.belWorld Examples.emptyDisk))) =
     [[DrawText "Hello" 10 10 TimesRoman 8 Fill]; []]) /\
  (forall w d, exists e, Pdf.script w d = (Throw e, create d)).
Proof.
  intros run model. split; [ | split; [ | split; [ | split]]].
  - intros w d p op.
    destruct (Ocr.getScreenshotFiles w) as [listing | e] eqn:Hl.
    + destruct (Incremental_run w d listing Hl) as (_ & Q1 & _).
      cbv zeta in Q1. rewrite Q1. apply pagesFor_modes.
    + unfold PdfIncremental.generateSearchablePdf. rewrite Hl. cbn. contradiction.
  - vm_compute. reflexivity.
  - intros p Hp. vm_compute in Hp. injection Hp as <-.
    unfold layerOk.
    change (transcription Examples.scenarioWorld model "1.png") with (Some "Hello").
    change (trim "Hello") with "Hello".
    cbv iota. vm_compute. discriminate.
  - split; vm_compute; reflexivity.
  - intros w d. eexists. reflexivity.
Qed.

(** C10: when reading or embedding the image of a page raises, the
    turn of the loop for that page changes nothing, no page is added,
    and the loop goes on with the next file; the document then has fewer
    pages than images were listed. *)
Theorem image_failure_skips_page w f :
  imageFails w f ->
  (forall font rest s,
      Pdf.processFile w font f s = (Normal tt, s) /\
      for_of (f :: rest) (Pdf.processFile w font) s =
      for_of rest (Pdf.processFile w font) s) /\
  (forall font rest s,
      PdfIncremental.processFile w font f s = (Normal tt, s) /\
      for_of (f :: rest) (PdfIncremental.processFile w font) s =
      for_of rest (PdfIncremental.processFile w font) s) /\
  (forall d listing,
      Ocr.getScreenshotFiles w = Normal listing ->
      In f listing ->
      (List.length (pdfDoc (snd (Pdf.generateSearchablePdf w d)))
       < List.length listing)%nat /\
      (List.length (pdfDoc (snd (PdfIncremental.generateSearchablePdf w d)))
       < List.length listing)%nat).
Proof.
  intros Hf. apply imageFails_sourceImage in Hf.
  split; [ | split].
  - intros font rest s.
    assert (H : Pdf.processFile w font f s = (Normal tt, s))
      by (rewrite Pdf_processFile_step; unfold stepPdf; now rewrite Hf).
    split; [exact H | ]. cbn [for_of]. unfold bind. now rewrite H.
  - intros font rest s.
    assert (H : PdfIncremental.processFile w font f s = (Normal tt, s))
      by (rewrite Incremental_processFile_step; unfold stepIncremental; now rewrite Hf).
    split; [exact H | ]. cbn [for_of]. unfold bind. now rewrite H.
  - intros d listing Hl Hin.
    destruct (Pdf_run w d listing Hl) as (_ & P1).
    destruct (Incremental_run w d listing Hl) as (_ & Q1 & _).
    cbv zeta in Q1. rewrite P1, Q1, !pagesFor_length.
    assert (He : embeddable w f = false) by (unfold embeddable; now rewrite Hf).
    split; eapply filter_some_length; eassumption.
Qed.

Lemma image_failure_skips_page_witness :
  (List.length (pdfDoc (snd (Pdf.generateSearchablePdf
                               Examples.corruptWorld Examples.emptyDisk))) < 3)%nat.
Proof.
  destruct (image_failure_skips_page Examples.corruptWorld "2.png") as (_ & _ & H).
  - right. exists "/app/screenshots/2.png", (Error "not a PNG"). split; reflexivity.
  - apply (H Examples.emptyDisk ["1.png"; "2.png"; "3.png"]).
    + reflexivity.
    + right. left. reflexivity.
Defined.

End DocumentAssembler.

(* ================================================================== *)
(** ** Start-up of the capture script *)
(* ================================================================== *)

Section StartUp.
Import JsNumber MoveShot.

Lemma delayMs_never_NaN env : isNaN (delayMs env) = false.
Proof.
  unfold delayMs, JsNumber.or.
  destruct (parseInt (ToString (DELAY_MS env))) as [ | z | | ]; cbn; try reflexivity.
  destruct (z =? 0); reflexivity.
Qed.

Lemma missing_target_exits env :
  orDefault (TARGET_URL env) EmptyString = EmptyString ->
  inputValidation env = Exit 1.
Proof.
  unfold inputValidation, targetUrl, orDefault.
  destruct (TARGET_URL env) as [[ | c r] | ]; cbn; [reflexivity | discriminate | reflexivity].
Qed.

Lemma negative_delay_exits env :
  ltZero (parseInt (ToString (DELAY_MS env))) = true ->
  inputValidation env = Exit 1.
Proof.
  unfold inputValidation, delayMs, JsNumber.or. intros H.
  destruct (targetUrl env) as [[ | c r] | ]; cbn; try reflexivity.
  destruct (parseInt (ToString (DELAY_MS env))) as [ | z | | ]; try discriminate H.
  - cbn in H. apply Z.ltb_lt in H. cbn.
    destruct (Z.eqb_spec z 0) as [-> | Hz]; [lia | ]. cbn.
    apply Z.ltb_lt in H. now rewrite H.
  - reflexivity.
Qed.

(** C8, at the failing input: with the target set and DELAY_MS=abc the
    script does not exit: [parseInt] gives NaN, [|| 1000] replaces it by
    the default, and the browser is launched with a delay of 1000 ms.
    The test [isNaN(delayMs)] of the validation can never succeed. *)
Theorem non_numeric_delay_is_accepted :
  inputValidation Examples.badDelayEnv = Launch "https://example.com/book" (Num 1000) /\
  (forall env, isNaN (delayMs env) = false).
Proof.
  split; [vm_compute; reflexivity | exact delayMs_never_NaN].
Qed.

End StartUp.

(* ================================================================== *)
(** ** The capture session *)
(* ================================================================== *)

Section CaptureFacts.
Import JsString JsNumber JsMore Capture CaptureSpec.
Local Open Scope list_scope.

(** *** Signals *)

Lemma deliver_frame s sig :
  clicks (deliver s sig) = clicks s /\ shots (deliver s sig) = shots s /\
  exitCode (deliver s sig) = exitCode s /\ closed (deliver s sig) = closed s /\
  launched (deliver s sig) = launched s.
Proof.
  destruct sig; cbn; unfold onSigint; try destruct (shuttingDown s); cbn; auto.
Qed.

Lemma deliver_all_frame arr : forall s,
  clicks (fold_left deliver arr s) = clicks s /\
  shots (fold_left deliver arr s) = shots s /\
  exitCode (fold_left deliver arr s) = exitCode s /\
  closed (fold_left deliver arr s) = closed s /\
  launched (fold_left deliver arr s) = launched s.
Proof.
  induction arr as [ | sig arr IH]; intros s; cbn [fold_left]; [auto | ].
  destruct (IH (deliver s sig)) as (A & B & C & D & E).
  destruct (deliver_frame s sig) as (A' & B' & C' & D' & E').
  rewrite A, B, C, D, E. auto.
Qed.

Lemma deliver_flagsOk s sig : flagsOk s -> flagsOk (deliver s sig).
Proof.
  unfold flagsOk. destruct sig; cbn; unfold onSigint.
  - destruct (shuttingDown s) eqn:H; cbn; auto.
  - destruct (launched s); cbn; auto.
  - auto.
Qed.

Lemma deliver_all_flagsOk arr : forall s,
  flagsOk s -> flagsOk (fold_left deliver arr s).
Proof.
  induction arr as [ | sig arr IH]; intros s H; cbn [fold_left]; [exact H | ].
  apply IH, deliver_flagsOk, H.
Qed.

Lemma deliver_stopped s sig :
  keepRunning s = false -> keepRunning (deliver s sig) = false.
Proof.
  destruct sig; cbn; unfold onSigint; intros H.
  - destruct (shuttingDown s); cbn; auto.
  - destruct (launched s); auto.
  - exact H.
Qed.

Lemma deliver_all_stopped arr : forall s,
  keepRunning s = false -> keepRunning (fold_left deliver arr s) = false.
Proof.
  induction arr as [ | sig arr IH]; intros s H; cbn [fold_left]; [exact H | ].
  apply IH, deliver_stopped, H.
Qed.

(** The interrupt brings the loop flag down, and it stays down. *)
Lemma sigint_stops arr : forall s,
  flagsOk s -> existsb isSigint arr = true ->
  keepRunning (fold_left deliver arr s) = false.
Proof.
  induction arr as [ | sig arr IH]; intros s Hok H; [discriminate H | ].
  cbn [existsb fold_left] in *.
  destruct sig; cbn [isSigint orb] in H.
  - apply deliver_all_stopped. cbn. unfold onSigint.
    destruct (shuttingDown s) eqn:Hs; [now apply Hok | reflexivity].
  - apply IH; [now apply (deliver_flagsOk s Disconnected) | exact H].
  - apply IH; [now apply (deliver_flagsOk s PageClosed) | exact H].
Qed.

Lemma fold_deliver_app a b s :
  fold_left deliver (a ++ b) s = fold_left deliver b (fold_left deliver a s).
Proof. apply fold_left_app. Qed.

(** *** One turn of the loop *)

Lemma captureLoop_nil xy i s :
  captureLoop xy i [] s =
  (Normal (negb (keepRunning s) || pageClosed s), s).
Proof.
  cbn. unfold bind, get, ret.
  destruct (keepRunning s), (pageClosed s); reflexivity.
Qed.

Lemma captureLoop_cons xy i t rest s :
  let s1 := fold_left deliver (arrivals (move t)) s in
  let s2 := fold_left deliver (preClick t) s1 in
  let s3 := fold_left deliver (arrivals (click t)) s2 in
  let s4 := snd (addClick xy s3) in
  let s5 := fold_left deliver (delay t) s4 in
  let s6 := fold_left deliver (arrivals (shot t)) s5 in
  let s7 := snd (addShot (screenshotName i) s6) in
  captureLoop xy i (t :: rest) s =
  if negb (keepRunning s) || pageClosed s then (Normal true, s)
  else
    match raised (move t) with
    | Some e => (Throw e, s1)
    | None =>
        match raised (click t) with
        | Some e => (Throw e, s3)
        | None =>
            if negb (keepRunning s5) || pageClosed s5 then (Normal true, s5)
            else
              match raised (shot t) with
              | Some e => (Throw e, s6)
              | None => captureLoop xy (add i (Num 1)) rest s7
              end
        end
    end.
Proof.
  cbv zeta. cbn [captureLoop]. unfold addClick, addShot, modify. cbn [snd].
  unfold bind at 1. unfold get at 1. cbv beta iota.
  destruct (keepRunning s) eqn:Hk; cbn [negb orb]; [ | reflexivity].
  destruct (pageClosed s) eqn:Hp; [reflexivity | ].
  unfold bind at 1. unfold await at 1.
  destruct (raised (move t)) as [e | ]; [reflexivity | ].
  unfold bind at 1. unfold sleep at 1. cbv beta iota.
  unfold bind at 1. unfold await at 1.
  destruct (raised (click t)) as [e | ]; [reflexivity | ].
  unfold bind at 1. cbv beta iota.
  unfold bind at 1. unfold sleep at 1. cbv beta iota.
  unfold bind at 1. unfold get at 1. cbv beta iota.
  match goal with |- (if ?c then _ else _) _ = _ => destruct c; [reflexivity | ] end.
  unfold bind at 1. unfold await at 1.
  destruct (raised (shot t)) as [e | ]; [reflexivity | ].
  unfold bind at 1. cbv beta iota.
  reflexivity.
Qed.

(** *** What a run leaves behind *)

Lemma add_one n :
  Z.of_nat n < 2 ^ 53 -> add (Num (Z.of_nat n)) (Num 1) = Num (Z.of_nat (S n)).
Proof.
  intros H. unfold add. rewrite ofInteger_small by lia. f_equal. lia.
Qed.

Lemma shotNames_S n :
  shotNames (S n) = shotNames n ++ [screenshotName (Num (Z.of_nat (S n)))].
Proof. unfold shotNames. rewrite seq_S, map_app. reflexivity. Qed.

Lemma captureLoop_shape xy turns : forall n s,
  shots s = shotNames n ->
  clicks s = repeat xy n ->
  Z.of_nat n + Z.of_nat (List.length turns) < 2 ^ 53 ->
  let r := captureLoop xy (Num (Z.of_nat (S n))) turns s in
  exists n',
    (n <= n' <= n + List.length turns)%nat /\
    shots (snd r) = shotNames n' /\
    (clicks (snd r) = repeat xy n' \/ clicks (snd r) = repeat xy (S n')) /\
    exitCode (snd r) = exitCode s /\
    closed (snd r) = closed s /\
    launched (snd r) = launched s.
Proof.
  induction turns as [ | t rest IH]; intros n s Hs Hc Hn; cbv zeta.
  - rewrite captureLoop_nil. exists n. cbn [snd List.length]. repeat split; auto; lia.
  - rewrite captureLoop_cons.
    destruct (deliver_all_frame (arrivals (move t)) s) as (A1 & B1 & C1 & D1 & E1).
    set (s1 := fold_left deliver (arrivals (move t)) s) in *.
    destruct (deliver_all_frame (preClick t) s1) as (A2 & B2 & C2 & D2 & E2).
    set (s2 := fold_left deliver (preClick t) s1) in *.
    destruct (deliver_all_frame (arrivals (click t)) s2) as (A3 & B3 & C3 & D3 & E3).
    set (s3 := fold_left deliver (arrivals (click t)) s2) in *.
    set (s4 := snd (addClick xy s3)).
    assert (F4 : clicks s4 = clicks s3 ++ [xy] /\ shots s4 = shots s3 /\
                 exitCode s4 = exitCode s3 /\ closed s4 = closed s3 /\
                 launched s4 = launched s3) by (repeat split; reflexivity).
    destruct F4 as (A4 & B4 & C4 & D4 & E4).
    destruct (deliver_all_frame (delay t) s4) as (A5 & B5 & C5 & D5 & E5).
    set (s5 := fold_left deliver (delay t) s4) in *.
    destruct (deliver_all_frame (arrivals (shot t)) s5) as (A6 & B6 & C6 & D6 & E6).
    set (s6 := fold_left deliver (arrivals (shot t)) s5) in *.
    set (s7 := snd (addShot (screenshotName (Num (Z.of_nat (S n)))) s6)).
    assert (F7 : clicks s7 = clicks s6 /\
                 shots s7 = shots s6 ++ [screenshotName (Num (Z.of_nat (S n)))] /\
                 exitCode s7 = exitCode s6 /\ closed s7 = closed s6 /\
                 launched s7 = launched s6) by (repeat split; reflexivity).
    destruct F7 as (A7 & B7 & C7 & D7 & E7).
    cbn [List.length] in *.
    assert (K3 : clicks s3 = repeat xy n) by congruence.
    assert (K5 : clicks s5 = repeat xy (S n))
      by (rewrite A5, A4, K3; symmetry; apply repeat_cons).
    destruct (negb (keepRunning s) || pageClosed s).
    { exists n. cbn [snd]. repeat split; auto; lia. }
    destruct (raised (move t)) as [e | ].
    { exists n. cbn [snd]. repeat split; try congruence; try lia. left. congruence. }
    destruct (raised (click t)) as [e | ].
    { exists n. cbn [snd]. repeat split; try congruence; try lia. left. congruence. }
    destruct (negb (keepRunning s5) || pageClosed s5).
    { exists n. cbn [snd]. repeat split; try congruence; try lia. right. exact K5. }
    destruct (raised (shot t)) as [e | ].
    { exists n. cbn [snd]. repeat split; try congruence; try lia. right. congruence. }
    rewrite add_one by lia.
    destruct (IH (S n) s7) as (n' & Hn' & S' & C' & X' & Y' & Z').
    + rewrite B7, shotNames_S. congruence.
    + congruence.
    + lia.
    + exists n'. cbv zeta in S', C', X', Y', Z'.
      repeat split; try congruence; try lia.
Qed.

(** *** The main function *)

Lemma body_cases st turns :
  let b1 := fold_left deliver (arrivals (launch st)) start in
  let b2 := snd (setLaunched b1) in
  let b3 := fold_left deliver (arrivals (newPage st)) b2 in
  let b4 := fold_left deliver (arrivals (evaluateOnNewDocument st)) b3 in
  let b5 := fold_left deliver (arrivals (goto st)) b4 in
  let b6 := fold_left deliver (arrivals (question st)) b5 in
  body st turns start =
  match sessionDir st with
  | Some e => (Throw e, start)
  | None =>
  match raised (launch st) with
  | Some e => (Throw e, b1)
  | None =>
  match raised (newPage st) with
  | Some e => (Throw e, b3)
  | None =>
  match raised (evaluateOnNewDocument st) with
  | Some e => (Throw e, b4)
  | None =>
  match raised (goto st) with
  | Some e => (Throw e, b5)
  | None =>
  if pageClosed b6
  then (Throw (Error "Browser page closed or context lost before final confirmation."),
        b6)
  else
  match raised (question st) with
  | Some e => (Throw e, b6)
  | None =>
  match outputDirCheck st with
  | Some e => (Throw e, b6)
  | None => captureLoop (mousePosition (mouseMoves st)) (Num 1) turns b6
  end end end end end end end.
Proof.
  cbv zeta. unfold body, setLaunched, modify. cbn [snd].
  unfold bind at 1. unfold sync at 1.
  destruct (sessionDir st) as [e | ]; [reflexivity | ].
  unfold bind at 1. unfold await at 1.
  destruct (raised (launch st)) as [e | ]; [reflexivity | ].
  unfold bind at 1. cbv beta iota.
  unfold bind at 1. unfold await at 1.
  destruct (raised (newPage st)) as [e | ]; [reflexivity | ].
  unfold bind at 1. unfold await at 1.
  destruct (raised (evaluateOnNewDocument st)) as [e | ]; [reflexivity | ].
  unfold bind at 1. unfold await at 1.
  destruct (raised (goto st)) as [e | ]; [reflexivity | ].
  unfold bind at 1. unfold askQuestion at 1.
  match goal with |- context [pageClosed ?x] => destruct (pageClosed x) end;
    cbn [negb]; [reflexivity | ].
  destruct (raised (question st)) as [e | ]; [reflexivity | ].
  unfold bind at 1. unfold sync at 1.
  destruct (outputDirCheck st) as [e | ]; reflexivity.
Qed.

(** What the [try] block leaves: screenshots numbered from 1 without a
    gap, a click at the confirmed position for each of them and at most
    one more, no exit code, the browser not closed. *)
Lemma body_shape st turns :
  Z.of_nat (List.length turns) < 2 ^ 53 ->
  let s := snd (body st turns start) in
  exists n,
    (n <= List.length turns)%nat /\
    shots s = shotNames n /\
    (clicks s = repeat (mousePosition (mouseMoves st)) n \/
     clicks s = repeat (mousePosition (mouseMoves st)) (S n)) /\
    exitCode s = None /\ closed s = false.
Proof.
  intros Hn. cbv zeta. rewrite body_cases. cbv zeta.
  destruct (deliver_all_frame (arrivals (launch st)) start) as (A1 & B1 & C1 & D1 & _).
  set (b1 := fold_left deliver (arrivals (launch st)) start) in *.
  set (b2 := snd (setLaunched b1)).
  assert (F2 : clicks b2 = clicks b1 /\ shots b2 = shots b1 /\
               exitCode b2 = exitCode b1 /\ closed b2 = closed b1)
    by (repeat split; reflexivity).
  destruct F2 as (A2 & B2 & C2 & D2).
  destruct (deliver_all_frame (arrivals (newPage st)) b2) as (A3 & B3 & C3 & D3 & _).
  set (b3 := fold_left deliver (arrivals (newPage st)) b2) in *.
  destruct (deliver_all_frame (arrivals (evaluateOnNewDocument st)) b3)
    as (A4 & B4 & C4 & D4 & _).
  set (b4 := fold_left deliver (arrivals (evaluateOnNewDocument st)) b3) in *.
  destruct (deliver_all_frame (arrivals (goto st)) b4) as (A5 & B5 & C5 & D5 & _).
  set (b5 := fold_left deliver (arrivals (goto st)) b4) in *.
  destruct (deliver_all_frame (arrivals (question st)) b5) as (A6 & B6 & C6 & D6 & _).
  set (b6 := fold_left deliver (arrivals (question st)) b5) in *.
  cbn [start clicks shots exitCode closed] in A1, B1, C1, D1.
  assert (Early : forall b : Session,
             clicks b = [] -> shots b = [] -> exitCode b = None -> closed b = false ->
             exists n,
               (n <= List.length turns)%nat /\
               shots b = shotNames n /\
               (clicks b = repeat (mousePosition (mouseMoves st)) n \/
                clicks b = repeat (mousePosition (mouseMoves st)) (S n)) /\
               exitCode b = None /\ closed b = false).
  { intros b Hc Hs He Hd. exists 0%nat.
    repeat split; auto; try lia; try (now left). }
  destruct (sessionDir st); [apply Early; reflexivity | ].
  destruct (raised (launch st)); [cbn [snd]; apply Early; congruence | ].
  destruct (raised (newPage st)); [cbn [snd]; apply Early; congruence | ].
  destruct (raised (evaluateOnNewDocument st)); [cbn [snd]; apply Early; congruence | ].
  destruct (raised (goto st)); [cbn [snd]; apply Early; congruence | ].
  destruct (pageClosed b6); [cbn [snd]; apply Early; congruence | ].
  destruct (raised (question st)); [cbn [snd]; apply Early; congruence | ].
  destruct (outputDirCheck st); [cbn [snd]; apply Early; congruence | ].
  destruct (captureLoop_shape (mousePosition (mouseMoves st)) turns 0 b6)
    as (n & Hle & S' & C' & X' & Y' & _).
  { change (shotNames 0) with (@nil string). congruence. }
  { cbn [repeat]. congruence. }
  { lia. }
  cbv zeta in S', C', X', Y'. change (Z.of_nat 1) with 1 in *.
  exists n. repeat split; try congruence; try lia.
Qed.

Lemma onError_cases error s :
  onError error s = (Normal tt, if shuttingDown s then s else setExitCode 1 s).
Proof.
  unfold onError.
  destruct (shuttingDown s); cbn [negb andb]; [reflexivity | ].
  destruct (negb _); reflexivity.
Qed.

Lemma closeBrowser_frame s :
  shots (closeBrowser s) = shots s /\ clicks (closeBrowser s) = clicks s /\
  exitCode (closeBrowser s) = exitCode s.
Proof. repeat split. Qed.

Lemma main_cases st turns :
  main st turns =
  let finish (s : Session) :=
    let s' := if launched s && connected s then closeBrowser s else s in
    (Exited (exitStatus s'), s') in
  match body st turns start with
  | (Normal false, s) => (Running, s)
  | (Normal true, s) => finish s
  | (Throw e, s) => finish (if shuttingDown s then s else setExitCode 1 s)
  end.
Proof.
  unfold main, try_catch.
  destruct (body st turns start) as [[[ | ] | e] s]; [reflexivity | reflexivity | ].
  unfold bind. rewrite onError_cases. reflexivity.
Qed.

Lemma main_state st turns :
  let b := snd (body st turns start) in
  shots (snd (main st turns)) = shots b /\ clicks (snd (main st turns)) = clicks b.
Proof.
  cbv zeta. rewrite main_cases. cbv zeta.
  destruct (body st turns start) as [[[ | ] | e] s]; cbn [snd].
  - destruct (launched s && connected s); split; reflexivity.
  - split; reflexivity.
  - destruct (shuttingDown s);
      match goal with |- context [if ?c then _ else _] => destruct c end;
      split; reflexivity.
Qed.

(** Screenshots are numbered from 1 in steps of 1: whatever happens
    during a session of fewer than 2^53 turns, the files it has written are
    1.png, 2.png, ..., n.png for some n, at most one per turn. *)
Theorem capture_numbering st turns :
  Z.of_nat (List.length turns) < 2 ^ 53 ->
  exists n,
    (n <= List.length turns)%nat /\
    shots (snd (main st turns)) = shotNames n.
Proof.
  intros Hn. destruct (body_shape st turns Hn) as (n & Hle & Hs & _).
  cbv zeta in Hs. destruct (main_state st turns) as [M1 _]. cbv zeta in M1.
  exists n. split; [exact Hle | congruence].
Qed.

Lemma capture_numbering_witness :
  exists n,
    (n <= 7)%nat /\
    shots (snd (main MoreExamples.calmSetup MoreExamples.fiveThenInterrupt)) = shotNames n.
Proof.
  apply (capture_numbering MoreExamples.calmSetup MoreExamples.fiveThenInterrupt).
  cbn. lia.
Defined.

(** Every click of a session is at the position confirmed at the start,
    which is the place of the last mouse move in the page ((0, 0) when
    there was none); each screenshot follows a click of its own, and at
    most one click is left without its screenshot. *)
Theorem capture_clicks st turns :
  Z.of_nat (List.length turns) < 2 ^ 53 ->
  let s := snd (main st turns) in
  Forall (fun c => c = mousePosition (mouseMoves st)) (clicks s) /\
  (List.length (clicks s) = List.length (shots s) \/
   List.length (clicks s) = S (List.length (shots s))) /\
  (forall moves xy, mousePosition (moves ++ [xy]) = xy) /\
  mousePosition [] = (0, 0).
Proof.
  intros Hn. cbv zeta.
  destruct (body_shape st turns Hn) as (n & _ & Hs & Hc & _).
  cbv zeta in Hs, Hc. destruct (main_state st turns) as [M1 M2]. cbv zeta in M1, M2.
  rewrite M1, M2, Hs.
  assert (Hlen : List.length (shotNames n) = n)
    by (unfold shotNames; now rewrite length_map, length_seq).
  rewrite Hlen.
  split; [ | split; [ | split; [ | reflexivity]]].
  - destruct Hc as [-> | ->]; apply Forall_forall; intros c Hin;
      now apply repeat_spec in Hin.
  - destruct Hc as [-> | ->]; rewrite repeat_length; auto.
  - intros moves xy. unfold mousePosition. apply last_last.
Qed.

Lemma capture_clicks_witness :
  Forall (fun c => c = (640, 360))
         (clicks (snd (main MoreExamples.calmSetup MoreExamples.fiveThenInterrupt))).
Proof.
  destruct (capture_clicks MoreExamples.calmSetup MoreExamples.fiveThenInterrupt)
    as (H & _).
  - cbn. lia.
  - exact H.
Defined.

(** The exit status of a session that ends: 0 when the loop was left by
    its flags; after an exception, 1 unless the shutdown had begun, in
    which case 0.  What the exception says plays no part, although the
    [catch] block looks for Target closed and Protocol error in it. *)
Theorem capture_exit_status st turns :
  Z.of_nat (List.length turns) < 2 ^ 53 ->
  fst (main st turns) =
    match body st turns start with
    | (Normal false, _) => Running
    | (Normal true, _) => Exited 0
    | (Throw _, s) => Exited (if shuttingDown s then 0 else 1)
    end /\
  (forall e e' s, onError e s = onError e' s).
Proof.
  intros Hn. split; [ | intros e e' s; now rewrite !onError_cases].
  destruct (body_shape st turns Hn) as (n & _ & _ & _ & He & _). cbv zeta in He.
  rewrite main_cases. cbv zeta.
  destruct (body st turns start) as [[[ | ] | e] s]; cbn [fst snd] in *.
  - destruct (launched s && connected s); unfold exitStatus; cbn; now rewrite He.
  - reflexivity.
  - destruct (shuttingDown s);
      match goal with |- context [if ?c then _ else _] => destruct c end;
      unfold exitStatus; cbn; now rewrite ?He.
Qed.

Lemma capture_exit_status_witness :
  fst (main MoreExamples.failedSetup MoreExamples.fiveThenInterrupt) = Exited 1.
Proof.
  destruct (capture_exit_status MoreExamples.failedSetup MoreExamples.fiveThenInterrupt)
    as (H & _).
  - cbn. lia.
  - exact H.
Defined.

(** *** The interrupt *)

Lemma deliver_addClick xy s sig :
  deliver (snd (addClick xy s)) sig = snd (addClick xy (deliver s sig)).
Proof.
  destruct sig; cbn; unfold onSigint; cbn; try reflexivity.
  destruct (shuttingDown s) eqn:H; cbn; rewrite ?H; reflexivity.
Qed.

Lemma deliver_all_addClick xy arr : forall s,
  fold_left deliver arr (snd (addClick xy s)) =
  snd (addClick xy (fold_left deliver arr s)).
Proof.
  induction arr as [ | sig arr IH]; intros s; cbn [fold_left]; [reflexivity | ].
  now rewrite deliver_addClick, IH.
Qed.

(** The state after the signals of a turn, before and after its
    screenshot. *)
Lemma turn_states xy t s :
  fold_left deliver (delay t)
    (snd (addClick xy
       (fold_left deliver (arrivals (click t))
          (fold_left deliver (preClick t)
             (fold_left deliver (arrivals (move t)) s))))) =
  snd (addClick xy (fold_left deliver (beforeShot t) s)).
Proof.
  unfold beforeShot. rewrite deliver_all_addClick, !fold_left_app. reflexivity.
Qed.

Lemma captureLoop_stopped xy i turns s :
  keepRunning s = false -> captureLoop xy i turns s = (Normal true, s).
Proof.
  intros H. destruct turns as [ | t rest].
  - rewrite captureLoop_nil, H. reflexivity.
  - rewrite captureLoop_cons. cbv zeta. rewrite H. reflexivity.
Qed.

Lemma loop_ends xy turns : forall i s,
  flagsOk s ->
  Exists (fun t => existsb isSigint (signalsOf t) = true) turns ->
  fst (captureLoop xy i turns s) <> Normal false.
Proof.
  induction turns as [ | t rest IH]; intros i s Hok Hex; [inversion Hex | ].
  rewrite captureLoop_cons. cbv zeta. rewrite turn_states.
  destruct (negb (keepRunning s) || pageClosed s); [discriminate | ].
  destruct (raised (move t)); [discriminate | ].
  destruct (raised (click t)); [discriminate | ].
  set (s5 := snd (addClick xy (fold_left deliver (beforeShot t) s))).
  destruct (negb (keepRunning s5) || pageClosed s5); [discriminate | ].
  destruct (raised (shot t)); [discriminate | ].
  assert (H6 : fold_left deliver (arrivals (shot t)) s5 =
               snd (addClick xy (fold_left deliver (signalsOf t) s))).
  { subst s5. unfold signalsOf. now rewrite deliver_all_addClick, fold_left_app. }
  rewrite H6.
  inversion Hex as [? ? Hhere | ? ? Hlater]; subst.
  - rewrite captureLoop_stopped; [discriminate | ].
    cbn. now apply sigint_stops.
  - apply IH; [ | exact Hlater].
    unfold flagsOk. cbn. apply deliver_all_flagsOk, Hok.
Qed.

Lemma setLaunched_flagsOk s : flagsOk s -> flagsOk (snd (setLaunched s)).
Proof. intros H. exact H. Qed.

Lemma start_flagsOk : flagsOk start.
Proof. unfold flagsOk. cbn. discriminate. Qed.

(** An interrupt ends the session: when SIGINT arrives in some turn of
    the schedule, the loop is left and the process exits. *)
Theorem capture_interrupt_ends st turns :
  Exists (fun t => existsb isSigint (signalsOf t) = true) turns ->
  exists status, fst (main st turns) = Exited status.
Proof.
  intros Hex. rewrite main_cases. cbv zeta.
  destruct (body st turns start) as [[[ | ] | e] s] eqn:Hb; cbn [fst];
    [eexists; reflexivity | | eexists; reflexivity].
  exfalso. rewrite body_cases in Hb. cbv zeta in Hb.
  destruct (sessionDir st); [discriminate | ].
  destruct (raised (launch st)); [discriminate | ].
  destruct (raised (newPage st)); [discriminate | ].
  destruct (raised (evaluateOnNewDocument st)); [discriminate | ].
  destruct (raised (goto st)); [discriminate | ].
  match type of Hb with (if pageClosed ?b then _ else _) = _ =>
    set (b6 := b) in *; destruct (pageClosed b6); [discriminate | ] end.
  destruct (raised (question st)); [discriminate | ].
  destruct (outputDirCheck st); [discriminate | ].
  apply (loop_ends (mousePosition (mouseMoves st)) turns (Num 1) b6); [ | exact Hex | ].
  - subst b6. do 4 apply deliver_all_flagsOk.
    apply setLaunched_flagsOk, deliver_all_flagsOk. apply start_flagsOk.
  - now rewrite Hb.
Qed.

Lemma capture_interrupt_ends_witness :
  exists status,
    fst (main MoreExamples.calmSetup MoreExamples.fiveThenInterrupt) = Exited status.
Proof.
  apply (capture_interrupt_ends MoreExamples.calmSetup MoreExamples.fiveThenInterrupt).
  do 5 apply Exists_cons_tl. apply Exists_cons_hd. reflexivity.
Defined.

Lemma calm_fields a : calm a = true -> arrivals a = [] /\ raised a = None.
Proof.
  unfold calm. destruct (arrivals a), (raised a); try discriminate. now split.
Qed.

Lemma noSignal_nil arr : noSignal arr = true -> arr = [].
Proof. destruct arr; [reflexivity | discriminate]. Qed.

Lemma calm_turn_step xy i t rest s :
  calmTurn t = true -> keepRunning s = true -> pageClosed s = false ->
  captureLoop xy i (t :: rest) s =
  captureLoop xy (add i (Num 1)) rest
    (snd (addShot (screenshotName i) (snd (addClick xy s)))).
Proof.
  unfold calmTurn. intros H Hk Hp.
  repeat (apply andb_prop in H as [H ?]).
  destruct (calm_fields _ H) as [M1 M2].
  destruct (calm_fields (click t)) as [C1 C2]; [assumption | ].
  destruct (calm_fields (shot t)) as [S1 S2]; [assumption | ].
  assert (P : preClick t = []) by now apply noSignal_nil.
  assert (D : delay t = []) by now apply noSignal_nil.
  rewrite captureLoop_cons. cbv zeta.
  rewrite M1, M2, C1, C2, S1, S2, P, D. cbn [fold_left].
  rewrite Hk, Hp. cbn [negb orb].
  change (keepRunning (snd (addClick xy s))) with (keepRunning s).
  change (pageClosed (snd (addClick xy s))) with (pageClosed s).
  rewrite Hk, Hp. reflexivity.
Qed.

Lemma calm_prefix xy quiet : forall n s more,
  forallb calmTurn quiet = true ->
  keepRunning s = true -> pageClosed s = false ->
  shots s = shotNames n ->
  Z.of_nat n + Z.of_nat (List.length quiet) < 2 ^ 53 ->
  exists s',
    captureLoop xy (Num (Z.of_nat (S n))) (quiet ++ more) s =
    captureLoop xy (Num (Z.of_nat (S (n + List.length quiet)))) more s' /\
    keepRunning s' = true /\ pageClosed s' = false /\
    shuttingDown s' = shuttingDown s /\ launched s' = launched s /\
    connected s' = connected s /\ exitCode s' = exitCode s /\
    shots s' = shotNames (n + List.length quiet) /\
    closed s' = closed s.
Proof.
  induction quiet as [ | t quiet IH]; intros n s more Hq Hk Hp Hs Hn.
  - exists s. cbn [app List.length]. rewrite Nat.add_0_r. repeat split; auto.
  - cbn [forallb] in Hq. apply andb_prop in Hq as [Ht Hq].
    cbn [app List.length] in *.
    rewrite calm_turn_step by assumption.
    rewrite add_one by lia.
    destruct (IH (S n)
                (snd (addShot (screenshotName (Num (Z.of_nat (S n)))) (snd (addClick xy s))))
                more) as (s' & E & K & P & SD & L & C & X & SH & CL); try assumption.
    + rewrite shotNames_S, <- Hs. reflexivity.
    + lia.
    + exists s'. rewrite E.
      replace (S n + List.length quiet)%nat with (n + S (List.length quiet))%nat in * by lia.
      repeat split; assumption.
Qed.

(** The state once the browser is gone. *)
Lemma deliver_gone s sig :
  keepRunning s = false /\ shuttingDown s = true /\ connected s = false /\
  launched s = true ->
  keepRunning (deliver s sig) = false /\ shuttingDown (deliver s sig) = true /\
  connected (deliver s sig) = false /\ launched (deliver s sig) = true.
Proof.
  intros (K & S & C & L). destruct sig; cbn; unfold onSigint; rewrite ?S, ?L; cbn; auto.
Qed.

Lemma deliver_all_gone arr : forall s,
  keepRunning s = false /\ shuttingDown s = true /\ connected s = false /\
  launched s = true ->
  keepRunning (fold_left deliver arr s) = false /\
  shuttingDown (fold_left deliver arr s) = true /\
  connected (fold_left deliver arr s) = false /\
  launched (fold_left deliver arr s) = true.
Proof.
  induction arr as [ | sig arr IH]; intros s H; cbn [fold_left]; [exact H | ].
  apply IH, deliver_gone, H.
Qed.

Lemma disconnect_gone arr : forall s,
  launched s = true -> existsb isDisconnected arr = true ->
  keepRunning (fold_left deliver arr s) = false /\
  shuttingDown (fold_left deliver arr s) = true /\
  connected (fold_left deliver arr s) = false /\
  launched (fold_left deliver arr s) = true.
Proof.
  induction arr as [ | sig arr IH]; intros s L H; [discriminate H | ].
  cbn [existsb fold_left] in *.
  destruct sig; cbn [isDisconnected orb] in H.
  - apply IH; [ | exact H]. destruct (deliver_frame s SIGINT) as (_ & _ & _ & _ & E).
    now rewrite E.
  - apply deliver_all_gone. cbn. rewrite L. auto.
  - apply IH; [exact L | exact H].
Qed.

(** No screenshot after the interrupt: when the set-up goes through,
    [k] turns pass without incident and SIGINT arrives in the next turn
    before its screenshot is taken, that screenshot is not taken: the
    session ends, and the files it leaves are exactly 1.png ... k.png,
    whatever else arrives and whichever call raises in that turn. *)
Theorem capture_interrupt st quiet t rest :
  calmSetup st = true ->
  forallb calmTurn quiet = true ->
  existsb isSigint (beforeShot t) = true ->
  Z.of_nat (List.length quiet) + 1 < 2 ^ 53 ->
  let r := main st (quiet ++ t :: rest) in
  (exists status, fst r = Exited status) /\
  shots (snd r) = shotNames (List.length quiet).
Proof.
  intros Hst Hq Ht Hn. cbv zeta.
  unfold calmSetup in Hst. repeat (apply andb_prop in Hst as [Hst ?]).
  destruct (calm_fields (launch st)) as [L1 L2]; [assumption | ].
  destruct (calm_fields (newPage st)) as [N1 N2]; [assumption | ].
  destruct (calm_fields (evaluateOnNewDocument st)) as [E1 E2]; [assumption | ].
  destruct (calm_fields (goto st)) as [G1 G2]; [assumption | ].
  destruct (calm_fields (question st)) as [Q1 Q2]; [assumption | ].
  assert (B : body st (quiet ++ t :: rest) start =
              captureLoop (mousePosition (mouseMoves st)) (Num 1) (quiet ++ t :: rest)
                (snd (setLaunched start))).
  { rewrite body_cases. cbv zeta.
    rewrite L1, L2, N1, N2, E1, E2, G1, G2, Q1, Q2. cbn [fold_left].
    destruct (sessionDir st); [discriminate | ].
    destruct (outputDirCheck st); [discriminate | ].
    reflexivity. }
  set (xy := mousePosition (mouseMoves st)) in *.
  destruct (calm_prefix xy quiet 0 (snd (setLaunched start)) (t :: rest))
    as (s' & E & K & P & SD & _ & _ & _ & SH & _); try reflexivity; try assumption.
  { lia. }
  cbn [Nat.add] in E, SH. change (Z.of_nat 1) with 1 in E.
  rewrite E in B. clear E.
  rewrite captureLoop_cons in B. cbv zeta in B.
  rewrite turn_states, K, P in B. cbn [negb orb] in B.
  destruct (deliver_all_frame (arrivals (move t)) s') as (_ & F1 & _).
  destruct (deliver_all_frame (arrivals (click t))
              (fold_left deliver (preClick t) (fold_left deliver (arrivals (move t)) s')))
    as (_ & F3 & _).
  destruct (deliver_all_frame (preClick t) (fold_left deliver (arrivals (move t)) s'))
    as (_ & F2 & _).
  destruct (deliver_all_frame (beforeShot t) s') as (_ & F5 & _).
  set (s5 := snd (addClick xy (fold_left deliver (beforeShot t) s'))) in *.
  assert (K5 : keepRunning s5 = false).
  { subst s5. cbn. apply sigint_stops; [ | assumption].
    unfold flagsOk. rewrite SD. cbn. discriminate. }
  assert (S5 : shots s5 = shotNames (List.length quiet)) by (subst s5; cbn; congruence).
  rewrite K5 in B. cbn [negb orb] in B. clearbody s5.
  assert (Fin : forall r s,
             body st (quiet ++ t :: rest) start = (r, s) ->
             r <> Normal false ->
             shots s = shotNames (List.length quiet) ->
             (exists status, fst (main st (quiet ++ t :: rest)) = Exited status) /\
             shots (snd (main st (quiet ++ t :: rest))) = shotNames (List.length quiet)).
  { intros r s Hb Hr Hs.
    destruct (main_state st (quiet ++ t :: rest)) as [M _]. cbv zeta in M.
    rewrite Hb in M. cbn [snd] in M. split; [ | congruence].
    rewrite main_cases, Hb. cbv beta iota zeta.
    destruct r as [[ | ] | e]; [ | congruence | ]; cbn [fst]; eexists; reflexivity. }
  destruct (raised (move t)).
  { eapply Fin; [exact B | discriminate | congruence]. }
  destruct (raised (click t)).
  { eapply Fin; [exact B | discriminate | congruence]. }
  eapply Fin; [exact B | discriminate | exact S5].
Qed.

Lemma capture_interrupt_witness :
  shots (snd (main MoreExamples.calmSetup MoreExamples.fiveThenInterrupt)) = shotNames 5.
Proof.
  destruct (capture_interrupt MoreExamples.calmSetup
              [MoreExamples.calmTurn; MoreExamples.calmTurn; MoreExamples.calmTurn;
               MoreExamples.calmTurn; MoreExamples.calmTurn]
              MoreExamples.interruptedTurn [MoreExamples.calmTurn])
    as (_ & H);
    [reflexivity | reflexivity | reflexivity | reflexivity | exact H].
Defined.

(** The browser goes away: when the set-up goes through, [k] turns pass
    without incident and the browser disconnects while the next turn moves
    the mouse, the session ends with the files 1.png ... k.png and status
    0, whether or not the calls that follow raise, and it does not try to
    close the browser. *)
Theorem capture_disconnect st quiet t rest :
  calmSetup st = true ->
  forallb calmTurn quiet = true ->
  existsb isDisconnected (arrivals (move t)) = true ->
  Z.of_nat (List.length quiet) + 1 < 2 ^ 53 ->
  let r := main st (quiet ++ t :: rest) in
  fst r = Exited 0 /\
  shots (snd r) = shotNames (List.length quiet) /\
  closed (snd r) = false.
Proof.
  intros Hst Hq Ht Hn. cbv zeta.
  unfold calmSetup in Hst. repeat (apply andb_prop in Hst as [Hst ?]).
  destruct (calm_fields (launch st)) as [L1 L2]; [assumption | ].
  destruct (calm_fields (newPage st)) as [N1 N2]; [assumption | ].
  destruct (calm_fields (evaluateOnNewDocument st)) as [E1 E2]; [assumption | ].
  destruct (calm_fields (goto st)) as [G1 G2]; [assumption | ].
  destruct (calm_fields (question st)) as [Q1 Q2]; [assumption | ].
  assert (B : body st (quiet ++ t :: rest) start =
              captureLoop (mousePosition (mouseMoves st)) (Num 1) (quiet ++ t :: rest)
                (snd (setLaunched start))).
  { rewrite body_cases. cbv zeta.
    rewrite L1, L2, N1, N2, E1, E2, G1, G2, Q1, Q2. cbn [fold_left].
    destruct (sessionDir st); [discriminate | ].
    destruct (outputDirCheck st); [discriminate | ].
    reflexivity. }
  set (xy := mousePosition (mouseMoves st)) in *.
  destruct (calm_prefix xy quiet 0 (snd (setLaunched start)) (t :: rest))
    as (s' & E & K & P & SD & L & C & X & SH & CL); try reflexivity; try assumption.
  { lia. }
  cbn [Nat.add] in E, SH. change (Z.of_nat 1) with 1 in E.
  cbn in X, CL.
  rewrite E in B. clear E.
  rewrite captureLoop_cons in B. cbv zeta in B.
  rewrite K, P in B. cbn [negb orb] in B.
  destruct (disconnect_gone (arrivals (move t)) s' L Ht) as (K1 & S1 & C1 & L1').
  destruct (deliver_all_frame (arrivals (move t)) s') as (_ & MB2 & MB3 & MB4 & _).
  set (s1 := fold_left deliver (arrivals (move t)) s') in *.
  destruct (deliver_all_gone (preClick t) s1) as (K2 & S2 & C2 & L2'); [auto | ].
  destruct (deliver_all_frame (preClick t) s1) as (_ & PB2 & PB3 & PB4 & _).
  set (s2 := fold_left deliver (preClick t) s1) in *.
  destruct (deliver_all_gone (arrivals (click t)) s2) as (K3 & S3 & C3 & L3); [auto | ].
  destruct (deliver_all_frame (arrivals (click t)) s2) as (_ & CB2 & CB3 & CB4 & _).
  set (s3 := fold_left deliver (arrivals (click t)) s2) in *.
  destruct (deliver_all_gone (delay t) (snd (addClick xy s3))) as (K5 & S5 & C5 & L5);
    [cbn; auto | ].
  destruct (deliver_all_frame (delay t) (snd (addClick xy s3))) as (_ & DB2 & DB3 & DB4 & _).
  set (s5 := fold_left deliver (delay t) (snd (addClick xy s3))) in *.
  cbn [snd addClick modify shots exitCode closed] in DB2, DB3, DB4.
  rewrite K5 in B. cbn [negb orb] in B.
  assert (Fin : forall r s,
             body st (quiet ++ t :: rest) start = (r, s) ->
             r <> Normal false ->
             shuttingDown s = true -> connected s = false ->
             exitCode s = None -> shots s = shotNames (List.length quiet) ->
             closed s = false ->
             fst (main st (quiet ++ t :: rest)) = Exited 0 /\
             shots (snd (main st (quiet ++ t :: rest))) = shotNames (List.length quiet) /\
             closed (snd (main st (quiet ++ t :: rest))) = false).
  { intros r s Hb Hr Hs Hc Hx Hsh Hcl. rewrite main_cases, Hb. cbv beta iota zeta.
    destruct r as [[ | ] | e]; [ | congruence | ];
      rewrite ?Hs, Hc, andb_false_r; unfold exitStatus; cbn [fst snd];
      rewrite Hx; repeat split; assumption. }
  clearbody s1 s2 s3 s5.
  destruct (raised (move t)).
  { eapply Fin; [exact B | discriminate | congruence.. ]. }
  destruct (raised (click t)).
  { eapply Fin; [exact B | discriminate | congruence.. ]. }
  eapply Fin; [exact B | discriminate | congruence.. ].
Qed.

Lemma capture_disconnect_witness :
  fst (main MoreExamples.calmSetup
         [MoreExamples.calmTurn; MoreExamples.goneTurn; MoreExamples.calmTurn]) = Exited 0.
Proof.
  destruct (capture_disconnect MoreExamples.calmSetup [MoreExamples.calmTurn]
              MoreExamples.goneTurn [MoreExamples.calmTurn]) as (H & _);
    [reflexivity | reflexivity | reflexivity | reflexivity | exact H].
Defined.

End CaptureFacts.

(* ================================================================== *)
(** ** From the capture session to the listing *)
(* ================================================================== *)

Section CaptureThenList.
Import JsString JsNumber JsMore Capture CaptureSpec Spec.
Local Open Scope list_scope.

Lemma digitChar_digit d :
  0 <= d <= 9 -> isDigit (digitChar d) = true /\ digitValue (digitChar d) = d.
Proof.
  intros H.
  assert (C : d = 0 \/ d = 1 \/ d = 2 \/ d = 3 \/ d = 4 \/ d = 5 \/ d = 6 \/ d = 7
              \/ d = 8 \/ d = 9) by lia.
  repeat (destruct C as [-> | C]; [split; reflexivity | ]). subst d. split; reflexivity.
Qed.

Lemma digitsValue_app s1 : forall a s2,
  digitsValue a (s1 ++ s2)%string = digitsValue (digitsValue a s1) s2.
Proof.
  induction s1 as [ | c s1 IH]; intros a s2; [reflexivity | ].
  cbn [append digitsValue]. apply IH.
Qed.

Lemma all_app f s1 s2 :
  all f (s1 ++ s2)%string = all f s1 && all f s2.
Proof.
  induction s1 as [ | c s1 IH]; [reflexivity | ].
  cbn [append all]. now rewrite IH, andb_assoc.
Qed.

Lemma length_app s1 s2 :
  String.length (s1 ++ s2)%string = (String.length s1 + String.length s2)%nat.
Proof. induction s1 as [ | c s1 IH]; [reflexivity | cbn; now rewrite IH]. Qed.

Lemma decimal_S f n acc :
  decimal (S f) n acc =
  if n <? 10 then String (digitChar (n mod 10)) acc
  else decimal f (n / 10) (String (digitChar (n mod 10)) acc).
Proof. reflexivity. Qed.

(** The digits printed for [n] read back as [n]. *)
Lemma decimal_spec f : forall n acc,
  0 <= n < 10 ^ Z.of_nat (S f) ->
  exists D,
    decimal (S f) n acc = (D ++ acc)%string /\
    all isDigit D = true /\ D <> EmptyString /\
    forall a, digitsValue a D = a * 10 ^ Z.of_nat (String.length D) + n.
Proof.
  induction f as [ | f IH]; intros n acc Hn.
  - assert (Hd : 0 <= n mod 10 <= 9) by (pose proof (Z.mod_pos_bound n 10); lia).
    destruct (digitChar_digit _ Hd) as [D1 D2].
    exists (String (digitChar (n mod 10)) EmptyString).
    change (10 ^ Z.of_nat 1) with 10 in Hn.
    split; [ | split; [ | split]].
    + cbn [decimal]. destruct (n <? 10); reflexivity.
    + cbn [all]. now rewrite D1.
    + discriminate.
    + intros a. cbn [digitsValue String.length]. rewrite D2.
      rewrite Z.mod_small by lia. change (10 ^ Z.of_nat 1) with 10. lia.
  - assert (Hd : 0 <= n mod 10 <= 9) by (pose proof (Z.mod_pos_bound n 10); lia).
    destruct (digitChar_digit _ Hd) as [D1 D2].
    rewrite decimal_S.
    destruct (Z.ltb_spec n 10) as [Hlt | Hge].
    + exists (String (digitChar (n mod 10)) EmptyString).
      split; [reflexivity | split; [cbn [all]; now rewrite D1 | split; [discriminate | ]]].
      intros a. cbn [digitsValue String.length]. rewrite D2.
      rewrite Z.mod_small by lia. change (10 ^ Z.of_nat 1) with 10. lia.
    + destruct (IH (n / 10) (String (digitChar (n mod 10)) acc)) as (D & E & A & NE & V).
      { split; [apply Z.div_pos; lia | ].
        apply Z.div_lt_upper_bound; [lia | ].
        rewrite <- Z.pow_succ_r by lia. rewrite <- Nat2Z.inj_succ. lia. }
      exists (D ++ String (digitChar (n mod 10)) EmptyString)%string.
      split; [ | split; [ | split]].
      * rewrite E. now rewrite string_app_assoc.
      * rewrite all_app, A. cbn [all]. now rewrite D1.
      * destruct D; [congruence | discriminate].
      * intros a. rewrite digitsValue_app, V. cbn [digitsValue].
        rewrite D2, length_app. cbn [String.length].
        rewrite Nat.add_1_r, Nat2Z.inj_succ, Z.pow_succ_r by lia.
        pose proof (Z.div_mod n 10). lia.
Qed.

Lemma takeWhile_app_stop f D c r :
  all f D = true -> f c = false ->
  takeWhile f (D ++ String c r)%string = D.
Proof.
  intros HD Hc. induction D as [ | d D IH]; cbn [append takeWhile].
  - now rewrite Hc.
  - cbn [all] in HD. apply andb_prop in HD as [Hd HD]. now rewrite Hd, IH.
Qed.

(** The name of the [k]-th screenshot carries the key [k]. *)
Lemma screenshotName_key k :
  0 <= k <= 2 ^ 53 ->
  Ocr.sortKey (screenshotName (Num k)) = Num k.
Proof.
  intros Hk.
  destruct (decimal_spec 20 k EmptyString) as (D & E & A & NE & V).
  { split; [lia | ]. apply Z.le_lt_trans with (2 ^ 53); [lia | reflexivity]. }
  assert (Hname : screenshotName (Num k) = (D ++ ".png")%string).
  { unfold screenshotName, toString.
    destruct (Z.ltb_spec k 0); [lia | ]. rewrite E. now rewrite string_app_empty. }
  rewrite sortKey_small; unfold leadingInteger, Ocr.leadingDigits; rewrite Hname.
  - rewrite takeWhile_app_stop by (exact A || reflexivity).
    destruct D as [ | c D]; [congruence | ].
    cbn [orDefault truthy]. rewrite V. reflexivity.
  - rewrite takeWhile_app_stop by (exact A || reflexivity).
    destruct D as [ | c D]; [congruence | ].
    cbn [orDefault truthy]. rewrite V. lia.
Qed.

Lemma toLowerCase_app s1 s2 :
  toLowerCase (s1 ++ s2)%string = (toLowerCase s1 ++ toLowerCase s2)%string.
Proof. induction s1 as [ | c s1 IH]; [reflexivity | cbn; now rewrite IH]. Qed.

Lemma endsWith_app s p : endsWith (s ++ p)%string p = true.
Proof.
  induction s as [ | c s IH].
  - cbn [append]. destruct p; cbn [endsWith]; now rewrite String.eqb_refl.
  - cbn [append endsWith]. rewrite IH. apply orb_true_r.
Qed.

Lemma isPng_png stem : Ocr.isPng (stem ++ ".png")%string = true.
Proof. unfold Ocr.isPng. rewrite toLowerCase_app. apply endsWith_app. Qed.

Lemma shotNames_sorted n : forall first,
  Z.of_nat (first + n) <= 2 ^ 53 + 1 ->
  StronglySorted keyLe
    (map (fun k => screenshotName (Num (Z.of_nat k))) (seq first n)).
Proof.
  induction n as [ | n IH]; intros first Hb; cbn [seq map]; constructor.
  - apply IH. lia.
  - apply Forall_forall. intros name Hin.
    apply in_map_iff in Hin as (k & <- & Hk). apply in_seq in Hk.
    unfold keyLe. rewrite !screenshotName_key by lia. cbn. lia.
Qed.

Lemma shotNames_distinct n a b :
  Z.of_nat n <= 2 ^ 53 ->
  In a (shotNames n) -> In b (shotNames n) -> sameKey a b = true -> a = b.
Proof.
  intros Hn Ha Hb. unfold shotNames in Ha, Hb.
  apply in_map_iff in Ha as (i & <- & Hi). apply in_seq in Hi.
  apply in_map_iff in Hb as (j & <- & Hj). apply in_seq in Hj.
  unfold sameKey. rewrite !screenshotName_key by lia.
  intros H. apply Z.eqb_eq in H. now replace j with i by lia.
Qed.

(** Two sorted arrangements of names with pairwise different keys are
    the same list. *)
Lemma sorted_unique_distinct l1 : forall l2,
  Permutation l1 l2 ->
  StronglySorted keyLe l1 -> StronglySorted keyLe l2 ->
  (forall a b, In a l2 -> In b l2 -> sameKey a b = true -> a = b) ->
  l1 = l2.
Proof.
  induction l1 as [ | x l1 IH]; intros l2 Hperm Hs1 Hs2 Hd.
  - now apply Permutation_nil in Hperm.
  - destruct l2 as [ | y l2]; [now apply Permutation_sym, Permutation_nil in Hperm | ].
    inversion Hs1 as [ | ? ? Hs1' Hx]; subst.
    inversion Hs2 as [ | ? ? Hs2' Hy]; subst.
    rewrite Forall_forall in Hx, Hy.
    assert (Hin1 : In y (x :: l1))
      by (eapply Permutation_in; [symmetry; exact Hperm | now left]).
    assert (Hin2 : In x (y :: l2))
      by (eapply Permutation_in; [exact Hperm | now left]).
    assert (Heq : x = y).
    { destruct Hin1 as [-> | Hin1]; [reflexivity | ].
      destruct Hin2 as [-> | Hin2']; [reflexivity | ].
      apply Hd; [now right | now left | ].
      apply keyLe_antisym; [now apply Hx | now apply Hy]. }
    subst y. f_equal. apply IH; try assumption.
    + eapply Permutation_cons_inv, Hperm.
    + intros a b Ha Hb. apply Hd; now right.
Qed.

(** The screenshots of a capture session come back in the order they
    were taken: a directory whose [.png] entries are 1.png ... n.png, in
    whatever order and among whatever other files, is listed as 1.png,
    2.png, ..., n.png; and every name the session writes passes the
    [.png] filter. *)
Theorem capture_then_list w allFiles n :
  (0 < n)%nat -> Z.of_nat n <= 2 ^ 53 ->
  fs_readdir w (Ocr.screenshotsDir w) = FsOk allFiles ->
  Permutation (filter Ocr.isPng allFiles) (shotNames n) ->
  Ocr.getScreenshotFiles w = Normal (shotNames n) /\
  (forall i, Ocr.isPng (screenshotName i) = true).
Proof.
  intros Hpos Hn Hdir Hperm.
  split; [ | intros i; apply isPng_png].
  rewrite getScreenshotFiles_cases, Hdir.
  destruct (filter Ocr.isPng allFiles) as [ | f q] eqn:Hq.
  - apply Permutation_nil in Hperm. destruct n; [lia | ].
    rewrite shotNames_S in Hperm. now destruct (shotNames n).
  - f_equal. apply sorted_unique_distinct.
    + etransitivity; [apply sort_perm | exact Hperm].
    + apply sorted_listing.
    + apply shotNames_sorted. lia.
    + intros a b. now apply shotNames_distinct.
Qed.

Lemma capture_then_list_witness :
  Ocr.getScreenshotFiles MoreExamples.captureWorld = Normal (shotNames 3).
Proof.
  destruct (capture_then_list MoreExamples.captureWorld
              ["3.png"; "notes.txt"; "1.png"; "2.png"] 3) as [H _].
  - lia.
  - vm_compute. discriminate.
  - reflexivity.
  - change (filter Ocr.isPng ["3.png"; "notes.txt"; "1.png"; "2.png"])
      with ["3.png"; "1.png"; "2.png"].
    change (shotNames 3) with ["1.png"; "2.png"; "3.png"].
    apply Permutation_cons_app with (l1 := ["1.png"; "2.png"]) (l2 := []).
    reflexivity.
  - exact H.
Defined.

End CaptureThenList.

(* ================================================================== *)
(** ** More on the listing *)
(* ================================================================== *)

Section ListingMore.
Import JsString JsNumber JsMore Spec.
Local Open Scope list_scope.

(** The listing does not depend on the sorting algorithm of the engine:
    every arrangement of the [.png] entries that is sorted by key and
    keeps entries of equal key in directory order is the listing
    returned. *)
Theorem listing_unique w allFiles l :
  fs_readdir w (Ocr.screenshotsDir w) = FsOk allFiles ->
  filter Ocr.isPng allFiles <> [] ->
  Permutation l (filter Ocr.isPng allFiles) ->
  StronglySorted keyLe l ->
  (forall f, filter (sameKey f) l = filter (sameKey f) (filter Ocr.isPng allFiles)) ->
  Ocr.getScreenshotFiles w = Normal l.
Proof.
  intros Hdir Hne Hperm Hsorted Hstable.
  rewrite getScreenshotFiles_cases, Hdir.
  destruct (filter Ocr.isPng allFiles) as [ | f q] eqn:Hq; [congruence | ].
  f_equal. apply stable_sorted_unique.
  - etransitivity; [apply sort_perm | symmetry; exact Hperm].
  - apply sorted_listing.
  - exact Hsorted.
  - intros g. now rewrite stable_listing, Hstable.
Qed.

Lemma listing_unique_witness :
  Ocr.getScreenshotFiles Examples.smallWorld = Normal ["1.png"; "2.png"; "10.png"].
Proof.
  apply (listing_unique Examples.smallWorld ["2.png"; "10.png"; "1.png"]).
  - reflexivity.
  - vm_compute. discriminate.
  - change (filter Ocr.isPng ["2.png"; "10.png"; "1.png"]) with ["2.png"; "10.png"; "1.png"].
    apply Permutation_sym, Permutation_cons_app with (l1 := ["1.png"]) (l2 := ["10.png"]).
    apply Permutation_sym, Permutation_cons_app with (l1 := ["10.png"]) (l2 := []).
    reflexivity.
  - repeat constructor; unfold keyLe; vm_compute; discriminate.
  - intros f. change (filter Ocr.isPng ["2.png"; "10.png"; "1.png"])
      with ["2.png"; "10.png"; "1.png"].
    cbn [filter]. unfold sameKey.
    change (Ocr.sortKey "1.png") with (Num 1).
    change (Ocr.sortKey "2.png") with (Num 2).
    change (Ocr.sortKey "10.png") with (Num 10).
    destruct (Ocr.sortKey f) as [ | z | | ]; try reflexivity.
    destruct (Z.eqb_spec z 1), (Z.eqb_spec z 2), (Z.eqb_spec z 10);
      try reflexivity; lia.
Defined.

Lemma ltZero_ofInteger d : ltZero (ofInteger d) = (d <? 0).
Proof.
  unfold ofInteger.
  destruct (Z.leb_spec 0 d) as [Hd | Hd].
  - destruct (roundNat d) as [v | ] eqn:Hr; cbn.
    + destruct (Z.eq_dec d 0) as [-> | Hnz].
      * rewrite roundNat_zero in Hr. now injection Hr as <-.
      * apply roundNat_pos in Hr; [ | lia].
        destruct (Z.ltb_spec v 0), (Z.ltb_spec d 0); try reflexivity; lia.
    + destruct (Z.ltb_spec d 0); [lia | reflexivity].
  - destruct (roundNat (- d)) as [v | ] eqn:Hr; cbn.
    + apply roundNat_pos in Hr; [ | lia].
      destruct (Z.ltb_spec (- v) 0), (Z.ltb_spec d 0); try reflexivity; lia.
    + destruct (Z.ltb_spec d 0); [reflexivity | lia].
Qed.

(** The comparator is consistent: swapping its arguments swaps the
    sign, it answers neither above nor below zero exactly on names of the
    same key, and "not above" is transitive. *)
Theorem numericalSort_consistent a b c :
  ltZero (Ocr.numericalSort a b) = gtZero (Ocr.numericalSort b a) /\
  (sameKey a b = negb (gtZero (Ocr.numericalSort a b))
                 && negb (ltZero (Ocr.numericalSort a b))) /\
  (gtZero (Ocr.numericalSort a b) = false ->
   gtZero (Ocr.numericalSort b c) = false ->
   gtZero (Ocr.numericalSort a c) = false).
Proof.
  unfold Ocr.numericalSort, sameKey.
  pose proof (sortKey_isKey a) as Ha. pose proof (sortKey_isKey b) as Hb.
  pose proof (sortKey_isKey c) as Hc.
  destruct (Ocr.sortKey a) as [ | x | | ], (Ocr.sortKey b) as [ | y | | ],
    (Ocr.sortKey c) as [ | z | | ]; cbn in Ha, Hb, Hc; try contradiction;
    cbn [sub gtZero ltZero negb andb];
    rewrite ?gtZero_ofInteger, ?ltZero_ofInteger;
    (split; [ | split]); try reflexivity; try discriminate; try (intros; reflexivity).
  all: try (destruct (Z.ltb_spec (x - y) 0), (Z.ltb_spec 0 (y - x)); try reflexivity; lia).
  all: try (destruct (Z.eqb_spec x y), (Z.ltb_spec 0 (x - y)), (Z.ltb_spec (x - y) 0);
            try reflexivity; lia).
  all: intros H1 H2; apply Z.ltb_ge in H1, H2; apply Z.ltb_ge; lia.
Qed.

Lemma numericalSort_consistent_witness :
  gtZero (Ocr.numericalSort "1.png" "10.png") = false.
Proof.
  destruct (numericalSort_consistent "1.png" "2.png" "10.png") as (_ & _ & H).
  apply H; reflexivity.
Defined.

Lemma endsWith_elim s p : endsWith s p = true -> exists a, s = (a ++ p)%string.
Proof.
  induction s as [ | c s IH]; cbn [endsWith]; intros H.
  - rewrite orb_false_r in H. apply String.eqb_eq in H. exists EmptyString. now subst.
  - apply orb_prop in H as [H | H].
    + apply String.eqb_eq in H. exists EmptyString. now subst.
    + destruct (IH H) as [a ->]. exists (String c a). reflexivity.
Qed.

Lemma toLowerCase_split a : forall s b,
  toLowerCase s = (a ++ b)%string ->
  exists s1 s2, s = (s1 ++ s2)%string /\ toLowerCase s1 = a /\ toLowerCase s2 = b.
Proof.
  induction a as [ | c a IH]; intros s b H.
  - exists EmptyString, s. repeat split. exact H.
  - destruct s as [ | x s]; [discriminate H | ].
    cbn [toLowerCase append] in H. injection H as Hx Hs.
    destruct (IH s b Hs) as (s1 & s2 & -> & H1 & H2).
    exists (String x s1), s2. cbn [append toLowerCase]. now rewrite Hx, H1, H2.
Qed.

(** A directory entry passes the filter exactly when it ends with
    [.png] written in any mix of upper and lower case. *)
Theorem isPng_iff file :
  Ocr.isPng file = true <->
  exists stem ext, file = (stem ++ ext)%string /\ toLowerCase ext = ".png"%string.
Proof.
  unfold Ocr.isPng. split.
  - intros H. apply endsWith_elim in H as [a Ha].
    apply toLowerCase_split in Ha as (s1 & s2 & -> & _ & H2). now exists s1, s2.
  - intros (stem & ext & -> & H). rewrite toLowerCase_app, H. apply endsWith_app.
Qed.

Lemma isPng_iff_witness : Ocr.isPng "Shot 12.PnG" = true.
Proof.
  apply (proj2 (isPng_iff "Shot 12.PnG")). exists "Shot 12"%string, ".PnG"%string.
  split; reflexivity.
Defined.

(** A listing that fails stops the text assembler before it writes
    anything; an error of the file system other than ENOENT reaches the
    caller of the listing as it is. *)
Theorem listing_failure_aborts w :
  (forall code,
      fs_readdir w (Ocr.screenshotsDir w) = FsError code ->
      code <> "ENOENT"%string ->
      Ocr.getScreenshotFiles w = Throw (SystemError code)) /\
  (forall e d,
      Ocr.getScreenshotFiles w = Throw e ->
      Ocr.generateMarkdownFile w d = (Normal tt, d)).
Proof.
  split.
  - intros code Hdir Hcode. rewrite getScreenshotFiles_cases, Hdir.
    destruct (String.eqb_spec code "ENOENT"); [contradiction | reflexivity].
  - intros e d H. unfold Ocr.generateMarkdownFile. now rewrite H.
Qed.

Lemma listing_failure_aborts_witness :
  Ocr.getScreenshotFiles MoreExamples.lockedWorld = Throw (SystemError "EACCES") /\
  Ocr.generateMarkdownFile MoreExamples.lockedWorld Examples.usedDisk =
    (Normal tt, Examples.usedDisk).
Proof.
  destruct (listing_failure_aborts MoreExamples.lockedWorld) as [H1 H2].
  split.
  - apply H1; [reflexivity | discriminate].
  - apply (H2 (SystemError "EACCES")). apply H1; [reflexivity | discriminate].
Defined.

End ListingMore.

(* ================================================================== *)
(** ** Configuration at start-up *)
(* ================================================================== *)

Section StartUpMore.
Import JsString JsNumber JsMore.

Lemma includes_app_r a b p : includes b p = true -> includes (a ++ b)%string p = true.
Proof.
  intros H. induction a as [ | c a IH]; [exact H | ].
  cbn [append includes]. rewrite IH. apply orb_true_r.
Qed.

Lemma startsWith_prefix p r : startsWith p (p ++ r)%string = true.
Proof.
  induction p as [ | c p IH]; [reflexivity | ].
  cbn [append startsWith]. now rewrite Ascii.eqb_refl, IH.
Qed.

Lemma startsWith_refl p : startsWith p p = true.
Proof.
  induction p as [ | c p IH]; [reflexivity | ].
  cbn [startsWith]. now rewrite Ascii.eqb_refl, IH.
Qed.

Lemma includes_nonempty s p :
  includes s p = true -> p <> EmptyString -> JsString.truthy s = true.
Proof.
  destruct s as [ | c s]; [ | reflexivity].
  destruct p as [ | d p]; [congruence | discriminate].
Qed.

(** The option for the HTTP parser is set once: after the first
    statement of [ocr.js] the variable NODE_OPTIONS names the option, what
    it held before comes first and is kept, a value that names the option
    already is left as it is, and running the statement again changes
    nothing.  From an unset variable the value is the option with 1800000
    milliseconds. *)
Theorem setNodeOptions_once NODE_OPTIONS :
  exists s,
    OcrTimeout.setNodeOptions NODE_OPTIONS = Some s /\
    includes s OcrTimeout.flag = true /\
    startsWith (orDefault NODE_OPTIONS "") s = true /\
    OcrTimeout.setNodeOptions (Some s) = Some s /\
    (forall old, NODE_OPTIONS = Some old -> includes old OcrTimeout.flag = true -> s = old) /\
    OcrTimeout.setNodeOptions None = Some " --http-parser-timeout=1800000"%string.
Proof.
  assert (Hkeep : forall s, includes s OcrTimeout.flag = true ->
                            OcrTimeout.setNodeOptions (Some s) = Some s).
  { intros s H. unfold OcrTimeout.setNodeOptions.
    rewrite H, (includes_nonempty s OcrTimeout.flag H) by discriminate. reflexivity. }
  set (suffix := (" --http-parser-timeout=" ++ toString (Num OcrTimeout.TIMEOUT_MS))%string).
  assert (Hsuffix : includes suffix OcrTimeout.flag = true) by (vm_compute; reflexivity).
  assert (Hnew : forall v,
             includes (orDefault v "" ++ suffix)%string OcrTimeout.flag = true)
    by (intros v; now apply includes_app_r).
  destruct NODE_OPTIONS as [old | ].
  - destruct (includes old OcrTimeout.flag) eqn:Hold.
    + exists old. rewrite Hkeep by exact Hold.
      split; [reflexivity | split; [exact Hold | split; [ | split; [reflexivity | split]]]].
      * unfold orDefault. rewrite (includes_nonempty old _ Hold) by discriminate.
        apply startsWith_refl.
      * intros old' [= <-] _. reflexivity.
      * vm_compute. reflexivity.
    + exists (orDefault (Some old) "" ++ suffix)%string.
      split; [ | split; [apply Hnew | split; [apply startsWith_prefix | split; [ | split]]]].
      * unfold OcrTimeout.setNodeOptions. rewrite Hold. cbn [negb].
        rewrite orb_true_r. reflexivity.
      * apply Hkeep, Hnew.
      * intros old' [= <-] H. congruence.
      * vm_compute. reflexivity.
  - exists (orDefault None "" ++ suffix)%string.
    split; [reflexivity | split; [apply Hnew | split; [apply startsWith_prefix | ]]].
    split; [apply Hkeep, Hnew | split; [discriminate | vm_compute; reflexivity]].
Qed.

Lemma setNodeOptions_once_witness :
  OcrTimeout.setNodeOptions (Some "--inspect --http-parser-timeout=5"%string) =
  Some "--inspect --http-parser-timeout=5"%string.
Proof.
  destruct (setNodeOptions_once (Some "--inspect --http-parser-timeout=5"%string))
    as (s & H1 & _ & _ & _ & H5 & _).
  rewrite H1. f_equal. apply H5; reflexivity.
Defined.

(** What passes the validation of [move-shot.js]: a target that is set
    and not empty, and a delay above zero, which is the number read from
    DELAY_MS or the default 1000 (taken also for 0 and for a value that is
    no number).  What does not pass exits with status 1: a missing or
    empty target, or a negative delay. *)
Theorem validated_configuration env :
  (forall url d,
      MoveShot.inputValidation env = MoveShot.Launch url d ->
      MoveShot.TARGET_URL env = Some url /\ url <> EmptyString /\
      gtZero d = true /\
      (d = parseInt (MoveShot.ToString (MoveShot.DELAY_MS env)) \/ d = Num 1000)) /\
  (forall status,
      MoveShot.inputValidation env = MoveShot.Exit status ->
      status = 1 /\
      (orDefault (MoveShot.TARGET_URL env) "" = EmptyString \/
       ltZero (parseInt (MoveShot.ToString (MoveShot.DELAY_MS env))) = true)).
Proof.
  unfold MoveShot.inputValidation, MoveShot.targetUrl, MoveShot.delayMs, JsNumber.or.
  destruct (MoveShot.TARGET_URL env) as [[ | c url] | ]; cbn [negb JsString.truthy orDefault].
  - split; [discriminate | intros status [= <-]; auto].
  - destruct (parseInt (MoveShot.ToString (MoveShot.DELAY_MS env))) as [ | z | | ];
      cbn [truthy isNaN ltZero orb].
    + split; [ | discriminate]. intros u d [= <- <-].
      repeat split; [discriminate | now right].
    + destruct (Z.eqb_spec z 0) as [-> | Hz]; cbn [negb isNaN ltZero orb].
      * split; [ | discriminate]. intros u d [= <- <-].
        repeat split; [discriminate | now right].
      * destruct (Z.ltb_spec z 0) as [Hneg | Hpos].
        -- split; [discriminate | ]. intros status [= <-]. auto.
        -- split; [ | discriminate]. intros u d [= <- <-].
           repeat split; [discriminate | | now left].
           apply Z.ltb_lt. lia.
    + split; [ | discriminate]. intros u d [= <- <-].
      repeat split; [discriminate | now left].
    + split; [discriminate | ]. intros status [= <-]. auto.
  - split; [discriminate | intros status [= <-]; auto].
Qed.

Lemma validated_configuration_witness :
  MoveShot.TARGET_URL Examples.badDelayEnv = Some "https://example.com/book"%string /\
  gtZero (Num 1000) = true.
Proof.
  destruct (validated_configuration Examples.badDelayEnv) as [H _].
  destruct (H "https://example.com/book"%string (Num 1000)) as (Hu & _ & Hd & _).
  - reflexivity.
  - split; [exact Hu | exact Hd].
Defined.

End StartUpMore.

(* ================================================================== *)
(** ** More on the cleanup of the answer *)
(* ================================================================== *)

Section CleanupMore.
Import JsString MoreSpec Spec.

Lemma dropWhile_suffix f s : exists pre, s = (pre ++ dropWhile f s)%string.
Proof.
  induction s as [ | c s [pre IH]]; [now exists EmptyString | ].
  cbn [dropWhile]. destruct (f c).
  - exists (String c pre). cbn [append]. now rewrite <- IH.
  - now exists EmptyString.
Qed.

Lemma skip_suffix n : forall s, exists pre, s = (pre ++ skip n s)%string.
Proof.
  induction n as [ | n IH]; intros s; [now exists EmptyString | ].
  destruct s as [ | c s]; [now exists EmptyString | ].
  destruct (IH s) as [pre H]. exists (String c pre). cbn [skip append]. now rewrite <- H.
Qed.

Lemma trimEnd_prefix s : exists post, s = (trimEnd s ++ post)%string.
Proof.
  induction s as [ | c s [post IH]]; [now exists EmptyString | ].
  cbn [trimEnd]. destruct (all isWhiteSpace (String c s)).
  - now exists (String c s).
  - exists post. cbn [append]. now rewrite <- IH.
Qed.

Lemma stripOpeningFence_suffix s :
  exists pre, s = (pre ++ Ocr.stripOpeningFence s)%string.
Proof.
  unfold Ocr.stripOpeningFence.
  destruct (startsWith Ocr.fence s); [ | now exists EmptyString].
  destruct (skip_suffix 3 s) as [p1 H1].
  set (r := skip 3 s) in *.
  assert (H2 : exists p2, r = (p2 ++ (if startsWith "markdown" r then skip 8 r else r))%string).
  { destruct (startsWith "markdown" r); [apply skip_suffix | now exists EmptyString]. }
  destruct H2 as [p2 H2].
  destruct (dropWhile_suffix isWhiteSpace (if startsWith "markdown" r then skip 8 r else r))
    as [p3 H3].
  exists (p1 ++ p2 ++ p3)%string.
  rewrite !string_app_assoc, <- H3, <- H2. exact H1.
Qed.

(** The cleanup only removes: the text returned stands in the answer of
    the service as it is, between what was cut off in front and behind. *)
Theorem cleanup_infix content :
  exists pre post,
    content = (pre ++ Ocr.cleanup content ++ post)%string /\
    (String.length (Ocr.cleanup content) <= String.length content)%nat.
Proof.
  unfold Ocr.cleanup, trim.
  destruct (dropWhile_suffix isWhiteSpace content) as [p1 H1]. fold (trimStart content) in H1.
  destruct (trimEnd_prefix (trimStart content)) as [q1 H2].
  destruct (stripOpeningFence_suffix (trimEnd (trimStart content))) as [p2 H3].
  destruct (stripClosingFence_prefix (Ocr.stripOpeningFence (trimEnd (trimStart content))))
    as [q2 H4].
  set (r := Ocr.stripClosingFence _) in *.
  assert (E : content = ((p1 ++ p2) ++ r ++ (q2 ++ q1))%string).
  { rewrite H1 at 1. rewrite H2 at 1. rewrite H3 at 1. rewrite H4 at 1.
    now rewrite !string_app_assoc. }
  exists (p1 ++ p2)%string, (q2 ++ q1)%string. split; [exact E | ].
  clearbody r. rewrite E, !length_app. lia.
Qed.

Lemma trimEnd_id s : endsWithSpace s = false -> trimEnd s = s.
Proof.
  induction s as [ | c s IH]; [reflexivity | ]. intros H.
  cbn [trimEnd]. destruct (all isWhiteSpace (String c s)) eqn:Hall.
  - rewrite all_space_ends in H; [discriminate | exact Hall | discriminate].
  - f_equal. apply IH. eapply tail_no_trailing_space, H.
Qed.

Lemma stripClosingFence_after a :
  noBacktick a = true -> Ocr.stripClosingFence (a ++ "```")%string = a.
Proof.
  induction a as [ | c a IH]; [reflexivity | ].
  unfold noBacktick. cbn [all]. intros H. apply andb_prop in H as [Hc Ha].
  cbn [append Ocr.stripClosingFence].
  assert (Hhere : Ocr.closesHere (String c (a ++ "```")) = false).
  { unfold Ocr.closesHere, Ocr.fence. cbn [startsWith].
    rewrite Ascii.eqb_sym. apply negb_true_iff in Hc. now rewrite Hc. }
  rewrite Hhere. f_equal. now apply IH.
Qed.

Lemma noBacktick_app a b :
  noBacktick (a ++ b)%string = noBacktick a && noBacktick b.
Proof. unfold noBacktick. apply all_app. Qed.

(** The usual answer of the model, unwrapped: for a text without
    backticks that does not begin with white space, wrapped in a code
    fence with or without the word markdown, the cleanup returns the text
    followed by the line feed that stood in front of the closing fence. *)
Theorem cleanup_fenced tag body :
  tag = EmptyString \/ tag = "markdown"%string ->
  body <> EmptyString ->
  beginsWithSpace body = false ->
  noBacktick body = true ->
  Ocr.cleanup ("```" ++ tag ++ LF ++ body ++ LF ++ "```")%string = (body ++ LF)%string.
Proof.
  intros Htag Hne Hb Hbt.
  destruct body as [ | c body]; [congruence | ]. cbn [beginsWithSpace] in Hb.
  set (inner := (String c body ++ LF ++ "```")%string).
  assert (Hinner : Ocr.stripClosingFence inner = (String c body ++ LF)%string).
  { subst inner. rewrite <- string_app_assoc. apply stripClosingFence_after.
    rewrite noBacktick_app, Hbt. reflexivity. }
  assert (Hopen : Ocr.stripOpeningFence ("```" ++ tag ++ LF ++ inner)%string = inner).
  { destruct Htag as [-> | ->]; unfold Ocr.stripOpeningFence, inner;
      cbn -[isWhiteSpace]; now rewrite Hb. }
  assert (Htrim : trim ("```" ++ tag ++ LF ++ inner)%string
                  = ("```" ++ tag ++ LF ++ inner)%string).
  { unfold trim. replace (trimStart ("```" ++ tag ++ LF ++ inner)%string)
      with ("```" ++ tag ++ LF ++ inner)%string by reflexivity.
    apply trimEnd_id. subst inner.
    rewrite <- !string_app_assoc. rewrite endsWithSpace_app by discriminate. reflexivity. }
  unfold Ocr.cleanup. fold inner. now rewrite Htrim, Hopen, Hinner.
Qed.

Lemma cleanup_fenced_witness :
  Ocr.cleanup ("```" ++ "markdown" ++ LF ++ "Call me Ishmael." ++ LF ++ "```")%string =
  ("Call me Ishmael." ++ LF)%string.
Proof.
  apply (cleanup_fenced "markdown" "Call me Ishmael.");
    [now right | discriminate | reflexivity | reflexivity].
Defined.

End CleanupMore.

(* ================================================================== *)
(** ** The assemblers when writes fail *)
(* ================================================================== *)

Section AssemblersMore.
Import JsString PdfLib Spec MoreSpec.
Local Open Scope list_scope.

Lemma fs_write_clock {D} w path (update : option D -> D) broken d :
  clock (snd (fs_write w path update broken d)) = S (clock d).
Proof. unfold fs_write. destruct (fs_write_fails w (clock d)); reflexivity. Qed.

Lemma fs_write_other {D} w path (update : option D -> D) broken d q :
  q <> path -> files (snd (fs_write w path update broken d)) q = files d q.
Proof.
  intros Hq. unfold fs_write.
  destruct (fs_write_fails w (clock d)); cbn [snd files];
    [destruct (fs_write_reached w (clock d)); [ | reflexivity] | ];
    unfold store; destruct (String.eqb_spec q path); (contradiction || reflexivity).
Qed.

(** A write that fails raises, and leaves the file as it was or with a
    part of the data. *)
Lemma fs_write_failed {D} w path (update : option D -> D) broken d :
  fs_write_fails w (clock d) = true ->
  (exists e, fst (fs_write w path update broken d) = Throw e) /\
  files (snd (fs_write w path update broken d)) path =
    match fs_write_reached w (clock d) with
    | Some k => Some (broken k (files d path))
    | None => files d path
    end.
Proof.
  intros H. unfold fs_write. rewrite H. split; [eexists; reflexivity | ].
  cbn [snd files]. destruct (fs_write_reached w (clock d)); [apply store_same | reflexivity].
Qed.

Lemma appendPage_run w f d :
  Ocr.appendPage w f d = appendFile w (Ocr.markdownOutputFile w) (chunkOf w f) d.
Proof.
  unfold Ocr.appendPage, bind, lift. rewrite performOcrOnImage_returns. reflexivity.
Qed.

(** The loop up to the first write that fails: the chunks written
    before it are in the file, followed by what the failed write left of
    the next one. *)
Lemma textLoop_partial w listing : forall j d cur,
  files d (Ocr.markdownOutputFile w) = Some cur ->
  (j <= List.length listing)%nat ->
  (forall i, (i < j)%nat -> fs_write_fails w (clock d + i) = false) ->
  ((j < List.length listing)%nat -> fs_write_fails w (clock d + j) = true) ->
  files (snd (for_of listing (Ocr.appendPage w) d)) (Ocr.markdownOutputFile w) =
    Some (cur ++ concatAll (map (chunkOf w) (firstn j listing))
          ++ residue w (chunkOf w) listing j (clock d + j))%string.
Proof.
  induction listing as [ | f listing IH]; intros j d cur Hcur Hj Hok Hfail.
  - cbn [List.length] in Hj. replace j with 0%nat by lia.
    cbn. now rewrite Hcur, !string_app_empty.
  - cbn [for_of]. unfold bind. rewrite appendPage_run. unfold appendFile.
    cbn [List.length] in Hj, Hfail.
    destruct j as [ | j].
    + cbn [firstn map concatAll append]. unfold residue. cbn [nth_error].
      rewrite Nat.add_0_r in *.
      match goal with |- context [fs_write w ?p ?u ?b d] =>
        destruct (fs_write_failed w p u b d) as [[e He] Hfiles] end.
      { apply Hfail. lia. }
      destruct (fs_write w _ _ _ d) as [r d']. cbn [fst snd] in *. subst r.
      cbn [snd]. rewrite Hfiles, Hcur.
      destruct (fs_write_reached w (clock d)); [reflexivity | ].
      now rewrite string_app_empty.
    + match goal with |- context [fs_write w ?p ?u ?b d] =>
        destruct (fs_write_ok w p u b d) as [H1 H2];
          [ | pose proof (fs_write_clock w p u b d) as Hclock] end.
      { rewrite <- (Nat.add_0_r (clock d)). apply Hok. lia. }
      destruct (fs_write w _ _ _ d) as [r d']. cbn [fst snd] in *. subst r.
      rewrite Hcur in H2.
      rewrite (IH j d' _ H2).
      * cbn [firstn map concatAll]. unfold residue. cbn [nth_error].
        rewrite Hclock, !string_app_assoc.
        now replace (S (clock d) + j)%nat with (clock d + S j)%nat by lia.
      * lia.
      * intros i Hi. rewrite Hclock.
        replace (S (clock d) + i)%nat with (clock d + S i)%nat by lia. apply Hok. lia.
      * intros Hlt. rewrite Hclock.
        replace (S (clock d) + j)%nat with (clock d + S j)%nat by lia. apply Hfail. lia.
Qed.

Lemma textLoop_other w listing q : forall d,
  q <> Ocr.markdownOutputFile w ->
  files (snd (for_of listing (Ocr.appendPage w) d)) q = files d q.
Proof.
  induction listing as [ | f listing IH]; intros d Hq; [reflexivity | ].
  cbn [for_of]. unfold bind. rewrite appendPage_run. unfold appendFile.
  match goal with |- context [fs_write w ?p ?u ?b d] =>
    pose proof (fs_write_other w p u b d q Hq) as Ho end.
  destruct (fs_write w _ _ _ d) as [[[] | e] d']; cbn [snd] in *.
  - now rewrite IH.
  - exact Ho.
Qed.

(** Partial output survives: when the header and the chunks of the
    first [j] pages are written and the next write fails, the text
    assembler stops there and returns normally; the artifact holds the
    header, those [j] chunks, and after them what the failed write left
    of the next chunk: nothing when the file could not be opened, and the
    first units of the chunk when the write broke off. *)
Theorem text_assembly_partial w d listing j :
  Ocr.getScreenshotFiles w = Normal listing ->
  (j <= List.length listing)%nat ->
  (forall i, (i <= j)%nat -> fs_write_fails w (clock d + i) = false) ->
  ((j < List.length listing)%nat -> fs_write_fails w (clock d + S j) = true) ->
  fst (Ocr.generateMarkdownFile w d) = Normal tt /\
  files (snd (Ocr.generateMarkdownFile w d)) (Ocr.markdownOutputFile w) =
    Some (Ocr.header ++ concatAll (map (chunkOf w) (firstn j listing))
          ++ residue w (chunkOf w) listing j (clock d + S j))%string.
Proof.
  intros Hl Hj Hok Hfail. unfold Ocr.generateMarkdownFile. rewrite Hl.
  unfold try_catch, bind, writeFile.
  match goal with |- context [fs_write w ?p ?u ?b d] =>
    destruct (fs_write_ok w p u b d) as [H1 H2];
      [ | pose proof (fs_write_clock w p u b d) as Hc] end.
  { rewrite <- (Nat.add_0_r (clock d)). apply Hok. lia. }
  destruct (fs_write w _ _ _ d) as [r d0]. cbn [fst snd] in H1, H2, Hc. subst r.
  cbv beta iota.
  pose proof (textLoop_partial w listing j d0 _ H2 Hj) as L.
  rewrite Hc in L.
  assert (L1 : forall i, (i < j)%nat -> fs_write_fails w (S (clock d) + i) = false).
  { intros i Hi. replace (S (clock d) + i)%nat with (clock d + S i)%nat by lia.
    apply Hok. lia. }
  assert (L2 : (j < List.length listing)%nat -> fs_write_fails w (S (clock d) + j) = true).
  { intros Hlt. replace (S (clock d) + j)%nat with (clock d + S j)%nat by lia.
    now apply Hfail. }
  specialize (L L1 L2).
  replace (S (clock d) + j)%nat with (clock d + S j)%nat in L by lia.
  destruct (for_of listing (Ocr.appendPage w) d0) as [[[] | e] d1]; cbn [fst snd] in *.
  - split; [reflexivity | exact L].
  - split; [reflexivity | exact L].
Qed.

Lemma text_assembly_partial_witness :
  files (snd (Ocr.generateMarkdownFile MoreExamples.fullDiskWorld Examples.emptyDisk))
        (Ocr.markdownOutputFile MoreExamples.fullDiskWorld) =
  Some (Ocr.header ++ ("Hello" ++ LF ++ LF) ++ (LF ++ LF ++ "["))%string.
Proof.
  destruct (text_assembly_partial MoreExamples.fullDiskWorld Examples.emptyDisk
              ["1.png"; "2.png"; "3.png"] 1) as [_ H].
  - reflexivity.
  - cbn. lia.
  - intros i Hi. destruct i as [ | [ | i]]; [reflexivity | reflexivity | lia].
  - intros _. reflexivity.
  - exact H.
Defined.

(** The text assembler never raises and writes to no file but its
    artifact.  When its first write fails it attempts no other, and the
    artifact is as it was when the file could not be opened, and cut down
    to the first units of the header when the write broke off. *)
Theorem text_assembly_contained w d :
  fst (Ocr.generateMarkdownFile w d) = Normal tt /\
  (forall q, q <> Ocr.markdownOutputFile w ->
             files (snd (Ocr.generateMarkdownFile w d)) q = files d q) /\
  (forall listing,
      Ocr.getScreenshotFiles w = Normal listing ->
      fs_write_fails w (clock d) = true ->
      clock (snd (Ocr.generateMarkdownFile w d)) = S (clock d) /\
      files (snd (Ocr.generateMarkdownFile w d)) (Ocr.markdownOutputFile w) =
        match fs_write_reached w (clock d) with
        | Some k => Some (take k Ocr.header)
        | None => files d (Ocr.markdownOutputFile w)
        end).
Proof.
  unfold Ocr.generateMarkdownFile.
  destruct (Ocr.getScreenshotFiles w) as [listing | e];
    [ | split; [reflexivity | split; [reflexivity | discriminate]]].
  unfold try_catch, bind, writeFile.
  match goal with |- context [fs_write w ?p ?u ?b d] =>
    pose proof (fs_write_other w p u b d) as Ho;
    pose proof (fs_write_failed w p u b d) as Hf;
    pose proof (fs_write_clock w p u b d) as Hc end.
  destruct (fs_write w _ _ _ d) as [[[] | e] d0]; cbn [fst snd] in *.
  - pose proof (textLoop_other w listing) as Hl.
    destruct (for_of listing (Ocr.appendPage w) d0) as [[[] | e] d1] eqn:E;
      cbv beta iota; cbn [fst snd ret]; (split; [reflexivity | split]).
    + intros q Hq. specialize (Hl q d0 Hq). rewrite E in Hl. cbn [snd] in Hl.
      now rewrite Hl, Ho.
    + intros l _ H. destruct (Hf H) as [[e He] _]. discriminate He.
    + intros q Hq. specialize (Hl q d0 Hq). rewrite E in Hl. cbn [snd] in Hl.
      now rewrite Hl, Ho.
    + intros l _ H. destruct (Hf H) as [[e' He] _]. discriminate He.
  - split; [reflexivity | split].
    + exact Ho.
    + intros l _ H. destruct (Hf H) as [_ Hfile]. split; [exact Hc | exact Hfile].
Qed.

Lemma text_assembly_contained_witness :
  files (snd (Ocr.generateMarkdownFile MoreExamples.fullDiskWorld Examples.usedDisk))
        (Ocr.markdownOutputFile MoreExamples.fullDiskWorld) = Some "# T"%string.
Proof.
  destruct (text_assembly_contained MoreExamples.fullDiskWorld Examples.usedDisk)
    as (_ & _ & H).
  destruct (H ["1.png"; "2.png"; "3.png"]) as [_ Hfile]; [reflexivity | reflexivity | ].
  exact Hfile.
Defined.

End AssemblersMore.

(* ================================================================== *)
(** ** The document scripts when writes fail, and side by side *)
(* ================================================================== *)

Section DocumentMore.
Import JsString PdfLib Spec MoreSpec.
Local Open Scope list_scope.

(** What the incremental script keeps true of the disk turn after
    turn. *)
Lemma Incremental_disk w d listing : forall s,
  (forall q, q <> PdfIncremental.pdfOutputFile w -> files (disk s) q = files d q) ->
  (files (disk s) (PdfIncremental.pdfOutputFile w) = files d (PdfIncremental.pdfOutputFile w)
   \/ exists saved later,
        pdfDoc s = saved ++ later /\
        (files (disk s) (PdfIncremental.pdfOutputFile w) = Some (Whole saved) \/
         exists k,
           files (disk s) (PdfIncremental.pdfOutputFile w) = Some (FirstBytes k saved))) ->
  let s' := fold_left (fun s f => stepIncremental w TimesRoman f s) listing s in
  clock (disk s') = (clock (disk s) + List.length (filter (savable w) listing))%nat /\
  (forall q, q <> PdfIncremental.pdfOutputFile w -> files (disk s') q = files d q) /\
  (files (disk s') (PdfIncremental.pdfOutputFile w) = files d (PdfIncremental.pdfOutputFile w)
   \/ exists saved later,
        pdfDoc s' = saved ++ later /\
        (files (disk s') (PdfIncremental.pdfOutputFile w) = Some (Whole saved) \/
         exists k,
           files (disk s') (PdfIncremental.pdfOutputFile w) = Some (FirstBytes k saved))).
Proof.
  induction listing as [ | f listing IH]; intros s Ho Hp; cbn [fold_left filter].
  - cbn [List.length]. rewrite Nat.add_0_r. auto.
  - set (s1 := stepIncremental w TimesRoman f s).
    assert (Later : forall page,
               (files (disk s) (PdfIncremental.pdfOutputFile w) =
                  files d (PdfIncremental.pdfOutputFile w)
                \/ exists saved later,
                     pdfDoc s ++ [page] = saved ++ later /\
                     (files (disk s) (PdfIncremental.pdfOutputFile w) = Some (Whole saved) \/
                      exists k,
                        files (disk s) (PdfIncremental.pdfOutputFile w) =
                          Some (FirstBytes k saved)))).
    { intros page. destruct Hp as [Hp | (saved & later & H1 & H2)]; [now left | right].
      exists saved, (later ++ [page]). split; [now rewrite H1, app_assoc | exact H2]. }
    destruct (sourceImage w f) as [image | ] eqn:Hs.
    + pose proof (savable_step w f) as Hsv. rewrite Hs in Hsv.
      specialize (Hsv ltac:(discriminate)).
      set (page := pageOf (layerIncremental w f) image).
      assert (D1 : pdfDoc s1 = pdfDoc s ++ [page])
        by (subst s1; unfold stepIncremental; now rewrite Hs).
      destruct (savable w f) eqn:Hf.
      * assert (D2 : disk s1 =
                     snd (writeFile w (PdfIncremental.pdfOutputFile w)
                            (Whole (pdfDoc s ++ [page])) (disk s))).
        { subst s1. unfold stepIncremental. rewrite Hs. cbv zeta. now rewrite <- Hsv. }
        destruct (IH s1) as (I1 & I2 & I3).
        -- intros q Hq. rewrite D2. unfold writeFile.
           rewrite fs_write_other by exact Hq. now apply Ho.
        -- rewrite D1, D2. unfold writeFile.
           destruct (fs_write_fails w (clock (disk s))) eqn:Hfail.
           ++ match goal with |- context [fs_write w ?p ?u ?b (disk s)] =>
                destruct (fs_write_failed w p u b (disk s) Hfail) as [_ Hfile] end.
              rewrite Hfile.
              destruct (fs_write_reached w (clock (disk s))) as [k | ]; [ | apply Later].
              right. exists (pdfDoc s ++ [page]), []. rewrite app_nil_r.
              split; [reflexivity | right]. exists k. reflexivity.
           ++ match goal with |- context [fs_write w ?p ?u ?b (disk s)] =>
                destruct (fs_write_ok w p u b (disk s) Hfail) as [_ Hfile] end.
              rewrite Hfile.
              right. exists (pdfDoc s ++ [page]), []. rewrite app_nil_r.
              split; [reflexivity | now left].
        -- split; [ | split; assumption].
           fold s1. rewrite I1, D2. unfold writeFile. rewrite fs_write_clock.
           cbn [List.length]. lia.
      * assert (D2 : disk s1 = disk s)
          by (subst s1; unfold stepIncremental; rewrite Hs; cbv zeta; now rewrite <- Hsv).
        destruct (IH s1) as (I1 & I2 & I3).
        -- now rewrite D2.
        -- rewrite D1, D2. apply Later.
        -- split; [ | split; assumption]. fold s1. now rewrite I1, D2.
    + assert (D : s1 = s) by (subst s1; unfold stepIncremental; now rewrite Hs).
      assert (Hf : savable w f = false) by (unfold savable, embeddable; now rewrite Hs).
      rewrite Hf. fold s1. rewrite D. now apply IH.
Qed.

(** The incremental script attempts one write for every page that got
    as far as its save and goes on when a write fails: whatever writes
    fail and whatever texts cannot be drawn, the run returns normally, the
    document in memory has a page for every image that can be embedded,
    no other file is written, and the file of the document is as it was
    before the run, or holds the bytes, all or the first of them, of the
    document as it stood after one of its pages. *)
Theorem incremental_saves w d listing :
  Ocr.getScreenshotFiles w = Normal listing ->
  let s := snd (PdfIncremental.generateSearchablePdf w d) in
  let out := PdfIncremental.pdfOutputFile w in
  fst (PdfIncremental.generateSearchablePdf w d) = Normal tt /\
  List.length (pdfDoc s) = List.length (filter (embeddable w) listing) /\
  clock (disk s) = (clock d + List.length (filter (savable w) listing))%nat /\
  (forall q, q <> out -> files (disk s) q = files d q) /\
  (files (disk s) out = files d out
   \/ exists saved later,
        pdfDoc s = saved ++ later /\
        (files (disk s) out = Some (Whole saved) \/
         exists k, files (disk s) out = Some (FirstBytes k saved))).
Proof.
  intros Hl. cbv zeta.
  destruct (Incremental_run w d listing Hl) as (R1 & R2 & _). cbv zeta in R2.
  split; [exact R1 | split; [now rewrite R2, pagesFor_length | ]].
  unfold PdfIncremental.generateSearchablePdf. rewrite Hl. cbv zeta.
  rewrite (for_of_steps _ _ (Incremental_processFile_step w TimesRoman)). cbn [snd].
  apply (Incremental_disk w d listing (create d)).
  - reflexivity.
  - now left.
Qed.

Lemma incremental_saves_witness :
  List.length (pdfDoc (snd (PdfIncremental.generateSearchablePdf
                              MoreExamples.fullDiskWorld Examples.emptyDisk))) = 3%nat /\
  clock (disk (snd (PdfIncremental.generateSearchablePdf
                      MoreExamples.fullDiskWorld Examples.emptyDisk))) = 3%nat.
Proof.
  destruct (incremental_saves MoreExamples.fullDiskWorld Examples.emptyDisk
              ["1.png"; "2.png"; "3.png"]) as (_ & H1 & H2 & _).
  - reflexivity.
  - split; [exact H1 | exact H2].
Defined.

End DocumentMore.

(* ================================================================== *)
(** ** An answer of white space only *)
(* ================================================================== *)

Section BlankAnswer.
Import JsString Spec PdfLib MoreSpec.
Local Open Scope list_scope.

Lemma dropWhile_all f s : all f s = true -> dropWhile f s = EmptyString.
Proof.
  induction s as [ | c s IH]; [reflexivity | ].
  cbn [all dropWhile]. intros H. apply andb_prop in H as [Hc Hs].
  rewrite Hc. now apply IH.
Qed.

Lemma trim_blank c : all isWhiteSpace c = true -> trim c = EmptyString.
Proof.
  intros H. unfold trim, trimStart. now rewrite dropWhile_all.
Qed.

Lemma cleanup_blank c : all isWhiteSpace c = true -> Ocr.cleanup c = EmptyString.
Proof.
  intros H. unfold Ocr.cleanup. now rewrite trim_blank.
Qed.

Lemma blank_transcription w f model :
  answersBlank w f -> Ocr.performOcrOnImage w f model = Normal (Some EmptyString).
Proof.
  intros (image & Hread & Hchat).
  destruct (Hchat model) as (response & c & Hr & Hc & Hne & Hblank).
  rewrite performOcrOnImage_cases, Hread, Hr, Hc.
  destruct c as [ | a c]; [congruence | ].
  cbn [truthy]. now rewrite cleanup_blank.
Qed.

Lemma Forall2_Forall_r {A B} (R : A -> B -> Prop) (Q : B -> Prop) l l' :
  Forall2 R l l' -> (forall x y, In x l -> R x y -> Q y) -> Forall Q l'.
Proof.
  induction 1 as [ | x y l l' Hxy _ IH]; intros H; constructor.
  - apply (H x); [now left | exact Hxy].
  - apply IH. intros x' y' Hin. apply H. now right.
Qed.

(** A non-empty answer of white space only counts as a transcription,
    the empty text, and not as a failure.  When the service answers every
    listed page in this way, the Transcriber returns the empty string and
    not [null] for each; the text assembler writes the header and a blank
    chunk for every page, and no marker; and the incremental script builds
    its pages without any text layer. *)
Theorem blank_answer w d dpdf listing :
  Ocr.getScreenshotFiles w = Normal listing ->
  (forall f, In f listing -> answersBlank w f) ->
  noWriteFails w ->
  (forall f model, In f listing ->
                   Ocr.performOcrOnImage w f model = Normal (Some EmptyString)) /\
  files (snd (Ocr.generateMarkdownFile w d)) (Ocr.markdownOutputFile w) =
    Some (Ocr.header ++ concatAll (map (fun _ => LF ++ LF) listing))%string /\
  List.length (pdfDoc (snd (PdfIncremental.generateSearchablePdf w dpdf))) =
    List.length (filter (embeddable w) listing) /\
  Forall (fun p => textLayer p = [])
         (pdfDoc (snd (PdfIncremental.generateSearchablePdf w dpdf))).
Proof.
  intros Hl Hblank Hw.
  assert (T : forall f model, In f listing ->
                              Ocr.performOcrOnImage w f model = Normal (Some EmptyString))
    by (intros f model Hin; now apply blank_transcription, Hblank).
  assert (T' : forall f model, In f listing -> transcription w model f = Some EmptyString)
    by (intros f model Hin; unfold transcription; now rewrite T).
  split; [exact T | split; [ | split]].
  - destruct (generateMarkdownFile_content w d listing Hl Hw) as [_ H]. rewrite H.
    do 3 f_equal. apply map_ext_in. intros f Hin.
    unfold chunkOf. now rewrite T'.
  - destruct (Incremental_run w dpdf listing Hl) as (_ & Q1 & _). cbv zeta in Q1.
    now rewrite Q1, pagesFor_length.
  - apply (Forall2_Forall_r _ _ _ _ (Incremental_layers w dpdf listing Hl)).
    intros f p Hin ->. apply filter_In in Hin as [Hin _].
    unfold layerIncremental. now rewrite T'.
Qed.

Lemma blank_answer_witness :
  files (snd (Ocr.generateMarkdownFile MoreExamples.blankWorld Examples.emptyDisk))
        (Ocr.markdownOutputFile MoreExamples.blankWorld) =
    Some (Ocr.header ++ LF ++ LF)%string /\
  Forall (fun p => textLayer p = [])
         (pdfDoc (snd (PdfIncremental.generateSearchablePdf
                         MoreExamples.blankWorld Examples.emptyDisk))).
Proof.
  destruct (blank_answer MoreExamples.blankWorld Examples.emptyDisk Examples.emptyDisk
              ["1.png"]) as (_ & H1 & _ & H2).
  - reflexivity.
  - intros f [<- | []]. exists "/app/screenshots/1.png"%string.
    split; [reflexivity | ]. intros model.
    exists (Some {| message := Some {| content := Some ("  " ++ LF)%string |} |}),
      ("  " ++ LF)%string.
    repeat split. discriminate.
  - intros n. reflexivity.
  - split; [exact H1 | exact H2].
Defined.

End BlankAnswer.
